(** * yle-dl: stream selection and retry orchestration (yledl/downloader.py)

    A shallow embedding of [YleDlDownloader]: the flavor filter
    ([select_flavor], [apply_backend_filter], [apply_resolution_filters],
    [backend_not_enabled_flavor]), the retry loop ([try_all_streams],
    [remove_retry_file]) and the playlist loop ([process], [download_clips],
    [pipe]).  Python integers are [Z], optional attributes are [option],
    and everything the downloader does to the outside world (logging, the
    extractor, the backends, the file system) is threaded through an
    explicit state. *)

From Stdlib Require Import ZArith List String Bool Lia Permutation Sorting.Sorted.
From Stdlib Require Import DecimalString.
Import ListNotations.
Local Open Scope string_scope.
Local Open Scope Z_scope.
Local Open Scope list_scope.
Set Warnings "-register-all".

(** ** Python values used by the filter *)

(** [x or 0] for an optional integer attribute: [None] and [0] are both
    falsy, so the result is the integer itself or [0]. *)
Definition or0 (x : option Z) : Z :=
  match x with
  | Some v => v
  | None => 0
  end.

(** [x is not None]. *)
Definition is_not_None {A : Type} (x : option A) : bool :=
  match x with
  | Some _ => true
  | None => false
  end.

(** [filtered[-1]] on a list already known to be non-empty; [None] stands
    for the [IndexError] of an empty list. *)
Fixpoint last_item {A : Type} (l : list A) : option A :=
  match l with
  | [] => None
  | [x] => Some x
  | _ :: l' => last_item l'
  end.

(** Sort keys are Python values: an [int] or a pair of [int]s. *)
Inductive Key : Type :=
| KInt (z : Z)
| KPair (a b : Z).

(** [k1 < k2] on keys.  Tuples compare lexicographically.  An [int] is
    never compared with a tuple, because one key function serves a whole
    call of [sorted]; the mixed cases (a [TypeError] in Python) are
    [false] here. *)
Definition key_lt (k1 k2 : Key) : bool :=
  match k1, k2 with
  | KInt a, KInt b => a <? b
  | KPair a1 b1, KPair a2 b2 => (a1 <? a2) || ((a1 =? a2) && (b1 <? b2))
  | _, _ => false
  end.

(** ** [sorted(l, key=..., reverse=...)]

    Python's sort is stable, and the stable sorted arrangement of a list
    is unique, so an insertion sort that keeps equal keys in their
    original order computes what [sorted] returns.  With [reverse=True]
    CPython reverses the list, sorts it ascending and reverses the result,
    which keeps equal keys in their original order too. *)
Section PySorted.
Context {A : Type}.
Variable key : A -> Key.

Fixpoint insert_stable (x : A) (l : list A) : list A :=
  match l with
  | [] => [x]
  | y :: l' =>
      if key_lt (key y) (key x) then y :: insert_stable x l'
      else x :: y :: l'
  end.

Definition sort_stable (l : list A) : list A :=
  fold_right insert_stable [] l.

Definition sorted (l : list A) (reverse : bool) : list A :=
  if reverse then rev (sort_stable (rev l)) else sort_stable l.
End PySorted.

(** ** Data model *)

(** A stream handle ("downloader" in the source): the backend [name], the
    result of [is_valid()], the [error_message] attribute, and the identity
    of the object. *)
Record Stream : Type := mkStream {
  name : string;
  is_valid : bool;
  error_message : option string;
  stream_id : nat
}.

Record StreamFlavor : Type := mkFlavor {
  media_type : string;
  height : option Z;
  width : option Z;
  bitrate : option Z;
  streams : list Stream
}.

Record StreamFilters : Type := mkFilters {
  latest_only : bool;
  maxheight : option Z;
  maxbitrate : option Z;
  enabled_backends : list string
}.

(** [res = copy.copy(flavor); res.streams = sorted_streams] *)
Definition with_streams (fl : StreamFlavor) (ss : list Stream) : StreamFlavor :=
  {| media_type := media_type fl;
     height := height fl;
     width := width fl;
     bitrate := bitrate fl;
     streams := ss |}.

(** Truthiness of a list: [if l:] *)
Definition nonempty {A : Type} (l : list A) : bool :=
  match l with
  | [] => false
  | _ :: _ => true
  end.

(** ** The flavor filter *)

Module FlavorFilter.
Section WithFailedFlavor.

(** [FailedFlavor(msg)] of [yledl.streamflavor] is not part of the
    sources at hand; the filter only constructs it, so it is a
    parameter. *)
Variable FailedFlavor : option string -> StreamFlavor.

(** Iteration order of the Python [set] obtained by adding the given
    names one after the other.  The order depends on string hashing and
    is left open. *)
Variable set_iter : list string -> list string.

Definition filter_streams_by_backend (filters : StreamFilters)
    (flavor : StreamFlavor) : StreamFlavor :=
  let sorted_streams :=
    flat_map
      (fun be => filter (fun downloader => String.eqb (name downloader) be)
                        (streams flavor))
      (enabled_backends filters) in
  with_streams flavor sorted_streams.

(** The names added to [supported_backends], in the order of the
    [update] calls. *)
Definition supported_backend_names (flavors : list StreamFlavor) : list string :=
  flat_map (fun fl => map name (filter is_valid (streams fl))) flavors.

Definition error_messages (flavors : list StreamFlavor) : list (option string) :=
  flat_map
    (fun fl => map error_message (filter (fun s => negb (is_valid s)) (streams fl)))
    flavors.

Definition backend_not_enabled_flavor (flavors : list StreamFlavor) : StreamFlavor :=
  let supported_backends := supported_backend_names flavors in
  let msg :=
    if nonempty supported_backends then
      Some ("Required backend not enabled. Try: --backend "
              ++ String.concat "," (set_iter supported_backends))%string
    else
      match error_messages flavors with
      | m :: _ => m
      | [] => Some "Stream not found"
      end in
  FailedFlavor msg.

Definition apply_backend_filter (flavors : list StreamFlavor)
    (filters : StreamFilters) : list StreamFlavor :=
  if negb (nonempty flavors) then []
  else
    let filtered := map (filter_streams_by_backend filters) flavors in
    let filtered := filter (fun fl => nonempty (streams fl)) filtered in
    if nonempty filtered then filtered
    else if nonempty flavors then [backend_not_enabled_flavor flavors]
    else [].

Definition sort_max_bitrate (x : StreamFlavor) : Key :=
  KInt (or0 (bitrate x)).

Definition sort_max_resolution_min_bitrate (x : StreamFlavor) : Key :=
  KPair (or0 (height x)) (- or0 (bitrate x)).

Definition sort_max_resolution_max_bitrate (x : StreamFlavor) : Key :=
  KPair (or0 (height x)) (or0 (bitrate x)).

(** The condition of the list comprehension in [apply_resolution_filters]. *)
Definition within_limits (filters : StreamFilters) (fl : StreamFlavor) : bool :=
  (match maxbitrate filters with
   | None => true
   | Some mb => or0 (bitrate fl) <=? mb
   end)
  &&
  (match maxheight filters with
   | None => true
   | Some mh => or0 (height fl) <=? mh
   end).

Definition apply_resolution_filters (flavors : list StreamFlavor)
    (filters : StreamFilters) : list StreamFlavor :=
  let filtered := filter (within_limits filters) flavors in
  let '(acceptable_flavors, reverse) :=
    if nonempty filtered then (filtered, false)
    else (flavors,
          is_not_None (maxheight filters) || is_not_None (maxbitrate filters)) in
  let keyfunc :=
    if is_not_None (maxheight filters) && is_not_None (maxbitrate filters)
    then sort_max_resolution_max_bitrate
    else if is_not_None (maxheight filters)
    then sort_max_resolution_min_bitrate
    else sort_max_bitrate in
  sorted keyfunc acceptable_flavors reverse.

(** The flavor [select_flavor] returns.  The method also writes debug
    lines to the log: with them it is [Downloader.select_flavor], which
    returns this flavor and leaves the world as it is. *)
Definition select_flavor (flavors : list StreamFlavor)
    (filters : StreamFilters) : option StreamFlavor :=
  if negb (nonempty flavors) then None
  else
    let filtered := apply_backend_filter flavors filters in
    let filtered := apply_resolution_filters filtered filters in
    if nonempty filtered then last_item filtered else None.

(** [flavor.streams or []] for a selected flavor, [None] otherwise. *)
Definition select_streams (flavors : list StreamFlavor)
    (filters : StreamFilters) : option (list Stream) :=
  match select_flavor flavors filters with
  | Some flavor => Some (streams flavor)
  | None => None
  end.

(** The flavors that survive the backend filter: the ones with at least
    one stream of an enabled backend, streams reordered by backend
    preference. *)
Definition enabled_flavors (flavors : list StreamFlavor)
    (filters : StreamFilters) : list StreamFlavor :=
  filter (fun fl => nonempty (streams fl))
         (map (filter_streams_by_backend filters) flavors).

End WithFailedFlavor.
End FlavorFilter.

(** ** Result codes *)

(** Modelled from the spec: the result codes of [yledl.exitcodes], a module
    that is not part of the sources at hand (spec, section 6: SUCCESS,
    INCOMPLETE, FAILED, SUBPROCESS_EXECUTE_FAILED). *)
Inductive ResultCode : Type :=
| RD_SUCCESS
| RD_INCOMPLETE
| RD_FAILED
| RD_SUBPROCESS_EXECUTE_FAILED.

Definition rd_eqb (a b : ResultCode) : bool :=
  match a, b with
  | RD_SUCCESS, RD_SUCCESS
  | RD_INCOMPLETE, RD_INCOMPLETE
  | RD_FAILED, RD_FAILED
  | RD_SUBPROCESS_EXECUTE_FAILED, RD_SUBPROCESS_EXECUTE_FAILED => true
  | _, _ => false
  end.

(** ** The outside world *)

Inductive Level : Type := DEBUG | INFO | WARNING | ERROR.

Record Clip : Type := mkClip {
  webpage : string;
  title : option string;
  region : option string;
  flavors : list StreamFlavor
}.

Record DownloadLimits : Type := mkLimits {
  start_position : option Z;
  duration : option Z
}.

Record IOContext : Type := mkIO {
  outputfilename : option string;
  preferred_format : option string;
  overwrite : bool;
  postprocess_command : option string;
  download_limits : DownloadLimits
}.

(** What the downloader does to its surroundings, in the order it does it:
    its own log lines and its calls to the collaborators.  [Attempt] is one
    call [streamfunc(clip, stream)]: it carries what the stream function
    did itself and the pair it returned. *)
Inductive Event : Type :=
| Log (lvl : Level) (msg : string)
| GetPlaylist (url : string) (latest : option bool)
| ExtractClip (clip_url : string)
| LocatedInFinland (page : string)
| Attempt (stream : Stream) (inner : list Event)
          (res : ResultCode) (output_file : option string)
| IsFile (filename : string) (found : bool)
| OsRemove (filename : string) (ok : bool)
| PathExists (filename : string) (found : bool)
| WarnUnsupported (stream : Stream)
| OutputName (clip_title : option string) (extension : string)
| AlreadyDownloaded (stream : Stream) (filename : string) (done : bool)
| SaveStream (stream : Stream) (filename : string) (res : ResultCode)
| PipeStream (stream : Stream) (res : ResultCode)
| Execute (args : list string).

(** Truthiness of an optional string ([None] and [''] are falsy) and of an
    optional number ([None] and [0] are falsy). *)
Definition truthy (s : option string) : bool :=
  match s with
  | Some f => negb (String.eqb f "")
  | None => false
  end.

Definition truthyZ (x : option Z) : bool :=
  match x with
  | Some v => negb (v =? 0)
  | None => false
  end.

(** ['{x}'.format(x=...)] for an optional integer: its decimal digits, or
    [None]. *)
Definition py_int (x : option Z) : string :=
  match x with
  | Some v => NilZero.string_of_int (Z.to_int v)
  | None => "None"
  end.

(** [f'{x}'] for an optional string. *)
Definition py_str (s : option string) : string :=
  match s with
  | Some v => v
  | None => "None"
  end.

(** The collaborators, as functions on the state of the world: the
    extractor with its title formatter, the geolocation service, the
    backend behind a stream handle, and the [os] and [Subprocess] calls. *)
Record Extractor (World : Type) : Type := mkExtractor {
  get_playlist : string -> option bool -> World -> list string * World;
  extract_clip : string -> World -> Clip * World;
  is_constant_pattern : bool;
  template : string
}.

Record Geolocation (World : Type) : Type := mkGeolocation {
  located_in_finland : string -> World -> bool * World
}.

Record Backends (World : Type) : Type := mkBackends {
  warn_on_unsupported_feature : Stream -> IOContext -> World -> World;
  file_extension : Stream -> option string -> string;
  full_stream_already_downloaded :
    Stream -> string -> Clip -> IOContext -> World -> bool * World;
  save_stream : Stream -> string -> Clip -> IOContext -> World -> ResultCode * World;
  pipe_stream : Stream -> IOContext -> World -> ResultCode * World
}.

Record Os (World : Type) : Type := mkOs {
  path_exists : string -> World -> bool;
  path_isfile : string -> World -> bool;
  (** [os.remove]; [None] when it raises [OSError]. *)
  remove : string -> World -> option World;
  (** [OutputFileNameGenerator().filename(title, extension, io)] *)
  output_filename : option string -> string -> IOContext -> World -> option string * World;
  (** [Subprocess().execute([args], None)] *)
  execute : list string -> World -> World
}.

Arguments get_playlist {World}.
Arguments extract_clip {World}.
Arguments is_constant_pattern {World}.
Arguments template {World}.
Arguments located_in_finland {World}.
Arguments warn_on_unsupported_feature {World}.
Arguments file_extension {World}.
Arguments full_stream_already_downloaded {World}.
Arguments save_stream {World}.
Arguments pipe_stream {World}.
Arguments path_exists {World}.
Arguments path_isfile {World}.
Arguments remove {World}.
Arguments output_filename {World}.
Arguments execute {World}.

(** ** Computations: a state monad over the world that also collects the
    events emitted. *)
Module Run.
Section Monad.
Context {World : Type}.

Definition M (A : Type) : Type := World -> A * World * list Event.

Definition ret {A : Type} (a : A) : M A := fun w => (a, w, []).

Definition bind {A B : Type} (m : M A) (f : A -> M B) : M B :=
  fun w =>
    let '(a, w1, e1) := m w in
    let '(b, w2, e2) := f a w1 in
    (b, w2, (e1 ++ e2)%list).

Definition emit (e : Event) : M unit := fun w => (tt, w, [e]).

Definition log (lvl : Level) (msg : string) : M unit := emit (Log lvl msg).

(** A read-only query of the world, recorded with its answer. *)
Definition query {A : Type} (q : World -> A) (ev : A -> Event) : M A :=
  fun w => (q w, w, [ev (q w)]).

(** A call that changes the world, recorded with its answer. *)
Definition call {A : Type} (c : World -> A * World) (ev : A -> Event) : M A :=
  fun w => let '(a, w') := c w in (a, w', [ev a]).

Definition result {A : Type} (r : A * World * list Event) : A := fst (fst r).
Definition world_after {A : Type} (r : A * World * list Event) : World := snd (fst r).
Definition events {A : Type} (r : A * World * list Event) : list Event := snd r.
End Monad.
End Run.

Import Run.

Declare Scope run_scope.
Delimit Scope run_scope with run.
Notation "x <- c1 ;; c2" := (bind c1 (fun x => c2))
  (at level 61, c1 at next level, right associativity) : run_scope.
Notation "' pat <- c1 ;; c2" := (bind c1 (fun x => match x with pat => c2 end))
  (at level 61, pat pattern, c1 at next level, right associativity) : run_scope.
Notation "c1 ;; c2" := (bind c1 (fun _ => c2))
  (at level 61, right associativity) : run_scope.
Local Open Scope run_scope.

(** ** The downloader *)

Module Downloader.
Section YleDlDownloader.
Context {World : Type}.

(** [self.extractor], [self.geolocation], and the modules the class
    imports. *)
Variable extractor : Extractor World.
Variable geolocation : Geolocation World.
Variable backends : Backends World.
Variable os : Os World.

(** [to_external_rd_code] of [yledl.exitcodes], not part of the sources
    at hand. *)
Variable to_external_rd_code : ResultCode -> ResultCode.

Variable FailedFlavor : option string -> StreamFlavor.
Variable set_iter : list string -> list string.

(** [str(flavor)], as the f-string of the last debug line of
    [select_flavor] formats it; it is defined by the class [StreamFlavor]
    and the stream classes, which are not part of the sources at hand. *)
Variable flavor_str : StreamFlavor -> string.

Abbreviation M := (@Run.M World).

(** The type of [streamfunc]: the closures [download] and [pipe_clip]. *)
Definition StreamFunc : Type := Clip -> Stream -> M (ResultCode * option string).

(** [for fl in flavors: logger.debug(...)] *)
Fixpoint log_flavors (flavors : list StreamFlavor) : M unit :=
  match flavors with
  | [] => ret tt
  | fl :: rest =>
      log DEBUG ("bitrate: " ++ py_int (bitrate fl)
                 ++ ", height: " ++ py_int (height fl)
                 ++ ", width: " ++ py_int (width fl))%string ;;
      log_flavors rest
  end.

Definition select_flavor (flavors : list StreamFlavor)
    (filters : StreamFilters) : M (option StreamFlavor) :=
  if negb (nonempty flavors) then ret None
  else
    log DEBUG "Available flavors:" ;;
    log_flavors flavors ;;
    log DEBUG ("max_height: " ++ py_int (maxheight filters)
               ++ ", max_bitrate: " ++ py_int (maxbitrate filters))%string ;;
    let filtered := FlavorFilter.apply_backend_filter FailedFlavor set_iter
                      flavors filters in
    let filtered := FlavorFilter.apply_resolution_filters filtered filters in
    if nonempty filtered then
      match last_item filtered with
      | Some selected =>
          log DEBUG ("Selected flavor: " ++ flavor_str selected)%string ;;
          ret (Some selected)
      | None => ret None
      end
    else ret None.

Definition select_streams (flavors : list StreamFlavor)
    (filters : StreamFilters) : M (option (list Stream)) :=
  flavor <- select_flavor flavors filters ;;
  match flavor with
  | Some fl => ret (Some (streams fl))
  | None => ret None
  end.

Definition remove_retry_file (filename : option string) : M unit :=
  match filename with
  | Some f =>
      if negb (String.eqb f "") then
        found <- query (path_isfile os f) (IsFile f) ;;
        if found then
          log DEBUG "Removing the partially downloaded file" ;;
          fun w =>
            match remove os f w with
            | Some w' => (tt, w', [OsRemove f true])
            | None =>
                (tt, w, [OsRemove f false;
                         Log WARNING "Failed to remove a partial output file"])
            end
        else ret tt
      else ret tt
  | None => ret tt
  end.

(** One call [streamfunc(clip, stream)], recorded as an [Attempt]. *)
Definition attempt (streamfunc : StreamFunc) (clip : Clip) (stream : Stream)
    : M (ResultCode * option string) :=
  fun w =>
    let '(r, w', inner) := streamfunc clip stream w in
    (r, w', [Attempt stream inner (fst r) (snd r)]).

(** The [for] loop of [try_all_streams], with the two variables it
    carries from one iteration to the next. *)
Fixpoint try_all_streams_loop (streamfunc : StreamFunc) (clip : Clip)
    (needs_retry : ResultCode -> bool)
    (latest_result : ResultCode) (output_file : option string)
    (streams : list Stream) : M ResultCode :=
  match streams with
  | [] => ret latest_result
  | stream :: rest =>
      if is_valid stream then
        (if truthy output_file then remove_retry_file output_file else ret tt) ;;
        log DEBUG ("Now trying downloader " ++ name stream)%string ;;
        ' (latest_result, output_file) <- attempt streamfunc clip stream ;;
        if needs_retry latest_result then
          try_all_streams_loop streamfunc clip needs_retry
            latest_result output_file rest
        else ret latest_result
      else
        try_all_streams_loop streamfunc clip needs_retry
          latest_result output_file rest
  end.

Definition try_all_streams (streamfunc : StreamFunc) (clip : Clip)
    (streams : list Stream) (needs_retry : ResultCode -> bool) : M ResultCode :=
  try_all_streams_loop streamfunc clip needs_retry RD_FAILED None streams.

Definition print_geo_warning (clip : Clip) : M unit :=
  let region_is_finland_or_None :=
    match region clip with
    | Some r => String.eqb r "Finland"
    | None => true
    end in
  if region_is_finland_or_None then
    inside <- call (located_in_finland geolocation (webpage clip))
                   (fun _ => LocatedInFinland (webpage clip)) ;;
    if negb inside then
      log ERROR ("This clip is only available in Finland "
                 ++ "and according to Yle you are located abroad")%string
    else ret tt
  else ret tt.

(** The body of the [for] loop of [process]: from the overall status so
    far to the overall status after this clip. *)
Definition process_clip (streamfunc : StreamFunc)
    (needs_retry : ResultCode -> bool) (filters : StreamFilters)
    (overall_status : ResultCode) (clip_url : string) : M ResultCode :=
  clip <- call (extract_clip extractor clip_url) (fun _ => ExtractClip clip_url) ;;
  streams <- select_streams (flavors clip) filters ;;
  match streams with
  | None | Some [] =>
      log ERROR "No stream found" ;;
      ret RD_FAILED
  | Some ((s0 :: _) as streams) =>
      if forallb (fun stream => negb (is_valid stream)) streams then
        log ERROR ("Unsupported stream: " ++ py_str (error_message s0))%string ;;
        print_geo_warning clip ;;
        ret RD_FAILED
      else
        res <- try_all_streams streamfunc clip streams needs_retry ;;
        if negb (rd_eqb res RD_SUCCESS) && negb (rd_eqb overall_status RD_FAILED)
        then ret res
        else ret overall_status
  end.

Fixpoint process_loop (streamfunc : StreamFunc)
    (needs_retry : ResultCode -> bool) (filters : StreamFilters)
    (overall_status : ResultCode) (playlist : list string) : M ResultCode :=
  match playlist with
  | [] => ret overall_status
  | clip_url :: rest =>
      overall_status <-
        process_clip streamfunc needs_retry filters overall_status clip_url ;;
      process_loop streamfunc needs_retry filters overall_status rest
  end.

Definition process (playlist : list string) (streamfunc : StreamFunc)
    (needs_retry : ResultCode -> bool) (filters : StreamFilters) : M ResultCode :=
  if (Z.of_nat (List.length playlist) =? 0) then
    log ERROR "No streams found" ;;
    ret RD_SUCCESS
  else
    overall_status <-
      process_loop streamfunc needs_retry filters RD_SUCCESS playlist ;;
    ret (to_external_rd_code overall_status).

Definition should_skip_downloading (outputfile : string) (downloader : Stream)
    (clip : Clip) (io : IOContext) : M bool :=
  let limits := download_limits io in
  let slicing_active :=
    truthyZ (start_position limits) || (0 >? 0) || truthyZ (duration limits) in
  exists_already <-
    (if negb (overwrite io)
     then query (path_exists os outputfile) (PathExists outputfile)
     else ret false) ;;
  if exists_already then ret true
  else if negb slicing_active then
    call (full_stream_already_downloaded backends downloader outputfile clip io)
         (AlreadyDownloaded downloader outputfile)
  else ret false.

Definition generate_output_name (clip_title : option string)
    (downloader : Stream) (io : IOContext) : M (option string) :=
  let extension := file_extension backends downloader (preferred_format io) in
  call (output_filename os clip_title extension io)
       (fun _ => OutputName clip_title extension).

Definition log_output_file (outputfile : string) (done : bool) : M unit :=
  if negb (String.eqb outputfile "") && negb (String.eqb outputfile "-") then
    if done then log INFO ("Stream saved to " ++ outputfile)%string
    else log INFO ("Output file: " ++ outputfile)%string
  else ret tt.

Definition postprocess (command : option string) (videofile : string)
    (subtitlefiles : list string) : M unit :=
  match command with
  | Some cmd =>
      if negb (String.eqb cmd "") then
        let args := cmd :: videofile :: subtitlefiles in
        call (fun w => (tt, execute os args w)) (fun _ => Execute args)
      else ret tt
  | None => ret tt
  end.

(** The closure [download] of [download_clips].  Its first branch
    ([if not downloader]) is never taken from [try_all_streams], which
    has called [stream.is_valid()] on the same object, and is left out. *)
Definition download (io : IOContext) : StreamFunc :=
  fun clip downloader =>
    call (fun w => (tt, warn_on_unsupported_feature backends downloader io w))
         (fun _ => WarnUnsupported downloader) ;;
    outputfile <- generate_output_name (title clip) downloader io ;;
    match outputfile with
    | None => ret (RD_FAILED, None)
    | Some f =>
        if String.eqb f "" then ret (RD_FAILED, None)
        else
          skip <- should_skip_downloading f downloader clip io ;;
          if skip then
            log INFO (f ++ " has already been downloaded.")%string ;;
            ret (RD_SUCCESS, Some f)
          else
            log_output_file f false ;;
            dl_result <- call (save_stream backends downloader f clip io)
                              (SaveStream downloader f) ;;
            (if rd_eqb dl_result RD_SUCCESS then
               log_output_file f true ;;
               postprocess (postprocess_command io) f []
             else ret tt) ;;
            ret (dl_result, Some f)
    end.

Definition download_needs_retry (res : ResultCode) : bool :=
  negb (rd_eqb res RD_SUCCESS || rd_eqb res RD_INCOMPLETE).

Definition download_clips (base_url : string) (io : IOContext)
    (filters : StreamFilters) : M ResultCode :=
  playlist <- call (get_playlist extractor base_url (Some (latest_only filters)))
                   (fun _ => GetPlaylist base_url (Some (latest_only filters))) ;;
  if (Z.of_nat (List.length playlist) >? 1) && is_not_None (outputfilename io) then
    log ERROR ("The source is a playlist with multiple clips, "
               ++ "but only one output file specified")%string ;;
    ret RD_FAILED
  else if (Z.of_nat (List.length playlist) >? 1) && is_constant_pattern extractor then
    log ERROR ("The source is a playlist with multiple clips, "
               ++ "but --output-template is a literal: "
               ++ template extractor)%string ;;
    ret RD_FAILED
  else
    process playlist (download io) download_needs_retry filters.

(** The closure [pipe_clip] of [pipe]; its [if not downloader] branch is
    left out for the same reason as in [download]. *)
Definition pipe_clip (io : IOContext) : StreamFunc :=
  fun clip downloader =>
    call (fun w => (tt, warn_on_unsupported_feature backends downloader io w))
         (fun _ => WarnUnsupported downloader) ;;
    res <- call (pipe_stream backends downloader io) (PipeStream downloader) ;;
    ret (res, None).

Definition pipe_needs_retry (res : ResultCode) : bool :=
  rd_eqb res RD_SUBPROCESS_EXECUTE_FAILED.

Definition pipe (base_url : string) (io : IOContext)
    (filters : StreamFilters) : M ResultCode :=
  playlist <- call (get_playlist extractor base_url None)
                   (fun _ => GetPlaylist base_url None) ;;
  (* Can pipe one stream only. Drop other streams if there are more than one. *)
  let playlist := firstn 1 playlist in
  process playlist (pipe_clip io) pipe_needs_retry filters.

End YleDlDownloader.
End Downloader.

(** ** The methods that only look: [get_urls] and [error_flavor] *)

Module Queries.
Section YleDlDownloader.
Context {World : Type}.

(** [self.extractor.extract(base_url, latest_only)] and
    [stream.stream_url()]; neither is part of the sources at hand. *)
Variable extract : string -> bool -> World -> list Clip * World.
Variable stream_url : Stream -> string.

Variable FailedFlavor : option string -> StreamFlavor.
Variable set_iter : list string -> list string.

(** The body of the loop of [get_urls]: what one clip yields.  [next] on
    the generator of valid streams is the first valid stream; it cannot
    raise [StopIteration] after [any] has found one.  [select_streams] is
    taken by its value: the debug lines it logs, which
    [Downloader.select_streams] records, leave the world as it is. *)
Definition clip_urls (filters : StreamFilters) (clip : Clip) : list string :=
  match FlavorFilter.select_streams FailedFlavor set_iter (flavors clip) filters with
  | Some streams =>
      if nonempty streams && existsb is_valid streams then
        match find is_valid streams with
        | Some valid_stream => [stream_url valid_stream]
        | None => []
        end
      else []
  | None => []
  end.

(** [get_urls], run to exhaustion: the URLs it yields, in order, and the
    world [extract] leaves. *)
Definition get_urls (base_url : string) (filters : StreamFilters)
    (w : World) : list string * World :=
  let '(clips, w') := extract base_url (latest_only filters) w in
  (flat_map (clip_urls filters) clips, w').

Fixpoint error_flavor (flavors : list StreamFlavor) : option StreamFlavor :=
  match flavors with
  | [] => None
  | fl :: rest =>
      match find (fun s => negb (is_valid s)) (streams fl) with
      | Some s => Some (FailedFlavor (error_message s))
      | None => error_flavor rest
      end
  end.

End YleDlDownloader.
End Queries.

(** * Vocabulary of the properties *)

(** [key a <= key b], as the sort sees it: not [key b < key a]. *)
Definition key_le {A : Type} (key : A -> Key) (a b : A) : Prop :=
  key_lt (key b) (key a) = false.

(** The flavors of [successful_clip] in tests/test_downloader.py, in the
    order of the test ("intentionally unsorted"), each with one valid
    stream of the backend the test enables. *)
Definition mock_stream (id : nat) : Stream := mkStream "mock" true None id.

Definition high_quality : StreamFlavor :=
  mkFlavor "video" (Some 1080) (Some 1920) (Some 2808) [mock_stream 0].
Definition low_quality : StreamFlavor :=
  mkFlavor "video" (Some 360) (Some 640) (Some 880) [mock_stream 1].
Definition medium_quality : StreamFlavor :=
  mkFlavor "video" (Some 720) (Some 1280) (Some 1412) [mock_stream 2].
Definition medium_quality_high_bitrate : StreamFlavor :=
  mkFlavor "video" (Some 720) (Some 1280) (Some 1872) [mock_stream 3].

Definition successful_clip_flavors : list StreamFlavor :=
  [high_quality; low_quality; medium_quality; medium_quality_high_bitrate].

(** [StreamFilters(maxheight=720)] with the mock backend enabled. *)
Definition filters_maxheight_720 : StreamFilters :=
  mkFilters false (Some 720) None ["mock"].

(** All stream handles of a flavor list, in the order the comprehensions
    of [backend_not_enabled_flavor] visit them. *)
Definition all_streams (flavors : list StreamFlavor) : list Stream :=
  flat_map streams flavors.

(** What is assumed of the iteration order of a Python set: every element
    once, nothing else. *)
Definition set_iteration (set_iter : list string -> list string) : Prop :=
  forall l, NoDup (set_iter l) /\ forall x, In x (set_iter l) <-> In x l.

(** The calls of the stream function found in a list of events, in order:
    the stream tried and the result code it returned. *)
Fixpoint attempts (evs : list Event) : list (Stream * ResultCode) :=
  match evs with
  | [] => []
  | Attempt s _ r _ :: rest => (s, r) :: attempts rest
  | _ :: rest => attempts rest
  end.

(** The clips handed to [extract_clip], in order. *)
Fixpoint extractions (evs : list Event) : list string :=
  match evs with
  | [] => []
  | ExtractClip u :: rest => u :: extractions rest
  | _ :: rest => extractions rest
  end.

(** The events of one [remove_retry_file(output_file)] between two
    attempts: nothing for a falsy name, the [isfile] test alone for a file
    that is not there, and otherwise the removal, with a warning when it
    fails. *)
Inductive cleanup_events : option string -> list Event -> Prop :=
| cleanup_nothing : forall o, truthy o = false -> cleanup_events o []
| cleanup_absent : forall f,
    truthy (Some f) = true -> cleanup_events (Some f) [IsFile f false]
| cleanup_removed : forall f,
    truthy (Some f) = true ->
    cleanup_events (Some f)
      [IsFile f true; Log DEBUG "Removing the partially downloaded file";
       OsRemove f true]
| cleanup_failed : forall f,
    truthy (Some f) = true ->
    cleanup_events (Some f)
      [IsFile f true; Log DEBUG "Removing the partially downloaded file";
       OsRemove f false; Log WARNING "Failed to remove a partial output file"].

(** The shape of what [try_all_streams] does, given the artifact the
    previous attempt left: every attempt is preceded by the cleanup of its
    predecessor's artifact and by nothing else. *)
Inductive retry_trace : option string -> list Event -> Prop :=
| retry_done : forall o, retry_trace o []
| retry_attempt : forall o cl s inner r o' rest,
    cleanup_events o cl ->
    retry_trace o' rest ->
    retry_trace o
      (cl ++ Log DEBUG ("Now trying downloader " ++ name s)%string
          :: Attempt s inner r o' :: rest).

(** Follows the words of the spec (section 4.3): [overall = failed] is
    sticky; otherwise [overall] is the latest non-success item outcome. *)
Definition aggregate (overall item : ResultCode) : ResultCode :=
  if rd_eqb overall RD_FAILED then RD_FAILED
  else if rd_eqb item RD_SUCCESS then overall
  else item.

(** The cleanup step at the head of an iteration of [try_all_streams]:
    [if output_file: self.remove_retry_file(output_file)]. *)
Definition cleanup {World : Type} (os : Os World) (output_file : option string)
    : @Run.M World unit :=
  if truthy output_file then Downloader.remove_retry_file os output_file else ret tt.

(** The debug lines of one call of [select_flavor] on the given flavors,
    [selected] being the flavor it returns. *)
Definition flavor_line (fl : StreamFlavor) : Event :=
  Log DEBUG ("bitrate: " ++ py_int (bitrate fl)
             ++ ", height: " ++ py_int (height fl)
             ++ ", width: " ++ py_int (width fl))%string.

Definition selection_log (flavor_str : StreamFlavor -> string)
    (filters : StreamFilters) (flavors : list StreamFlavor)
    (selected : option StreamFlavor) : list Event :=
  match flavors with
  | [] => []
  | _ :: _ =>
      Log DEBUG "Available flavors:"
        :: map flavor_line flavors
        ++ Log DEBUG ("max_height: " ++ py_int (maxheight filters)
                      ++ ", max_bitrate: " ++ py_int (maxbitrate filters))%string
        :: match selected with
           | Some sel => [Log DEBUG ("Selected flavor: " ++ flavor_str sel)%string]
           | None => []
           end
  end.

(** What [try_all_streams] does, as a chain of calls of the stream
    function: from the world [w] and the artifact [o] the previous attempt
    left, each attempt is the call [streamfunc clip s] in the world the
    cleanup of [o] leaves, recorded with the events, the result code and
    the artifact of that very call; the chain ends in the world the last
    call leaves. *)
Inductive attempt_chain {World : Type} (os : Os World)
    (streamfunc : Downloader.StreamFunc) (clip : Clip)
    : World -> option string -> list Event -> World -> Prop :=
| chain_end : forall w o, attempt_chain os streamfunc clip w o [] w
| chain_attempt : forall w o s rest w',
    attempt_chain os streamfunc clip
      (world_after (streamfunc clip s (world_after (cleanup os o w))))
      (snd (result (streamfunc clip s (world_after (cleanup os o w)))))
      rest w' ->
    attempt_chain os streamfunc clip w o
      (events (cleanup os o w)
         ++ Log DEBUG ("Now trying downloader " ++ name s)%string
         :: Attempt s
              (events (streamfunc clip s (world_after (cleanup os o w))))
              (fst (result (streamfunc clip s (world_after (cleanup os o w)))))
              (snd (result (streamfunc clip s (world_after (cleanup os o w)))))
         :: rest)
      w'.

(** The outcome of one item of a playlist and the world it leaves, read
    off the body of the loop of [process]: failed when the selection gives
    no stream or only invalid ones, and otherwise whatever
    [try_all_streams] returns for the selected streams. *)
Definition clip_outcome {World : Type} (extractor : Extractor World)
    (geolocation : Geolocation World) (os : Os World)
    (FailedFlavor : option string -> StreamFlavor)
    (set_iter : list string -> list string)
    (streamfunc : Downloader.StreamFunc) (needs_retry : ResultCode -> bool)
    (filters : StreamFilters) (clip_url : string) (w : World)
    : ResultCode * World :=
  let '(clip, w1) := extract_clip extractor clip_url w in
  match FlavorFilter.select_streams FailedFlavor set_iter (flavors clip) filters with
  | None | Some [] => (RD_FAILED, w1)
  | Some ((_ :: _) as streams) =>
      if forallb (fun stream => negb (is_valid stream)) streams then
        (RD_FAILED, world_after (Downloader.print_geo_warning geolocation clip w1))
      else
        let tried :=
          Downloader.try_all_streams os streamfunc clip streams needs_retry w1 in
        (result tried, world_after tried)
  end.

(** The outcomes of the items of a playlist, each item starting in the
    world the one before it leaves. *)
Fixpoint playlist_outcomes {World : Type}
    (outcome : string -> World -> ResultCode * World)
    (playlist : list string) (w : World) : list ResultCode :=
  match playlist with
  | [] => []
  | clip_url :: rest =>
      fst (outcome clip_url w)
        :: playlist_outcomes outcome rest (snd (outcome clip_url w))
  end.

(** An item that yields no streams, or only invalid ones: what
    [select_streams] returns for its flavors is [None], empty, or a list of
    invalid handles. *)
Definition unusable (streams : option (list Stream)) : bool :=
  match streams with
  | None => true
  | Some ss => forallb (fun stream => negb (is_valid stream)) ss
  end.

(** ** A small world to run the downloader in

    Stand-ins for the collaborators, in the manner of the mocks of
    tests/test_downloader.py: a file system that is a list of file names,
    backends whose transfers write the output file and return a result
    chosen per stream, and an extractor that serves a fixed playlist. *)
Module Mock.

Record World : Type := mkWorld {
  files : list string;
  (** files on which [os.remove] raises [OSError] *)
  undeletable : list string
}.

Definition mem (f : string) (l : list string) : bool :=
  existsb (String.eqb f) l.

Definition os : Os World :=
  {| path_exists := fun f w => mem f (files w);
     path_isfile := fun f w => mem f (files w);
     remove := fun f w =>
       if mem f (undeletable w) then None
       else Some (mkWorld (filter (fun g => negb (String.eqb g f)) (files w))
                          (undeletable w));
     output_filename := fun t ext io w =>
       (match outputfilename io with
        | Some f => Some f
        | None => Some (py_str t ++ ext)%string
        end, w);
     execute := fun _ w => w |}.

Definition backends (outcome : Stream -> ResultCode) : Backends World :=
  {| warn_on_unsupported_feature := fun _ _ w => w;
     file_extension := fun _ _ => ".mp4";
     full_stream_already_downloaded := fun _ _ _ _ w => (false, w);
     save_stream := fun s f _ _ w =>
       (outcome s, mkWorld (f :: files w) (undeletable w));
     pipe_stream := fun s _ w => (outcome s, w) |}.

Definition extractor (playlist : list string) (clips : string -> Clip)
    (constant : bool) : Extractor World :=
  {| get_playlist := fun _ _ w => (playlist, w);
     extract_clip := fun u w => (clips u, w);
     is_constant_pattern := constant;
     template := "fixed" |}.

Definition geolocation : Geolocation World :=
  {| located_in_finland := fun _ w => (true, w) |}.

(** A stand-in for [FailedFlavor]: no attributes, one invalid stream that
    carries the message. *)
Definition FailedFlavor (msg : option string) : StreamFlavor :=
  mkFlavor "unknown" None None None [mkStream "" false msg 0].

(** A set iteration order: first occurrences, in insertion order. *)
Definition set_iter (l : list string) : list string :=
  rev (nodup string_dec (rev l)).

(** A stand-in for [str(flavor)]: the resolution and the bitrate. *)
Definition flavor_str (fl : StreamFlavor) : string :=
  (py_int (height fl) ++ "p@" ++ py_int (bitrate fl))%string.

Definition empty : World := mkWorld [] [].

Definition io : IOContext :=
  mkIO None None false None (mkLimits None None).

Definition filters : StreamFilters := mkFilters false None None ["mock"].

(** A clip with a single flavor served by the given streams. *)
Definition clip_of (clip_title : string) (ss : list Stream) : Clip :=
  mkClip "https://areena.yle.fi/1-1234567" (Some clip_title) (Some "Finland")
         [mkFlavor "video" (Some 720) (Some 1280) (Some 1412) ss].

(** Streams 0 and 1 fail, every other stream succeeds. *)
Definition third_time_lucky (s : Stream) : ResultCode :=
  if Nat.ltb (stream_id s) 2 then RD_FAILED else RD_SUCCESS.

(** The playlist of three clips: the first and the third download at
    once, the second has a stream that fails. *)
Definition three_clips (u : string) : Clip :=
  if String.eqb u "b" then clip_of "b" [mock_stream 0]
  else clip_of u [mock_stream 2].

(** The stream function of [download_clips] over these backends. *)
Definition save : Downloader.StreamFunc :=
  Downloader.download (backends third_time_lucky) os io.

Definition abc : Extractor World :=
  extractor ["a"; "b"; "c"] three_clips false.

End Mock.

(** The transfers found in a list of events: the calls of [save_stream],
    with the file written to and the result. *)
Fixpoint saves (evs : list Event) : list (Stream * string * ResultCode) :=
  match evs with
  | [] => []
  | SaveStream s f r :: rest => (s, f, r) :: saves rest
  | _ :: rest => saves rest
  end.

(** The commands handed to [Subprocess().execute]. *)
Fixpoint executes (evs : list Event) : list (list string) :=
  match evs with
  | [] => []
  | Execute args :: rest => args :: executes rest
  | _ :: rest => executes rest
  end.

(** The calls of [os.remove]. *)
Fixpoint removals (evs : list Event) : list string :=
  match evs with
  | [] => []
  | OsRemove f _ :: rest => f :: removals rest
  | _ :: rest => removals rest
  end.

(** The lines logged at level ERROR. *)
Fixpoint errors (evs : list Event) : list string :=
  match evs with
  | [] => []
  | Log ERROR msg :: rest => msg :: errors rest
  | _ :: rest => errors rest
  end.

(** The position of a backend in the list of enabled backends (its
    length when it is not there). *)
Fixpoint index_of (be : string) (bes : list string) : nat :=
  match bes with
  | [] => O
  | b :: bes' => if String.eqb b be then O else S (index_of be bes')
  end.

(** A flavor has a stream of an enabled backend. *)
Definition has_enabled_stream (filters : StreamFilters) (fl : StreamFlavor) : bool :=
  existsb (fun s => existsb (String.eqb (name s)) (enabled_backends filters))
          (streams fl).

(** The first steps of the closure [download]: the answer of the file
    name generator, with the world it leaves, after
    [warn_on_unsupported_feature]; and the events of the two calls. *)
Definition named {World : Type} (backends : Backends World) (os : Os World)
    (io : IOContext) (clip : Clip) (downloader : Stream) (w : World)
    : option string * World :=
  output_filename os (title clip)
    (file_extension backends downloader (preferred_format io)) io
    (warn_on_unsupported_feature backends downloader io w).

Definition naming_events {World : Type} (backends : Backends World)
    (io : IOContext) (clip : Clip) (downloader : Stream) : list Event :=
  [WarnUnsupported downloader;
   OutputName (title clip) (file_extension backends downloader (preferred_format io))].

(** [slicing_active] of [should_skip_downloading], as a truth value. *)
Definition slicing (io : IOContext) : bool :=
  truthyZ (start_position (download_limits io))
  || truthyZ (duration (download_limits io)).

(** The quality attributes of a flavor. *)
Definition attributes (fl : StreamFlavor)
    : string * option Z * option Z * option Z :=
  (media_type fl, height fl, width fl, bitrate fl).

(** * Properties *)

(** ** Facts about [sorted] *)

Section SortFacts.
Context {A : Type}.
Variable key : A -> Key.

Hypothesis key_le_trans : forall a b c, key_le key a b -> key_le key b c -> key_le key a c.
Hypothesis key_lt_le : forall a b, key_lt (key a) (key b) = true -> key_le key a b.

Lemma key_le_refl : forall a, key_le key a a.
Proof.
  intros a. unfold key_le.
  destruct (key_lt (key a) (key a)) eqn:E; [|reflexivity].
  pose proof (key_lt_le _ _ E) as E'. unfold key_le in E'. congruence.
Qed.

Lemma insert_stable_perm : forall x l, Permutation (insert_stable key x l) (x :: l).
Proof.
  intros x l. induction l as [|y l IH]; simpl.
  - apply Permutation_refl.
  - destruct (key_lt (key y) (key x)).
    + rewrite IH. apply perm_swap.
    + apply Permutation_refl.
Qed.

Lemma sort_stable_perm : forall l, Permutation (sort_stable key l) l.
Proof.
  induction l as [|x l IH]; simpl.
  - constructor.
  - rewrite insert_stable_perm. now constructor.
Qed.

Lemma sorted_perm : forall l r, Permutation (sorted key l r) l.
Proof.
  intros l [|]; unfold sorted.
  - rewrite <- Permutation_rev, sort_stable_perm. symmetry. apply Permutation_rev.
  - apply sort_stable_perm.
Qed.

Lemma insert_stable_sorted : forall x l,
  StronglySorted (key_le key) l -> StronglySorted (key_le key) (insert_stable key x l).
Proof.
  intros x l Hs. induction Hs as [|y l Hs IH Hy]; simpl.
  - repeat constructor.
  - destruct (key_lt (key y) (key x)) eqn:E.
    + constructor; [exact IH|].
      rewrite Forall_forall in *. intros z Hz.
      apply (Permutation_in _ (insert_stable_perm x l)) in Hz.
      destruct Hz as [<-|Hz]; [now apply key_lt_le | now apply Hy].
    + constructor; [now constructor|].
      constructor; [exact E|].
      rewrite Forall_forall in *. intros z Hz.
      apply key_le_trans with y; [exact E | now apply Hy].
Qed.

Lemma sort_stable_sorted : forall l, StronglySorted (key_le key) (sort_stable key l).
Proof.
  induction l as [|x l IH]; simpl.
  - constructor.
  - now apply insert_stable_sorted.
Qed.

(** The first element of a sorted list has the least key. *)
Lemma sorted_head_least : forall h t x,
  StronglySorted (key_le key) (h :: t) -> In x (h :: t) -> key_le key h x.
Proof.
  intros h t x Hs [<-|Hx].
  - apply key_le_refl.
  - inversion Hs as [|? ? _ Hall]; subst.
    rewrite Forall_forall in Hall. now apply Hall.
Qed.

(** The last element of a sorted list has the greatest key. *)
Lemma sorted_last_greatest : forall l m x,
  StronglySorted (key_le key) l -> last_item l = Some m -> In x l -> key_le key x m.
Proof.
  intros l m x Hs. revert m x.
  induction Hs as [|y l Hs IH Hy]; intros m x Hl Hx; [discriminate|].
  destruct l as [|z l'].
  - simpl in Hl. injection Hl as <-. destruct Hx as [<-|[]]. apply key_le_refl.
  - change (last_item (y :: z :: l')) with (last_item (z :: l')) in Hl.
    destruct Hx as [<-|Hx]; [|now apply IH].
    rewrite Forall_forall in Hy. apply Hy.
    clear - Hl. revert z Hl. induction l' as [|u l' IHl]; intros z Hl.
    + simpl in Hl. injection Hl as <-. now left.
    + right. apply IHl. exact Hl.
Qed.
End SortFacts.

Lemma last_item_In {A : Type} : forall (l : list A) m, last_item l = Some m -> In m l.
Proof.
  induction l as [|x l IH]; intros m H; [discriminate|].
  destruct l as [|y l'].
  - simpl in H. injection H as <-. now left.
  - right. apply IH. exact H.
Qed.

Lemma last_item_app {A : Type} : forall (l : list A) x, last_item (l ++ [x]) = Some x.
Proof.
  induction l as [|y l IH]; intros x; [reflexivity|].
  simpl. rewrite IH. destruct (l ++ [x]) eqn:E; [|reflexivity].
  now destruct l.
Qed.

Lemma last_item_rev {A : Type} : forall (l : list A), last_item (rev l) = hd_error l.
Proof.
  destruct l as [|x l]; [reflexivity|]. simpl. apply last_item_app.
Qed.

Lemma last_item_nonempty {A : Type} : forall (l : list A),
  l <> [] -> exists m, last_item l = Some m.
Proof.
  induction l as [|x l IH]; intros H; [congruence|].
  destruct l as [|y l']; [now exists x|].
  destruct IH as [m Hm]; [discriminate|]. now exists m.
Qed.

Lemma nonempty_true {A : Type} : forall (l : list A), nonempty l = true <-> l <> [].
Proof.
  destruct l; simpl; split; intros H; try discriminate; try reflexivity.
  now elim H.
Qed.

Lemma nonempty_false {A : Type} : forall (l : list A), nonempty l = false <-> l = [].
Proof. destruct l; simpl; split; congruence. Qed.

Lemma perm_nonempty {A : Type} : forall (l l' : list A),
  Permutation l l' -> l' <> [] -> l <> [].
Proof.
  intros l l' HP Hne ->. apply Permutation_nil in HP. contradiction.
Qed.

Section PickFacts.
Context {A : Type}.
Variable key : A -> Key.
Hypothesis key_le_trans :
  forall a b c, key_le key a b -> key_le key b c -> key_le key a c.
Hypothesis key_lt_le : forall a b, key_lt (key a) (key b) = true -> key_le key a b.

(** [sorted(l, key)[-1]] is an element of [l] with the greatest key. *)
Lemma pick_ascending : forall l, l <> [] ->
  exists sel, last_item (sorted key l false) = Some sel /\ In sel l /\
              forall x, In x l -> key_le key x sel.
Proof.
  intros l Hne. unfold sorted.
  pose proof (sort_stable_perm key l) as HP.
  destruct (last_item_nonempty (sort_stable key l)) as [sel Hsel].
  { eapply perm_nonempty; [exact HP | exact Hne]. }
  exists sel. split; [exact Hsel|]. split.
  - eapply Permutation_in; [exact HP|]. now apply last_item_In.
  - intros x Hx.
    apply sorted_last_greatest with (l := sort_stable key l); auto.
    + apply sort_stable_sorted; auto.
    + eapply Permutation_in; [symmetry; exact HP | exact Hx].
Qed.

(** [sorted(l, key, reverse=True)[-1]] is an element of [l] with the
    least key. *)
Lemma pick_descending : forall l, l <> [] ->
  exists sel, last_item (sorted key l true) = Some sel /\ In sel l /\
              forall x, In x l -> key_le key sel x.
Proof.
  intros l Hne. unfold sorted. rewrite last_item_rev.
  assert (HP : Permutation (sort_stable key (rev l)) l).
  { rewrite sort_stable_perm. symmetry. apply Permutation_rev. }
  pose proof (sort_stable_sorted key key_le_trans key_lt_le (rev l)) as Hs.
  destruct (sort_stable key (rev l)) as [|h t] eqn:E.
  - exfalso. apply Hne. apply Permutation_nil. now symmetry.
  - exists h. split; [reflexivity|]. split.
    + eapply Permutation_in; [exact HP|]. now left.
    + intros x Hx. apply sorted_head_least with (t := t); auto.
      eapply Permutation_in; [symmetry; exact HP | exact Hx].
Qed.
End PickFacts.

(** ** Facts about the flavor filter *)

Module FlavorFilterFacts.
Import FlavorFilter.

Lemma max_bitrate_trans : forall a b c,
key_le sort_max_bitrate a b -> key_le sort_max_bitrate b c ->
key_le sort_max_bitrate a c.
Proof. unfold key_le, sort_max_bitrate; simpl; intros; lia. Qed.

Lemma max_bitrate_lt_le : forall a b,
key_lt (sort_max_bitrate a) (sort_max_bitrate b) = true ->
key_le sort_max_bitrate a b.
Proof. unfold key_le, sort_max_bitrate; simpl; intros; lia. Qed.

Lemma min_bitrate_trans : forall a b c,
key_le sort_max_resolution_min_bitrate a b ->
key_le sort_max_resolution_min_bitrate b c ->
key_le sort_max_resolution_min_bitrate a c.
Proof. unfold key_le, sort_max_resolution_min_bitrate; simpl; intros; lia. Qed.

Lemma min_bitrate_lt_le : forall a b,
key_lt (sort_max_resolution_min_bitrate a) (sort_max_resolution_min_bitrate b) = true ->
key_le sort_max_resolution_min_bitrate a b.
Proof. unfold key_le, sort_max_resolution_min_bitrate; simpl; intros; lia. Qed.

Lemma max_both_trans : forall a b c,
key_le sort_max_resolution_max_bitrate a b ->
key_le sort_max_resolution_max_bitrate b c ->
key_le sort_max_resolution_max_bitrate a c.
Proof. unfold key_le, sort_max_resolution_max_bitrate; simpl; intros; lia. Qed.

Lemma max_both_lt_le : forall a b,
key_lt (sort_max_resolution_max_bitrate a) (sort_max_resolution_max_bitrate b) = true ->
key_le sort_max_resolution_max_bitrate a b.
Proof. unfold key_le, sort_max_resolution_max_bitrate; simpl; intros; lia. Qed.

(** What the orders say about heights and bitrates. *)
Lemma min_bitrate_le_height : forall a b,
key_le sort_max_resolution_min_bitrate a b -> or0 (height a) <= or0 (height b).
Proof. unfold key_le, sort_max_resolution_min_bitrate; simpl; intros; lia. Qed.

Lemma max_bitrate_le_bitrate : forall a b,
key_le sort_max_bitrate a b -> or0 (bitrate a) <= or0 (bitrate b).
Proof. unfold key_le, sort_max_bitrate; simpl; intros; lia. Qed.

Section WithFailedFlavor.
Variable FailedFlavor : option string -> StreamFlavor.
Variable set_iter : list string -> list string.

Abbreviation select_flavor := (select_flavor FailedFlavor set_iter).
Abbreviation apply_backend_filter := (apply_backend_filter FailedFlavor set_iter).

Lemma enabled_flavors_source : forall flavors filters,
  enabled_flavors flavors filters <> [] -> flavors <> [].
Proof. intros flavors filters H ->. now apply H. Qed.

Lemma apply_backend_filter_enabled : forall flavors filters,
  enabled_flavors flavors filters <> [] ->
  apply_backend_filter flavors filters = enabled_flavors flavors filters.
Proof.
  intros flavors filters H. unfold FlavorFilter.apply_backend_filter.
  pose proof (enabled_flavors_source _ _ H) as Hf.
  apply nonempty_true in Hf. rewrite Hf. simpl.
  fold (enabled_flavors flavors filters).
  apply nonempty_true in H. now rewrite H.
Qed.

Lemma apply_backend_filter_failed : forall flavors filters,
  flavors <> [] -> enabled_flavors flavors filters = [] ->
  apply_backend_filter flavors filters =
    [backend_not_enabled_flavor FailedFlavor set_iter flavors].
Proof.
  intros flavors filters Hf H. unfold FlavorFilter.apply_backend_filter.
  apply nonempty_true in Hf. rewrite Hf. simpl.
  fold (enabled_flavors flavors filters). now rewrite H.
Qed.

Lemma select_flavor_last : forall flavors filters,
  flavors <> [] ->
  select_flavor flavors filters =
    last_item (apply_resolution_filters (apply_backend_filter flavors filters) filters).
Proof.
  intros flavors filters Hf. unfold FlavorFilter.select_flavor.
  apply nonempty_true in Hf. rewrite Hf. simpl.
  now destruct (apply_resolution_filters _ _).
Qed.

(** The resolution filter sorts either the flavors within the limits or,
    when there is none, all of them. *)
Lemma apply_resolution_filters_perm : forall flavors filters,
  Permutation (apply_resolution_filters flavors filters)
    (if nonempty (filter (within_limits filters) flavors)
     then filter (within_limits filters) flavors else flavors).
Proof.
  intros flavors filters. unfold apply_resolution_filters.
  destruct (nonempty (filter (within_limits filters) flavors));
    apply sorted_perm.
Qed.

Lemma apply_resolution_filters_nonempty : forall flavors filters,
  flavors <> [] -> apply_resolution_filters flavors filters <> [].
Proof.
  intros flavors filters Hne.
  eapply perm_nonempty; [apply apply_resolution_filters_perm|].
  destruct (nonempty (filter (within_limits filters) flavors)) eqn:E; [|exact Hne].
  now apply nonempty_true.
Qed.

Lemma within_limits_height : forall filters fl H,
  maxheight filters = Some H -> maxbitrate filters = None ->
  within_limits filters fl = (or0 (height fl) <=? H).
Proof. intros filters fl H Hh Hb. unfold within_limits. now rewrite Hh, Hb. Qed.

End WithFailedFlavor.
End FlavorFilterFacts.

(** ** Selection under a height ceiling, and by default *)

Section Selection.
Import FlavorFilter FlavorFilterFacts.
Variable FailedFlavor : option string -> StreamFlavor.
Variable set_iter : list string -> list string.

Abbreviation select_flavor := (select_flavor FailedFlavor set_iter).

Lemma select_flavor_enabled : forall flavors filters,
  enabled_flavors flavors filters <> [] ->
  select_flavor flavors filters =
    last_item (apply_resolution_filters (enabled_flavors flavors filters) filters).
Proof.
  intros flavors filters H.
  rewrite select_flavor_last by (eapply enabled_flavors_source; eauto).
  now rewrite apply_backend_filter_enabled.
Qed.

(** C1.  With [maxheight = H] and no [maxbitrate], and at least one flavor
    left by the backend filter: a flavor is selected, it is one of the
    backend-enabled flavors, its height (absent counted as 0) is at most
    [H] as soon as some backend-enabled flavor has height at most [H],
    and when all of them exceed [H] it has the smallest height of all. *)
Theorem maxheight_closest_fit : forall flavors filters H,
  maxheight filters = Some H ->
  maxbitrate filters = None ->
  enabled_flavors flavors filters <> [] ->
  exists sel,
    select_flavor flavors filters = Some sel /\
    In sel (enabled_flavors flavors filters) /\
    ((exists fl, In fl (enabled_flavors flavors filters) /\ or0 (height fl) <= H) ->
     or0 (height sel) <= H) /\
    ((forall fl, In fl (enabled_flavors flavors filters) -> or0 (height fl) > H) ->
     or0 (height sel) > H /\
     forall fl, In fl (enabled_flavors flavors filters) ->
                or0 (height sel) <= or0 (height fl)).
Proof.
  intros flavors filters H Hh Hb Hne.
  rewrite select_flavor_enabled by exact Hne.
  set (en := enabled_flavors flavors filters) in *.
  unfold apply_resolution_filters. rewrite Hh, Hb. simpl.
  destruct (nonempty (filter (within_limits filters) en)) eqn:E.
  - apply nonempty_true in E.
    destruct (pick_ascending _ min_bitrate_trans min_bitrate_lt_le _ E)
      as (sel & Hsel & Hin & _).
    apply filter_In in Hin. destruct Hin as [Hin Hw].
    rewrite (within_limits_height _ _ _ Hh Hb) in Hw.
    exists sel. split; [exact Hsel|]. split; [exact Hin|]. split.
    + intros _. lia.
    + intros Hall. specialize (Hall sel Hin). lia.
  - apply nonempty_false in E.
    destruct (pick_descending _ min_bitrate_trans min_bitrate_lt_le _ Hne)
      as (sel & Hsel & Hin & Hleast).
    exists sel. split; [exact Hsel|]. split; [exact Hin|]. split.
    + intros (fl & Hfl & Hle). exfalso.
      assert (Hf : In fl (filter (within_limits filters) en)).
      { apply filter_In. split; [exact Hfl|].
        rewrite (within_limits_height _ _ _ Hh Hb). lia. }
      rewrite E in Hf. exact Hf.
    + intros Hall. split; [exact (Hall sel Hin)|].
      intros fl Hfl. apply min_bitrate_le_height. now apply Hleast.
Qed.

(** C9.  With neither [maxheight] nor [maxbitrate], and at least one
    flavor left by the backend filter: the selected flavor is one of the
    backend-enabled flavors and no backend-enabled flavor has a higher
    bitrate (absent counted as 0). *)
Theorem unconstrained_highest_bitrate : forall flavors filters,
  maxheight filters = None ->
  maxbitrate filters = None ->
  enabled_flavors flavors filters <> [] ->
  exists sel,
    select_flavor flavors filters = Some sel /\
    In sel (enabled_flavors flavors filters) /\
    forall fl, In fl (enabled_flavors flavors filters) ->
               or0 (bitrate fl) <= or0 (bitrate sel).
Proof.
  intros flavors filters Hh Hb Hne.
  rewrite select_flavor_enabled by exact Hne.
  set (en := enabled_flavors flavors filters) in *.
  unfold apply_resolution_filters. rewrite Hh, Hb. simpl.
  assert (Hall : filter (within_limits filters) en = en).
  { apply forallb_filter_id. apply forallb_forall. intros x _.
    unfold within_limits. now rewrite Hh, Hb. }
  rewrite Hall.
  assert (E : nonempty en = true) by now apply nonempty_true.
  rewrite E.
  destruct (pick_ascending _ max_bitrate_trans max_bitrate_lt_le _ Hne)
    as (sel & Hsel & Hin & Hmax).
  exists sel. split; [exact Hsel|]. split; [exact Hin|].
  intros fl Hfl. apply max_bitrate_le_bitrate. now apply Hmax.
Qed.

(** C6.  The resolution filter never empties a non-empty list: its result
    is a rearrangement of the flavors within both ceilings or, when there
    is none, of the whole list; so whenever the backend filter leaves a
    flavor, [select_flavor] returns one of the backend-enabled flavors. *)
Theorem resolution_filter_falls_back : forall flavors filters,
  enabled_flavors flavors filters <> [] ->
  let en := enabled_flavors flavors filters in
  apply_resolution_filters en filters <> [] /\
  (filter (within_limits filters) en = [] ->
   Permutation (apply_resolution_filters en filters) en) /\
  (filter (within_limits filters) en <> [] ->
   Permutation (apply_resolution_filters en filters)
               (filter (within_limits filters) en)) /\
  exists sel, select_flavor flavors filters = Some sel /\ In sel en.
Proof.
  intros flavors filters Hne en.
  pose proof (apply_resolution_filters_perm en filters) as HP.
  pose proof (apply_resolution_filters_nonempty en filters Hne) as Hres.
  split; [exact Hres|]. split; [|split].
  - intros E. now rewrite E in HP.
  - intros E. apply nonempty_true in E. now rewrite E in HP.
  - rewrite select_flavor_enabled by exact Hne. fold en.
    destruct (last_item_nonempty _ Hres) as [sel Hsel].
    exists sel. split; [exact Hsel|].
    apply last_item_In in Hsel.
    apply (Permutation_in _ HP) in Hsel.
    destruct (nonempty (filter (within_limits filters) en)); [|exact Hsel].
    apply filter_In in Hsel. tauto.
Qed.
End Selection.

(** ** The exact-resolution test case *)

Section StrictMax.
Context {A : Type}.
Variable key : A -> Key.
Hypothesis key_le_trans :
  forall a b c, key_le key a b -> key_le key b c -> key_le key a c.
Hypothesis key_lt_le : forall a b, key_lt (key a) (key b) = true -> key_le key a b.

(** An element whose key is strictly above all others ends up last,
    wherever it stood. *)
Lemma pick_strict_max : forall l sel,
  In sel l ->
  (forall x, In x l -> x = sel \/ key_lt (key x) (key sel) = true) ->
  last_item (sorted key l false) = Some sel.
Proof.
  intros l sel Hin Hmax.
  assert (Hne : l <> []) by (intros ->; exact Hin).
  destruct (pick_ascending key key_le_trans key_lt_le l Hne)
    as (sel' & Hsel' & Hin' & Hgreatest).
  rewrite Hsel'. f_equal.
  destruct (Hmax sel' Hin') as [E|E]; [exact E|].
  specialize (Hgreatest sel Hin). unfold key_le in Hgreatest. congruence.
Qed.
End StrictMax.

Section ExactResolution.
Import FlavorFilter FlavorFilterFacts.
Variable FailedFlavor : option string -> StreamFlavor.
Variable set_iter : list string -> list string.

Lemma enabled_flavors_all : forall filters l,
  (forall fl, In fl l ->
     filter_streams_by_backend filters fl = fl /\ nonempty (streams fl) = true) ->
  enabled_flavors l filters = l.
Proof.
  intros filters l H. unfold enabled_flavors.
  assert (E : map (filter_streams_by_backend filters) l = l).
  { rewrite <- (map_id l) at 2. apply map_ext_in. intros fl Hfl. now apply H. }
  rewrite E. apply forallb_filter_id. apply forallb_forall.
  intros fl Hfl. now apply H.
Qed.

(** C2.  For the four flavors of the test clip (heights 360, 720, 720,
    1080 with bitrates 880, 1412, 1872, 2808), in any order, and
    [maxheight=720] with no [maxbitrate], the selected flavor is the 720p
    flavor with bitrate 1412, not the one with bitrate 1872. *)
Theorem exact_resolution_prefers_lower_bitrate : forall flavors,
  Permutation flavors successful_clip_flavors ->
  FlavorFilter.select_flavor FailedFlavor set_iter flavors filters_maxheight_720
    = Some medium_quality /\
  bitrate medium_quality = Some 1412 /\
  height medium_quality = Some 720 /\
  medium_quality <> medium_quality_high_bitrate.
Proof.
  intros flavors HP.
  assert (Hmem : forall x, In x flavors ->
            x = high_quality \/ x = low_quality \/ x = medium_quality \/
            x = medium_quality_high_bitrate).
  { intros x Hx. apply (Permutation_in _ HP) in Hx. simpl in Hx.
    intuition auto. }
  assert (Hmed : In medium_quality flavors).
  { apply (Permutation_in _ (Permutation_sym HP)). simpl. auto. }
  assert (Hen : enabled_flavors flavors filters_maxheight_720 = flavors).
  { apply enabled_flavors_all. intros fl Hfl.
    destruct (Hmem fl Hfl) as [->|[->|[->| ->]]]; split; reflexivity. }
  split; [|split; [reflexivity | split; [reflexivity | discriminate]]].
  assert (Hne : enabled_flavors flavors filters_maxheight_720 <> []).
  { rewrite Hen. intros E. rewrite E in Hmed. exact Hmed. }
  rewrite select_flavor_enabled by exact Hne. rewrite Hen.
  unfold apply_resolution_filters.
  assert (Hf : In medium_quality (filter (within_limits filters_maxheight_720) flavors)).
  { apply filter_In. split; [exact Hmed | reflexivity]. }
  destruct (nonempty (filter (within_limits filters_maxheight_720) flavors)) eqn:E.
  2:{ apply nonempty_false in E. rewrite E in Hf. destruct Hf. }
  simpl.
  apply (pick_strict_max _ min_bitrate_trans min_bitrate_lt_le); [exact Hf|].
  intros x Hx. apply filter_In in Hx. destruct Hx as [Hx Hw].
  destruct (Hmem x Hx) as [->|[->|[->| ->]]];
    first [ discriminate Hw | now left | now right ].
Qed.
End ExactResolution.

(** ** The diagnostic when no backend is enabled *)

Section BackendNotEnabled.
Import FlavorFilter FlavorFilterFacts.
Variable FailedFlavor : option string -> StreamFlavor.
Variable set_iter : list string -> list string.

Lemma flat_map_map_filter {B : Type} : forall (f : Stream -> B) p flavors,
  flat_map (fun fl => map f (filter p (streams fl))) flavors =
  map f (filter p (all_streams flavors)).
Proof.
  intros f p flavors. unfold all_streams.
  induction flavors as [|fl l IH]; [reflexivity|].
  simpl. rewrite IH, filter_app, map_app. reflexivity.
Qed.

Lemma supported_backend_names_spec : forall flavors n,
  In n (supported_backend_names flavors) <->
  exists s, In s (all_streams flavors) /\ is_valid s = true /\ name s = n.
Proof.
  intros flavors n. unfold supported_backend_names.
  rewrite flat_map_map_filter, in_map_iff. split.
  - intros (s & Hn & Hs). apply filter_In in Hs. exists s. tauto.
  - intros (s & Hs & Hv & Hn). exists s. split; [exact Hn|].
    apply filter_In. tauto.
Qed.

Lemma first_error_message : forall (d : option string) l,
  match map error_message (filter (fun s => negb (is_valid s)) l) with
  | m :: _ => m
  | [] => d
  end =
  match find (fun s => negb (is_valid s)) l with
  | Some s => error_message s
  | None => d
  end.
Proof.
  intros d l. induction l as [|s l IH]; [reflexivity|].
  simpl. destruct (negb (is_valid s)); [reflexivity | exact IH].
Qed.

Lemma no_enabled_streams : forall filters fl,
  (forall s, In s (streams fl) -> ~ In (name s) (enabled_backends filters)) ->
  streams (filter_streams_by_backend filters fl) = [].
Proof.
  intros filters fl H. unfold filter_streams_by_backend. simpl.
  induction (enabled_backends filters) as [|be bes IH]; [reflexivity|].
  simpl. rewrite IH.
  - rewrite app_nil_r.
    destruct (filter (fun d => String.eqb (name d) be) (streams fl)) as [|s ss] eqn:E;
      [reflexivity|].
    assert (Hs : In s (filter (fun d => String.eqb (name d) be) (streams fl)))
      by (rewrite E; now left).
    apply filter_In in Hs. destruct Hs as [Hs Hn].
    apply String.eqb_eq in Hn. exfalso. apply (H s Hs). now left.
  - intros s Hs Hin. apply (H s Hs). now right.
Qed.

Lemma all_dropped : forall flavors filters,
  (forall fl s, In fl flavors -> In s (streams fl) ->
                ~ In (name s) (enabled_backends filters)) ->
  enabled_flavors flavors filters = [].
Proof.
  intros flavors filters H. unfold enabled_flavors.
  induction flavors as [|fl l IH]; [reflexivity|].
  rewrite map_cons. cbn [filter].
  rewrite no_enabled_streams.
  - simpl. apply IH. intros fl' s Hfl. apply H. now right.
  - intros s. apply H. now left.
Qed.

Lemma select_single : forall x filters,
  last_item (apply_resolution_filters [x] filters) = Some x.
Proof.
  intros x filters. unfold apply_resolution_filters. simpl.
  destruct (within_limits filters x); simpl.
  - reflexivity.
  - destruct (is_not_None (maxheight filters) || is_not_None (maxbitrate filters));
      reflexivity.
Qed.

(** C5.  An empty flavor list gives an empty result.  For a non-empty
    list none of whose stream handles belongs to an enabled backend, the
    backend filter returns exactly one failure flavor, which is also what
    [select_flavor] returns, and its message is: with a valid handle
    around, 'Required backend not enabled. Try: --backend ' followed by
    the comma-separated backend names of the valid handles, each once;
    without valid handles, the error message of the first invalid handle;
    without any handle, 'Stream not found'. *)
Theorem backend_not_enabled_diagnostic : forall filters,
  set_iteration set_iter ->
  (apply_backend_filter FailedFlavor set_iter [] filters = [] /\
   FlavorFilter.select_flavor FailedFlavor set_iter [] filters = None) /\
  forall flavors,
    flavors <> [] ->
    (forall fl s, In fl flavors -> In s (streams fl) ->
                  ~ In (name s) (enabled_backends filters)) ->
    exists msg,
      apply_backend_filter FailedFlavor set_iter flavors filters = [FailedFlavor msg] /\
      FlavorFilter.select_flavor FailedFlavor set_iter flavors filters
        = Some (FailedFlavor msg) /\
      ((exists s, In s (all_streams flavors) /\ is_valid s = true) ->
       exists names,
         msg = Some ("Required backend not enabled. Try: --backend "
                       ++ String.concat "," names)%string /\
         NoDup names /\
         forall n, In n names <->
                   exists s, In s (all_streams flavors) /\
                             is_valid s = true /\ name s = n) /\
      ((forall s, In s (all_streams flavors) -> is_valid s = false) ->
       (forall s, find (fun s => negb (is_valid s)) (all_streams flavors) = Some s ->
                  msg = error_message s) /\
       (all_streams flavors = [] -> msg = Some "Stream not found")).
Proof.
  intros filters Hset. split; [split; reflexivity|].
  intros flavors Hne Hdrop.
  pose proof (all_dropped _ _ Hdrop) as Hen.
  rewrite select_flavor_last by exact Hne.
  rewrite (apply_backend_filter_failed _ _ _ _ Hne Hen).
  rewrite select_single.
  unfold backend_not_enabled_flavor.
  eexists. split; [reflexivity|]. split; [reflexivity|]. split.
  - intros (s & Hs & Hv).
    assert (Hin : In (name s) (supported_backend_names flavors)).
    { apply supported_backend_names_spec. exists s. auto. }
    destruct (supported_backend_names flavors) as [|n0 ns] eqn:E; [destruct Hin|].
    simpl nonempty. cbv iota.
    exists (set_iter (n0 :: ns)). split; [reflexivity|].
    destruct (Hset (n0 :: ns)) as [Hnd Hmem]. split; [exact Hnd|].
    intros n. rewrite Hmem, <- E. apply supported_backend_names_spec.
  - intros Hinv.
    assert (E : supported_backend_names flavors = []).
    { destruct (supported_backend_names flavors) as [|n0 ns] eqn:E; [reflexivity|].
      assert (Hin : In n0 (supported_backend_names flavors)) by (rewrite E; now left).
      apply supported_backend_names_spec in Hin.
      destruct Hin as (s & Hs & Hv & _). rewrite (Hinv s Hs) in Hv. discriminate. }
    rewrite E. simpl nonempty. cbv iota.
    unfold error_messages. rewrite flat_map_map_filter, first_error_message.
    split.
    + intros s Hfind. now rewrite Hfind.
    + intros Hnil. now rewrite Hnil.
Qed.
End BackendNotEnabled.

(** ** Running computations *)

Section RunFacts.
Context {World : Type}.
Abbreviation M := (@Run.M World).

Lemma bind_run {A B : Type} : forall (m : M A) (f : A -> M B) w,
  bind m f w =
    (result (f (result (m w)) (world_after (m w))),
     world_after (f (result (m w)) (world_after (m w))),
     events (m w) ++ events (f (result (m w)) (world_after (m w)))).
Proof.
  intros m f w. unfold bind, result, world_after, events.
  destruct (m w) as [[a w1] e1]. simpl.
  destruct (f a w1) as [[b w2] e2]. reflexivity.
Qed.

Lemma run_eta {A : Type} : forall (r : A * World * list Event),
  r = (result r, world_after r, events r).
Proof. now intros [[a w] e]. Qed.

Lemma attempts_app : forall e1 e2, attempts (e1 ++ e2) = attempts e1 ++ attempts e2.
Proof.
  induction e1 as [|e e1 IH]; intros e2; [reflexivity|].
  destruct e; simpl; rewrite IH; reflexivity.
Qed.

Lemma extractions_app : forall e1 e2,
  extractions (e1 ++ e2) = extractions e1 ++ extractions e2.
Proof.
  induction e1 as [|e e1 IH]; intros e2; [reflexivity|].
  destruct e; simpl; rewrite IH; reflexivity.
Qed.
End RunFacts.

Ltac run_simpl :=
  cbn [query call log emit ret result world_after events fst snd app].

(** Unfold the outermost sequencing of a computation applied to a world. *)
Ltac run_bind :=
  match goal with
  | |- context [@bind ?W ?A ?B ?m ?f ?w] => rewrite (@bind_run W A B m f w)
  end.

(** ** Facts about the retry loop *)

Section RetryFacts.
Import Downloader.
Context {World : Type}.
Variable os : Os World.
Variable streamfunc : @StreamFunc World.
Variable clip : Clip.
Variable needs_retry : ResultCode -> bool.

Abbreviation loop := (try_all_streams_loop os streamfunc clip needs_retry).

Lemma cleanup_run : forall o w,
  cleanup_events o (events (cleanup os o w)) /\
  attempts (events (cleanup os o w)) = [] /\
  extractions (events (cleanup os o w)) = [].
Proof.
  intros o w. unfold cleanup.
  destruct (truthy o) eqn:T.
  2:{ simpl. split; [now constructor | split; reflexivity]. }
  destruct o as [f|]; [|discriminate].
  unfold remove_retry_file. simpl in T. rewrite T.
  cbv iota. run_bind. run_simpl.
  destruct (path_isfile os f w).
  - run_bind. run_simpl.
    destruct (remove os f w); simpl;
      (split; [constructor; exact T | split; reflexivity]).
  - simpl. split; [constructor; exact T | split; reflexivity].
Qed.

(** One iteration on a valid candidate. *)
Lemma loop_valid : forall latest out stream rest w,
  is_valid stream = true ->
  loop latest out (stream :: rest) w =
    let c := cleanup os out w in
    let a := streamfunc clip stream (world_after c) in
    let k := (if needs_retry (fst (result a))
              then loop (fst (result a)) (snd (result a)) rest
              else ret (fst (result a))) (world_after a) in
    (result k, world_after k,
     events c ++ Log DEBUG ("Now trying downloader " ++ name stream)%string
               :: Attempt stream (events a) (fst (result a)) (snd (result a))
               :: events k).
Proof.
  intros latest out stream rest w Hv.
  cbn [try_all_streams_loop]. rewrite Hv.
  run_bind. fold (cleanup os out). cbv zeta.
  set (c := cleanup os out w).
  run_bind. run_simpl. run_bind. unfold attempt.
  destruct (streamfunc clip stream (world_after c)) as [[[r o] w'] inner].
  run_simpl. reflexivity.
Qed.

(** An invalid candidate is passed over. *)
Lemma loop_invalid : forall latest out stream rest,
  is_valid stream = false ->
  loop latest out (stream :: rest) = loop latest out rest.
Proof. intros latest out stream rest Hv. simpl. now rewrite Hv. Qed.

Lemma loop_filter_valid : forall candidates latest out w,
  loop latest out candidates w = loop latest out (filter is_valid candidates) w.
Proof.
  induction candidates as [|s rest IH]; intros latest out w; [reflexivity|].
  destruct (is_valid s) eqn:Hv.
  - cbn [filter]. rewrite Hv. rewrite !loop_valid by exact Hv. cbv zeta.
    destruct (needs_retry _); [|reflexivity].
    now rewrite IH.
  - rewrite loop_invalid by exact Hv. cbn [filter]. rewrite Hv. apply IH.
Qed.

(** The attempts made by the loop: a prefix of the valid candidates, all
    retryable but possibly the last, whose result is returned. *)
Lemma loop_attempts : forall candidates latest out w,
  let run := loop latest out candidates w in
  let atts := attempts (events run) in
  Forall (fun a => needs_retry (snd a) = true) (removelast atts) /\
  exists untried,
    filter is_valid candidates = map fst atts ++ untried /\
    match last_item atts with
    | None => untried = [] /\ result run = latest
    | Some (_, r) => result run = r /\ (needs_retry r = true -> untried = [])
    end.
Proof.
  induction candidates as [|s cs IH]; intros latest out w.
  - simpl. split; [constructor|]. exists []. auto.
  - destruct (is_valid s) eqn:Hv.
    2:{ rewrite loop_invalid by exact Hv. cbn [filter]. rewrite Hv. apply IH. }
    cbv zeta. rewrite loop_valid by exact Hv. cbv zeta.
    set (c := cleanup os out w).
    set (a := streamfunc clip s (world_after c)).
    cbn [events result snd fst].
    rewrite attempts_app.
    destruct (cleanup_run out w) as (_ & Hc & _). fold c in Hc. rewrite Hc.
    cbn [app attempts filter]. rewrite Hv.
    destruct (needs_retry (fst (result a))) eqn:R.
    + specialize (IH (fst (result a)) (snd (result a)) (world_after a)).
      cbv zeta in IH. destruct IH as (Hre & untried & Hf & Hlast).
      set (run' := loop (fst (result a)) (snd (result a)) cs (world_after a)) in *.
      destruct (attempts (events run')) as [|a' atts'] eqn:Ea.
      * simpl. split; [constructor|]. exists untried.
        simpl in Hf, Hlast. split; [now rewrite Hf | tauto].
      * split.
        { change (removelast ((s, fst (result a)) :: a' :: atts'))
            with ((s, fst (result a)) :: removelast (a' :: atts')).
          constructor; [exact R | exact Hre]. }
        exists untried. split; [simpl; now rewrite Hf|].
        change (last_item ((s, fst (result a)) :: a' :: atts'))
          with (last_item (a' :: atts')).
        destruct (last_item_nonempty (a' :: atts')) as [m Hm]; [discriminate|].
        rewrite Hm in *. exact Hlast.
    + simpl. split; [constructor|]. exists (filter is_valid cs).
      split; [reflexivity|]. split; [reflexivity|].
      intros R'. congruence.
Qed.

Lemma loop_extractions : forall candidates latest out w,
  extractions (events (loop latest out candidates w)) = [].
Proof.
  induction candidates as [|s cs IH]; intros latest out w; [reflexivity|].
  destruct (is_valid s) eqn:Hv.
  2:{ rewrite loop_invalid by exact Hv. apply IH. }
  rewrite loop_valid by exact Hv. cbv zeta. cbn [events snd].
  rewrite extractions_app.
  destruct (cleanup_run out w) as (_ & _ & Hc). rewrite Hc.
  cbn [app extractions].
  destruct (needs_retry _); [apply IH | reflexivity].
Qed.

(** Every attempt is preceded by the cleanup of what the attempt before
    it left, and by nothing else. *)
Lemma loop_retry_trace : forall candidates latest out w,
  retry_trace out (events (loop latest out candidates w)).
Proof.
  induction candidates as [|s cs IH]; intros latest out w.
  - simpl. constructor.
  - destruct (is_valid s) eqn:Hv.
    2:{ rewrite loop_invalid by exact Hv. apply IH. }
    rewrite loop_valid by exact Hv. cbv zeta. cbn [events snd].
    apply retry_attempt.
    + apply cleanup_run.
    + destruct (needs_retry _); [apply IH | constructor].
Qed.

(** Every attempt recorded is a call of the stream function, made in the
    world the cleanup before it leaves, and the loop ends in the world
    the last call leaves. *)
Lemma loop_chain : forall candidates latest out w,
  attempt_chain os streamfunc clip w out
    (events (loop latest out candidates w))
    (world_after (loop latest out candidates w)).
Proof.
  induction candidates as [|s cs IH]; intros latest out w.
  - apply chain_end.
  - destruct (is_valid s) eqn:Hv.
    2:{ rewrite loop_invalid by exact Hv. apply IH. }
    rewrite loop_valid by exact Hv. cbv zeta.
    cbn [events world_after fst snd].
    apply chain_attempt.
    destruct (needs_retry _); [apply IH | apply chain_end].
Qed.

(** The first iteration on a valid candidate, when there is nothing to
    clean up. *)
Lemma loop_first_valid : forall latest s rest w,
  is_valid s = true ->
  let a := streamfunc clip s w in
  (needs_retry (fst (result a)) = false ->
   loop latest None (s :: rest) w =
     (fst (result a), world_after a,
      [Log DEBUG ("Now trying downloader " ++ name s)%string;
       Attempt s (events a) (fst (result a)) (snd (result a))])) /\
  (needs_retry (fst (result a)) = true ->
   let later := loop (fst (result a)) (snd (result a)) rest (world_after a) in
   loop latest None (s :: rest) w =
     (result later, world_after later,
      Log DEBUG ("Now trying downloader " ++ name s)%string
        :: Attempt s (events a) (fst (result a)) (snd (result a))
        :: events later)).
Proof.
  intros latest s rest w Hv a.
  rewrite loop_valid by exact Hv. cbv zeta.
  change (cleanup os None w) with (tt, w, @nil Event).
  cbn [world_after events fst snd app]. fold a.
  split; intros R; rewrite R; reflexivity.
Qed.
End RetryFacts.

(** ** The retry orchestrator *)

Section RetryOrchestrator.
Import Downloader.
Context {World : Type}.
Variable os : Os World.
Variable streamfunc : @StreamFunc World.
Variable clip : Clip.
Variable needs_retry : ResultCode -> bool.

(** C4.  [try_all_streams] behaves as on the valid candidates alone, so
    only valid candidates are handed to the stream function; the
    candidates tried are the first valid ones, in order; every attempt
    before the last returned a retryable result; the call returns the
    result of the last attempt, or failed when there was none; and
    candidates are left untried only after a result that is not
    retryable.  Every attempt recorded is a call of the stream function
    on the clip and the candidate, made in the world the cleanup before it
    leaves, and is recorded with the result of that call.  Without a
    valid candidate nothing happens and the result is failed.  Otherwise
    the stream function is first called on the first valid candidate, in
    the world the call starts in: when the result of that call is not
    retryable it is returned at once and nothing else happens; when it is
    retryable the loop goes on with the later candidates, from the result
    and the artifact of that call. *)
Theorem try_all_streams_attempts : forall candidates w,
  let run := try_all_streams os streamfunc clip candidates needs_retry w in
  let atts := attempts (events run) in
  run = try_all_streams os streamfunc clip (filter is_valid candidates) needs_retry w /\
  Forall (fun a => is_valid (fst a) = true) atts /\
  Forall (fun a => needs_retry (snd a) = true) (removelast atts) /\
  (exists untried,
     filter is_valid candidates = map fst atts ++ untried /\
     match last_item atts with
     | None => untried = [] /\ result run = RD_FAILED
     | Some (_, r) => result run = r /\ (needs_retry r = true -> untried = [])
     end) /\
  attempt_chain os streamfunc clip w None (events run) (world_after run) /\
  (filter is_valid candidates = [] -> run = (RD_FAILED, w, [])) /\
  (forall s rest,
     filter is_valid candidates = s :: rest ->
     let a := streamfunc clip s w in
     (needs_retry (fst (result a)) = false ->
      run = (fst (result a), world_after a,
             [Log DEBUG ("Now trying downloader " ++ name s)%string;
              Attempt s (events a) (fst (result a)) (snd (result a))])) /\
     (needs_retry (fst (result a)) = true ->
      let later :=
        try_all_streams_loop os streamfunc clip needs_retry
          (fst (result a)) (snd (result a)) rest (world_after a) in
      run = (result later, world_after later,
             Log DEBUG ("Now trying downloader " ++ name s)%string
               :: Attempt s (events a) (fst (result a)) (snd (result a))
               :: events later))).
Proof.
  intros candidates w run atts.
  destruct (loop_attempts os streamfunc clip needs_retry candidates RD_FAILED None w)
    as (Hre & untried & Hf & Hlast).
  fold run atts in Hre, Hf, Hlast.
  assert (Hfilter : run = try_all_streams os streamfunc clip
                            (filter is_valid candidates) needs_retry w)
    by apply loop_filter_valid.
  split; [exact Hfilter|].
  split; [|split; [exact Hre|split;
             [exists untried; split; [exact Hf | exact Hlast]|]]].
  { apply Forall_forall. intros a Ha.
    assert (Hin : In (fst a) (filter is_valid candidates)).
    { rewrite Hf. apply in_or_app. left. now apply in_map. }
    apply filter_In in Hin. tauto. }
  split; [apply loop_chain|]. split.
  - intros E. rewrite Hfilter, E. reflexivity.
  - intros s rest E.
    assert (Hv : is_valid s = true).
    { assert (Hin : In s (filter is_valid candidates)) by (rewrite E; now left).
      apply filter_In in Hin. tauto. }
    rewrite Hfilter, E. unfold try_all_streams.
    exact (loop_first_valid os streamfunc clip needs_retry RD_FAILED s rest w Hv).
Qed.

(** C7.  In every run of [try_all_streams] each attempt is preceded by
    the cleanup of the artifact its predecessor left and by nothing else,
    and the run is empty or starts with the first attempt.  The cleanup
    of an existing file calls [os.remove] on it; when that fails, a
    warning is logged and the world is left as it was.  With three valid
    candidates of which the first two return a retryable result and the
    third returns success, the stream function is called three times,
    the artifacts of the first two attempts are cleaned up after them,
    nothing happens after the third attempt, and the result is success. *)
Theorem cleanup_between_attempts :
  (forall candidates w,
     let evs := events (try_all_streams os streamfunc clip candidates needs_retry w) in
     retry_trace None evs /\
     (evs = [] \/
      exists s inner r o rest,
        evs = Log DEBUG ("Now trying downloader " ++ name s)%string
                :: Attempt s inner r o :: rest)) /\
  (forall f w,
     f <> ""%string -> path_isfile os f w = true ->
     match remove os f w with
     | Some w' =>
         cleanup os (Some f) w =
           (tt, w', [IsFile f true;
                     Log DEBUG "Removing the partially downloaded file";
                     OsRemove f true])
     | None =>
         cleanup os (Some f) w =
           (tt, w, [IsFile f true;
                    Log DEBUG "Removing the partially downloaded file";
                    OsRemove f false;
                    Log WARNING "Failed to remove a partial output file"])
     end) /\
  (forall s1 s2 s3 w0,
     is_valid s1 = true -> is_valid s2 = true -> is_valid s3 = true ->
     let a1 := streamfunc clip s1 w0 in
     let c1 := cleanup os (snd (result a1)) (world_after a1) in
     let a2 := streamfunc clip s2 (world_after c1) in
     let c2 := cleanup os (snd (result a2)) (world_after a2) in
     let a3 := streamfunc clip s3 (world_after c2) in
     needs_retry (fst (result a1)) = true ->
     needs_retry (fst (result a2)) = true ->
     fst (result a3) = RD_SUCCESS ->
     let run := try_all_streams os streamfunc clip [s1; s2; s3] needs_retry w0 in
     result run = RD_SUCCESS /\
     world_after run = world_after a3 /\
     events run =
       [Log DEBUG ("Now trying downloader " ++ name s1)%string;
        Attempt s1 (events a1) (fst (result a1)) (snd (result a1))]
       ++ events c1 ++
       [Log DEBUG ("Now trying downloader " ++ name s2)%string;
        Attempt s2 (events a2) (fst (result a2)) (snd (result a2))]
       ++ events c2 ++
       [Log DEBUG ("Now trying downloader " ++ name s3)%string;
        Attempt s3 (events a3) RD_SUCCESS (snd (result a3))] /\
     attempts (events run) =
       [(s1, fst (result a1)); (s2, fst (result a2)); (s3, RD_SUCCESS)]).
Proof.
  split; [|split].
  - intros candidates w evs.
    pose proof (loop_retry_trace os streamfunc clip needs_retry candidates
                  RD_FAILED None w) as Ht.
    fold evs in Ht |- *. unfold try_all_streams in evs. fold evs in Ht.
    split; [exact Ht|].
    inversion Ht as [o E | o cl s inner r o' rest Hcl Hrest E1 E2].
    + now left.
    + right. inversion Hcl; subst; try discriminate.
      exists s, inner, r, o', rest. reflexivity.
  - intros f w Hf Hfile. unfold cleanup.
    assert (T : truthy (Some f) = true).
    { simpl. apply negb_true_iff. now apply String.eqb_neq. }
    rewrite T. unfold remove_retry_file. simpl in T. rewrite T. cbv iota.
    run_bind. run_simpl. rewrite Hfile. run_bind. run_simpl.
    destruct (remove os f w); reflexivity.
  - intros s1 s2 s3 w0 V1 V2 V3 a1 c1 a2 c2 a3 R1 R2 R3 run.
    assert (E : run =
      (RD_SUCCESS, world_after a3,
       [Log DEBUG ("Now trying downloader " ++ name s1)%string;
        Attempt s1 (events a1) (fst (result a1)) (snd (result a1))]
       ++ events c1 ++
       [Log DEBUG ("Now trying downloader " ++ name s2)%string;
        Attempt s2 (events a2) (fst (result a2)) (snd (result a2))]
       ++ events c2 ++
       [Log DEBUG ("Now trying downloader " ++ name s3)%string;
        Attempt s3 (events a3) RD_SUCCESS (snd (result a3))])).
    { unfold run, try_all_streams.
      rewrite loop_valid by exact V1. cbv zeta.
      change (cleanup os None w0) with (tt, w0, @nil Event).
      cbn [world_after events fst snd app]. fold a1. rewrite R1.
      rewrite loop_valid by exact V2. cbv zeta. fold c1. fold a2. rewrite R2.
      cbn [world_after events result fst snd].
      rewrite loop_valid by exact V3. cbv zeta. fold c2. fold a3. rewrite R3.
      cbn [try_all_streams_loop].
      destruct (needs_retry RD_SUCCESS); run_simpl; reflexivity. }
    rewrite E. cbn [result world_after events fst snd].
    split; [reflexivity|]. split; [reflexivity|]. split; [reflexivity|].
    cbn [app attempts]. rewrite attempts_app.
    destruct (cleanup_run os (snd (result a1)) (world_after a1)) as (_ & H1 & _).
    fold c1 in H1. rewrite H1. cbn [app attempts]. rewrite attempts_app.
    destruct (cleanup_run os (snd (result a2)) (world_after a2)) as (_ & H2 & _).
    fold c2 in H2. rewrite H2. reflexivity.
Qed.
End RetryOrchestrator.

(** ** Facts about the playlist loop *)

Section ProcessFacts.
Import Downloader.
Context {World : Type}.
Variable extractor : Extractor World.
Variable geolocation : Geolocation World.
Variable os : Os World.
Variable to_external_rd_code : ResultCode -> ResultCode.
Variable FailedFlavor : option string -> StreamFlavor.
Variable set_iter : list string -> list string.
Variable flavor_str : StreamFlavor -> string.
Variable streamfunc : @StreamFunc World.
Variable needs_retry : ResultCode -> bool.
Variable filters : StreamFilters.

Abbreviation body :=
  (process_clip extractor geolocation os FailedFlavor set_iter flavor_str
     streamfunc needs_retry filters).
Abbreviation ploop :=
  (process_loop extractor geolocation os FailedFlavor set_iter flavor_str
     streamfunc needs_retry filters).
Abbreviation outcome :=
  (clip_outcome extractor geolocation os FailedFlavor set_iter
     streamfunc needs_retry filters).

Lemma aggregate_failed : forall overall, aggregate overall RD_FAILED = RD_FAILED.
Proof. now destruct overall. Qed.

Lemma aggregate_cases : forall overall item,
  (overall = RD_FAILED -> aggregate overall item = RD_FAILED) /\
  (item = RD_SUCCESS -> aggregate overall item = overall) /\
  (overall <> RD_FAILED -> item <> RD_SUCCESS -> aggregate overall item = item).
Proof.
  intros overall item.
  destruct overall, item; cbn; repeat split; intros; congruence.
Qed.

Lemma aggregate_success : forall item, aggregate RD_SUCCESS item = item.
Proof. now destruct item. Qed.

(** The debug lines of the selection are neither attempts, nor
    extractions, nor errors. *)
Lemma debug_lines_quiet : forall evs,
  Forall (fun e => exists msg, e = Log DEBUG msg) evs ->
  attempts evs = [] /\ extractions evs = [] /\ errors evs = [].
Proof.
  intros evs H. induction H as [|e l [msg ->] _ (IH1 & IH2 & IH3)].
  - repeat split.
  - cbn. auto.
Qed.

Lemma selection_log_debug : forall fls filters' selected,
  Forall (fun e => exists msg, e = Log DEBUG msg)
    (selection_log flavor_str filters' fls selected).
Proof.
  intros fls filters' selected. unfold selection_log.
  destruct fls as [|fl l]; [constructor|].
  constructor; [eexists; reflexivity|].
  apply Forall_app. split.
  - apply Forall_forall. intros e He. apply in_map_iff in He.
    destruct He as (x & <- & _). eexists. reflexivity.
  - constructor; [eexists; reflexivity|].
    destruct selected; [|constructor].
    constructor; [eexists; reflexivity | constructor].
Qed.

Lemma selection_log_quiet : forall fls filters' selected,
  attempts (selection_log flavor_str filters' fls selected) = [] /\
  extractions (selection_log flavor_str filters' fls selected) = [] /\
  errors (selection_log flavor_str filters' fls selected) = [].
Proof. intros. apply debug_lines_quiet, selection_log_debug. Qed.

Lemma log_flavors_run : forall fls (w : World),
  log_flavors fls w = (tt, w, map flavor_line fls).
Proof.
  induction fls as [|fl l IH]; intros w; [reflexivity|].
  cbn [log_flavors]. run_bind. run_simpl. rewrite IH. reflexivity.
Qed.

(** [select_flavor] returns the flavor of the filter, changes nothing,
    and logs the lines of [selection_log]. *)
Lemma select_flavor_value : forall fls filters' (w : World),
  select_flavor FailedFlavor set_iter flavor_str fls filters' w =
    (FlavorFilter.select_flavor FailedFlavor set_iter fls filters', w,
     selection_log flavor_str filters' fls
       (FlavorFilter.select_flavor FailedFlavor set_iter fls filters')).
Proof.
  intros fls filters' w.
  unfold Downloader.select_flavor, FlavorFilter.select_flavor, selection_log.
  destruct fls as [|fl l]; [reflexivity|].
  cbn [nonempty negb]. run_bind. run_simpl. run_bind. rewrite log_flavors_run.
  run_simpl. run_bind. run_simpl.
  destruct (nonempty _); [|reflexivity].
  destruct (last_item _); [|reflexivity].
  run_bind. run_simpl. reflexivity.
Qed.

Lemma select_streams_value : forall fls filters' (w : World),
  select_streams FailedFlavor set_iter flavor_str fls filters' w =
    (FlavorFilter.select_streams FailedFlavor set_iter fls filters', w,
     selection_log flavor_str filters' fls
       (FlavorFilter.select_flavor FailedFlavor set_iter fls filters')).
Proof.
  intros fls filters' w.
  unfold Downloader.select_streams, FlavorFilter.select_streams.
  run_bind. rewrite select_flavor_value. run_simpl.
  destruct (FlavorFilter.select_flavor FailedFlavor set_iter fls filters');
    run_simpl; now rewrite app_nil_r.
Qed.

Lemma print_geo_warning_extractions : forall clip w,
  extractions (events (print_geo_warning geolocation clip w)) = [].
Proof.
  intros clip w. unfold print_geo_warning.
  destruct (match region clip with Some r => String.eqb r "Finland" | None => true end);
    [|reflexivity].
  run_bind. unfold call.
  destruct (located_in_finland geolocation (webpage clip) w) as [inside w'].
  run_simpl. now destruct inside.
Qed.

(** The body of the loop, step by step. *)
Lemma process_clip_eq : forall overall clip_url w,
  body overall clip_url w =
    let extracted := extract_clip extractor clip_url w in
    let before :=
      ExtractClip clip_url
        :: selection_log flavor_str filters (flavors (fst extracted))
             (FlavorFilter.select_flavor FailedFlavor set_iter
                (flavors (fst extracted)) filters) in
    match FlavorFilter.select_streams FailedFlavor set_iter
            (flavors (fst extracted)) filters with
    | None | Some [] =>
        (RD_FAILED, snd extracted, before ++ [Log ERROR "No stream found"])
    | Some ((s0 :: _) as ss) =>
        if forallb (fun stream => negb (is_valid stream)) ss then
          let warned := print_geo_warning geolocation (fst extracted) (snd extracted) in
          (RD_FAILED, world_after warned,
           before
             ++ Log ERROR ("Unsupported stream: " ++ py_str (error_message s0))%string
             :: events warned)
        else
          let tried :=
            try_all_streams os streamfunc (fst extracted) ss needs_retry
              (snd extracted) in
          (aggregate overall (result tried), world_after tried,
           before ++ events tried)
    end.
Proof.
  intros overall clip_url w. cbv zeta. unfold process_clip.
  run_bind. unfold call.
  destruct (extract_clip extractor clip_url w) as [clip w1].
  run_simpl. run_bind. rewrite select_streams_value. run_simpl.
  destruct (FlavorFilter.select_streams FailedFlavor set_iter (flavors clip) filters)
    as [[|s0 ss]|].
  - run_bind. run_simpl. reflexivity.
  - destruct (forallb _ (s0 :: ss)).
    + repeat run_bind. run_simpl. repeat run_bind. run_simpl.
      rewrite app_nil_r. reflexivity.
    + run_bind.
      set (t := try_all_streams os streamfunc clip (s0 :: ss) needs_retry w1).
      destruct (result t) eqn:Er, overall; run_simpl; rewrite ?Er, app_nil_r;
        reflexivity.
  - run_bind. run_simpl. reflexivity.
Qed.

(** The body of the loop merges the outcome of the clip into the status
    and leaves the world the outcome leaves. *)
Lemma process_clip_outcome : forall overall clip_url w,
  result (body overall clip_url w) = aggregate overall (fst (outcome clip_url w)) /\
  world_after (body overall clip_url w) = snd (outcome clip_url w).
Proof.
  intros overall clip_url w. rewrite process_clip_eq. cbv zeta.
  unfold clip_outcome.
  destruct (extract_clip extractor clip_url w) as [clip w1]. cbn [fst snd].
  destruct (FlavorFilter.select_streams FailedFlavor set_iter (flavors clip) filters)
    as [[|s0 ss]|].
  - cbn [result world_after fst snd]. now rewrite aggregate_failed.
  - destruct (forallb _ (s0 :: ss)); cbn [result world_after fst snd].
    + now rewrite aggregate_failed.
    + split; reflexivity.
  - cbn [result world_after fst snd]. now rewrite aggregate_failed.
Qed.

(** The events of the body of the loop do not depend on the status. *)
Lemma process_clip_events : forall overall clip_url w,
  events (body overall clip_url w) = events (body RD_SUCCESS clip_url w).
Proof.
  intros overall clip_url w. rewrite !process_clip_eq. cbv zeta.
  destruct (FlavorFilter.select_streams FailedFlavor set_iter
              (flavors (fst (extract_clip extractor clip_url w))) filters)
    as [[|s0 ss]|]; try reflexivity.
  now destruct (forallb _ (s0 :: ss)).
Qed.

Lemma process_clip_extractions : forall overall clip_url w,
  extractions (events (body overall clip_url w)) = [clip_url].
Proof.
  intros overall clip_url w. rewrite process_clip_eq. cbv zeta.
  set (x := extract_clip extractor clip_url w).
  pose proof (selection_log_quiet (flavors (fst x)) filters
                (FlavorFilter.select_flavor FailedFlavor set_iter
                   (flavors (fst x)) filters)) as (_ & Hq & _).
  destruct (FlavorFilter.select_streams FailedFlavor set_iter (flavors (fst x)) filters)
    as [[|s0 ss]|].
  - cbn [events snd app extractions]. now rewrite extractions_app, Hq.
  - destruct (forallb _ (s0 :: ss)); cbn [events snd app extractions];
      rewrite extractions_app, Hq; cbn [app extractions].
    + now rewrite print_geo_warning_extractions.
    + unfold try_all_streams. now rewrite loop_extractions.
  - cbn [events snd app extractions]. now rewrite extractions_app, Hq.
Qed.

Lemma process_loop_run : forall playlist overall w,
  ploop overall playlist w =
    (fold_left aggregate (playlist_outcomes outcome playlist w) overall,
     world_after (ploop RD_SUCCESS playlist w),
     events (ploop RD_SUCCESS playlist w)).
Proof.
  induction playlist as [|u rest IH]; intros overall w.
  - reflexivity.
  - cbn [process_loop playlist_outcomes fold_left]. repeat run_bind.
    destruct (process_clip_outcome overall u w) as [Hr Hw].
    destruct (process_clip_outcome RD_SUCCESS u w) as [Hr0 Hw0].
    rewrite Hr, Hw, Hw0, (process_clip_events overall).
    rewrite IH. cbn [result world_after events fst snd].
    rewrite (IH (result (body RD_SUCCESS u w))).
    cbn [world_after events fst snd]. reflexivity.
Qed.

Lemma fold_aggregate_failed : forall outcomes,
  fold_left aggregate outcomes RD_FAILED = RD_FAILED.
Proof. induction outcomes as [|o l IH]; [reflexivity | exact IH]. Qed.

Lemma fold_aggregate_dominated : forall outcomes overall,
  In RD_FAILED outcomes -> fold_left aggregate outcomes overall = RD_FAILED.
Proof.
  induction outcomes as [|o l IH]; intros overall Hin; [destruct Hin|].
  destruct Hin as [E|Hin].
  - subst o. simpl. rewrite aggregate_failed. apply fold_aggregate_failed.
  - simpl. now apply IH.
Qed.
End ProcessFacts.

(** ** The playlist processor *)

Section PlaylistProcessor.
Import Downloader.
Context {World : Type}.
Variable extractor : Extractor World.
Variable geolocation : Geolocation World.
Variable os : Os World.
Variable to_external_rd_code : ResultCode -> ResultCode.
Variable FailedFlavor : option string -> StreamFlavor.
Variable set_iter : list string -> list string.
Variable flavor_str : StreamFlavor -> string.
Variable streamfunc : @StreamFunc World.
Variable needs_retry : ResultCode -> bool.
Variable filters : StreamFilters.

Abbreviation body :=
  (process_clip extractor geolocation os FailedFlavor set_iter flavor_str
     streamfunc needs_retry filters).
Abbreviation ploop :=
  (process_loop extractor geolocation os FailedFlavor set_iter flavor_str
     streamfunc needs_retry filters).
Abbreviation process :=
  (process extractor geolocation os to_external_rd_code FailedFlavor set_iter
     flavor_str).
Abbreviation outcome :=
  (clip_outcome extractor geolocation os FailedFlavor set_iter
     streamfunc needs_retry filters).

(** C3.  For a non-empty playlist [process] reports the status that the
    loop reaches from success.  The body of the loop merges the outcome of
    the clip into the status so far: a failed status stays failed, a
    successful clip leaves the status as it is, and any other outcome
    replaces a status that is not failed.  The outcome of a clip with no
    streams or only invalid ones is failed, and the stream function is not
    called for it; the outcome of any other clip is what [try_all_streams]
    returns for the selected streams in the world the extraction leaves,
    and the body of the loop leaves the world and makes the attempts of
    that call.  So the status after the loop is the fold of [aggregate]
    over the outcomes of the clips, a failed status is never left, and the
    outcomes success, failed, success end in failed. *)
Theorem playlist_status_aggregation :
  (forall playlist w,
     playlist <> [] ->
     process playlist streamfunc needs_retry filters w =
       (to_external_rd_code (result (ploop RD_SUCCESS playlist w)),
        world_after (ploop RD_SUCCESS playlist w),
        events (ploop RD_SUCCESS playlist w))) /\
  (forall overall clip_url w,
     let item := fst (outcome clip_url w) in
     let status := result (body overall clip_url w) in
     (overall = RD_FAILED -> status = RD_FAILED) /\
     (item = RD_SUCCESS -> status = overall) /\
     (overall <> RD_FAILED -> item <> RD_SUCCESS -> status = item) /\
     status = aggregate overall item /\
     world_after (body overall clip_url w) = snd (outcome clip_url w)) /\
  (forall overall clip_url w,
     let extracted := extract_clip extractor clip_url w in
     let candidates :=
       FlavorFilter.select_streams FailedFlavor set_iter
         (flavors (fst extracted)) filters in
     (unusable candidates = true ->
      fst (outcome clip_url w) = RD_FAILED /\
      result (body overall clip_url w) = RD_FAILED /\
      attempts (events (body overall clip_url w)) = []) /\
     (forall ss,
        candidates = Some ss -> unusable candidates = false ->
        let tried :=
          try_all_streams os streamfunc (fst extracted) ss needs_retry
            (snd extracted) in
        outcome clip_url w = (result tried, world_after tried) /\
        result (body overall clip_url w) =
          (if negb (rd_eqb (result tried) RD_SUCCESS)
              && negb (rd_eqb overall RD_FAILED)
           then result tried else overall) /\
        world_after (body overall clip_url w) = world_after tried /\
        attempts (events (body overall clip_url w)) = attempts (events tried))) /\
  (forall overall playlist w,
     result (ploop overall playlist w) =
       fold_left aggregate (playlist_outcomes outcome playlist w) overall) /\
  (forall playlist w,
     result (ploop RD_FAILED playlist w) = RD_FAILED) /\
  (forall playlist w,
     playlist_outcomes outcome playlist w = [RD_SUCCESS; RD_FAILED; RD_SUCCESS] ->
     result (ploop RD_SUCCESS playlist w) = RD_FAILED /\
     result (process playlist streamfunc needs_retry filters w) =
       to_external_rd_code RD_FAILED).
Proof.
  assert (Hproc : forall playlist w,
     playlist <> [] ->
     process playlist streamfunc needs_retry filters w =
       (to_external_rd_code (result (ploop RD_SUCCESS playlist w)),
        world_after (ploop RD_SUCCESS playlist w),
        events (ploop RD_SUCCESS playlist w))).
  { intros playlist w Hne. unfold Downloader.process.
    destruct playlist as [|u rest]; [congruence|].
    cbn [List.length]. rewrite Nat2Z.inj_succ.
    destruct (Z.succ (Z.of_nat (List.length rest)) =? 0) eqn:E;
      [apply Z.eqb_eq in E; lia|].
    run_bind. run_simpl. now rewrite app_nil_r. }
  assert (Hloop : forall overall playlist w,
     result (ploop overall playlist w) =
       fold_left aggregate (playlist_outcomes outcome playlist w) overall).
  { intros overall playlist w.
    rewrite (process_loop_run extractor geolocation os FailedFlavor set_iter
               flavor_str streamfunc needs_retry filters playlist overall w).
    reflexivity. }
  split; [exact Hproc|]. split; [|split; [|split; [exact Hloop|split]]].
  - intros overall clip_url w item status.
    destruct (process_clip_outcome extractor geolocation os FailedFlavor set_iter
                flavor_str streamfunc needs_retry filters overall clip_url w)
      as [Hs Hw].
    fold status item in Hs.
    destruct (aggregate_cases overall item) as (H1 & H2 & H3).
    rewrite Hs.
    split; [exact H1|]. split; [exact H2|]. split; [exact H3|].
    split; [reflexivity | exact Hw].
  - intros overall clip_url w. cbv zeta.
    rewrite (process_clip_eq extractor geolocation os FailedFlavor set_iter
               flavor_str streamfunc needs_retry filters overall clip_url w).
    cbv zeta. unfold clip_outcome.
    destruct (extract_clip extractor clip_url w) as [clip w1]. cbn [fst snd].
    pose proof (selection_log_quiet flavor_str (flavors clip) filters
                  (FlavorFilter.select_flavor FailedFlavor set_iter
                     (flavors clip) filters)) as (Hq & _ & _).
    destruct (FlavorFilter.select_streams FailedFlavor set_iter (flavors clip) filters)
      as [[|s0 ss]|].
    + split.
      * intros _. cbn [fst result events snd app attempts].
        now rewrite attempts_app, Hq.
      * intros ss E Hu. discriminate Hu.
    + cbn [unusable].
      destruct (forallb (fun stream => negb (is_valid stream)) (s0 :: ss)).
      * split.
        -- intros _. cbn [fst result events snd app attempts].
           rewrite attempts_app, Hq. cbn [app attempts].
           split; [reflexivity|]. split; [reflexivity|].
           unfold print_geo_warning.
           destruct (match region clip with
                     | Some r => String.eqb r "Finland"
                     | None => true
                     end); [|reflexivity].
           run_bind. unfold call.
           destruct (located_in_finland geolocation (webpage clip) w1)
             as [inside w'].
           run_simpl. now destruct inside.
        -- intros ss' E Hu. discriminate Hu.
      * split; [intros Hu; discriminate Hu|].
        intros ss' E _. injection E as <-.
        cbn [fst snd result world_after events app attempts].
        rewrite attempts_app, Hq. cbn [app].
        split; [reflexivity|]. split; [|split; reflexivity].
        destruct (result (try_all_streams os streamfunc clip (s0 :: ss)
                            needs_retry w1)), overall; reflexivity.
    + split.
      * intros _. cbn [fst result events snd app attempts].
        now rewrite attempts_app, Hq.
      * intros ss E. discriminate E.
  - intros playlist w. rewrite Hloop. apply fold_aggregate_failed.
  - intros playlist w Hout.
    assert (Hst : result (ploop RD_SUCCESS playlist w) = RD_FAILED).
    { rewrite Hloop, Hout. reflexivity. }
    split; [exact Hst|].
    rewrite Hproc.
    + cbn [result fst]. now rewrite Hst.
    + intros ->. discriminate Hout.
Qed.
End PlaylistProcessor.

(** ** The entry points *)

Section EntryPoints.
Import Downloader.
Context {World : Type}.
Variable extractor : Extractor World.
Variable geolocation : Geolocation World.
Variable backends : Backends World.
Variable os : Os World.
Variable to_external_rd_code : ResultCode -> ResultCode.
Variable FailedFlavor : option string -> StreamFlavor.
Variable set_iter : list string -> list string.
Variable flavor_str : StreamFlavor -> string.

Abbreviation download_clips :=
  (download_clips extractor geolocation backends os to_external_rd_code
     FailedFlavor set_iter flavor_str).
Abbreviation pipe :=
  (pipe extractor geolocation backends os to_external_rd_code
     FailedFlavor set_iter flavor_str).
Abbreviation process :=
  (process extractor geolocation os to_external_rd_code FailedFlavor set_iter
     flavor_str).

Lemma len_gt1 {A : Type} : forall (l : list A),
  (Z.of_nat (List.length l) >? 1) = (1 <? List.length l)%nat.
Proof.
  intros l. rewrite Z.gtb_ltb.
  destruct (Nat.ltb_spec 1 (List.length l)); [apply Z.ltb_lt | apply Z.ltb_ge]; lia.
Qed.

(** C8.  When the playlist has more than one clip and an output file name
    was given, [download_clips] returns failed, and all it has done is to
    fetch the playlist and log the error: no clip is extracted and no
    stream is tried.  The same holds when no output file name was given
    but the output template is a constant.  With at most one clip, or
    with neither condition, the playlist is processed. *)
Theorem multi_item_guard : forall base_url io filters w,
  let got := get_playlist extractor base_url (Some (latest_only filters)) w in
  let playlist := fst got in
  let fetched := GetPlaylist base_url (Some (latest_only filters)) in
  let run := download_clips base_url io filters w in
  ((List.length playlist > 1)%nat -> outputfilename io <> None ->
   run = (RD_FAILED, snd got,
          [fetched;
           Log ERROR ("The source is a playlist with multiple clips, "
                      ++ "but only one output file specified")%string]) /\
   extractions (events run) = [] /\ attempts (events run) = []) /\
  ((List.length playlist > 1)%nat -> outputfilename io = None ->
   is_constant_pattern extractor = true ->
   run = (RD_FAILED, snd got,
          [fetched;
           Log ERROR ("The source is a playlist with multiple clips, "
                      ++ "but --output-template is a literal: "
                      ++ template extractor)%string]) /\
   extractions (events run) = [] /\ attempts (events run) = []) /\
  ((List.length playlist <= 1)%nat \/
   (outputfilename io = None /\ is_constant_pattern extractor = false) ->
   let processed :=
     process playlist (download backends os io) download_needs_retry filters
             (snd got) in
   run = (result processed, world_after processed, fetched :: events processed)).
Proof.
  intros base_url io filters w. cbv zeta.
  unfold Downloader.download_clips. run_bind. unfold call.
  destruct (get_playlist extractor base_url (Some (latest_only filters)) w)
    as [playlist w1].
  run_simpl. rewrite len_gt1.
  split; [|split].
  - intros Hlen Hout.
    apply Nat.ltb_lt in Hlen. rewrite Hlen.
    destruct (outputfilename io); [|congruence].
    cbn [is_not_None andb]. run_bind. run_simpl. auto.
  - intros Hlen Hout Hconst.
    apply Nat.ltb_lt in Hlen. rewrite Hlen, Hout, Hconst.
    cbn [is_not_None andb]. run_bind. run_simpl. auto.
  - intros [Hlen | [Hout Hconst]].
    + apply Nat.ltb_ge in Hlen. rewrite Hlen. cbn [andb]. reflexivity.
    + rewrite Hout, Hconst.
      cbn [is_not_None]. rewrite !andb_false_r. reflexivity.
Qed.

(** C10.  When the playlist starts with [first], whatever follows it,
    [pipe] does what [process] does on the one-item playlist [[first]]:
    [first] is the only clip extracted, and the result is the external
    code of the first clip's outcome. *)
Theorem pipe_first_clip_only : forall base_url io filters w first others,
  let got := get_playlist extractor base_url None w in
  fst got = first :: others ->
  let run := pipe base_url io filters w in
  let single :=
    process [first] (pipe_clip backends io) pipe_needs_retry filters (snd got) in
  let outcome :=
    process_clip extractor geolocation os FailedFlavor set_iter flavor_str
      (pipe_clip backends io) pipe_needs_retry filters RD_SUCCESS first (snd got) in
  run = (result single, world_after single,
         GetPlaylist base_url None :: events single) /\
  extractions (events run) = [first] /\
  result run = to_external_rd_code (result outcome) /\
  world_after run = world_after outcome /\
  events run = GetPlaylist base_url None :: events outcome.
Proof.
  intros base_url io filters w first others. cbv zeta.
  unfold Downloader.pipe. run_bind. unfold call.
  destruct (get_playlist extractor base_url None w) as [playlist w1].
  cbn [fst snd]. intros ->. run_simpl. cbn [firstn].
  split; [reflexivity|].
  unfold Downloader.process. cbn [List.length Z.of_nat Z.eqb Pos.of_succ_nat].
  run_bind. cbn [process_loop]. run_bind. run_simpl. rewrite !app_nil_r.
  split; [|split; [|split]]; try reflexivity.
  cbn [extractions]. now rewrite process_clip_extractions.
Qed.
End EntryPoints.

(** * Runs on concrete inputs *)

Section TestCases.
Import FlavorFilter.

Abbreviation select_from_clip :=
  (select_flavor Mock.FailedFlavor Mock.set_iter successful_clip_flavors).

(** The selections asserted by tests/test_downloader.py. *)
Example test_download_success :
  select_from_clip (mkFilters false None None ["mock"]) = Some high_quality.
Proof. reflexivity. Qed.

Example test_download_filter_resolution :
  select_from_clip (mkFilters false (Some 700) None ["mock"]) = Some low_quality.
Proof. reflexivity. Qed.

Example test_download_filter_exact_resolution :
  select_from_clip filters_maxheight_720 = Some medium_quality.
Proof. reflexivity. Qed.

Example test_download_filter_bitrate1 :
  select_from_clip (mkFilters false None (Some 1500) ["mock"]) = Some medium_quality.
Proof. reflexivity. Qed.

Example test_download_filter_bitrate2 :
  select_from_clip (mkFilters false None (Some 2000) ["mock"])
    = Some medium_quality_high_bitrate.
Proof. reflexivity. Qed.

Example test_download_multiple_filters :
  select_from_clip (mkFilters false (Some 720) (Some 1000) ["mock"]) = Some low_quality.
Proof. reflexivity. Qed.

(** Below every height on offer, the lowest one is taken. *)
Example test_closest_fit_from_above :
  select_from_clip (mkFilters false (Some 100) None ["mock"]) = Some low_quality.
Proof. reflexivity. Qed.

Example test_backend_not_enabled :
  select_from_clip (mkFilters false None None ["other"])
    = Some (Mock.FailedFlavor
              (Some "Required backend not enabled. Try: --backend mock")).
Proof. reflexivity. Qed.
End TestCases.

Lemma mock_set_iteration : set_iteration Mock.set_iter.
Proof.
  intros l. unfold Mock.set_iter. split.
  - apply NoDup_rev. apply NoDup_nodup.
  - intros x. rewrite <- in_rev, nodup_In, <- in_rev. reflexivity.
Qed.

(** ** Instances of the theorems *)

Lemma maxheight_closest_fit_witness :
  let filters := mkFilters false (Some 700) None ["mock"] in
  let en := FlavorFilter.enabled_flavors successful_clip_flavors filters in
  exists sel,
    FlavorFilter.select_flavor Mock.FailedFlavor Mock.set_iter
      successful_clip_flavors filters = Some sel /\
    In sel en /\
    ((exists fl, In fl en /\ or0 (height fl) <= 700) -> or0 (height sel) <= 700) /\
    ((forall fl, In fl en -> or0 (height fl) > 700) ->
     or0 (height sel) > 700 /\
     forall fl, In fl en -> or0 (height sel) <= or0 (height fl)).
Proof.
  apply (maxheight_closest_fit Mock.FailedFlavor Mock.set_iter
           successful_clip_flavors (mkFilters false (Some 700) None ["mock"]) 700).
  - reflexivity.
  - reflexivity.
  - vm_compute. discriminate.
Defined.

Lemma unconstrained_highest_bitrate_witness :
  let filters := mkFilters false None None ["mock"] in
  let en := FlavorFilter.enabled_flavors successful_clip_flavors filters in
  exists sel,
    FlavorFilter.select_flavor Mock.FailedFlavor Mock.set_iter
      successful_clip_flavors filters = Some sel /\
    In sel en /\
    forall fl, In fl en -> or0 (bitrate fl) <= or0 (bitrate sel).
Proof.
  apply (unconstrained_highest_bitrate Mock.FailedFlavor Mock.set_iter
           successful_clip_flavors (mkFilters false None None ["mock"])).
  - reflexivity.
  - reflexivity.
  - vm_compute. discriminate.
Defined.

Lemma resolution_filter_falls_back_witness :
  let filters := mkFilters false (Some 100) (Some 100) ["mock"] in
  let en := FlavorFilter.enabled_flavors successful_clip_flavors filters in
  FlavorFilter.apply_resolution_filters en filters <> [] /\
  (filter (FlavorFilter.within_limits filters) en = [] ->
   Permutation (FlavorFilter.apply_resolution_filters en filters) en) /\
  (filter (FlavorFilter.within_limits filters) en <> [] ->
   Permutation (FlavorFilter.apply_resolution_filters en filters)
               (filter (FlavorFilter.within_limits filters) en)) /\
  exists sel,
    FlavorFilter.select_flavor Mock.FailedFlavor Mock.set_iter
      successful_clip_flavors filters = Some sel /\ In sel en.
Proof.
  apply (resolution_filter_falls_back Mock.FailedFlavor Mock.set_iter
           successful_clip_flavors (mkFilters false (Some 100) (Some 100) ["mock"])).
  vm_compute. discriminate.
Defined.

Lemma exact_resolution_prefers_lower_bitrate_witness :
  FlavorFilter.select_flavor Mock.FailedFlavor Mock.set_iter
    successful_clip_flavors filters_maxheight_720 = Some medium_quality /\
  bitrate medium_quality = Some 1412 /\
  height medium_quality = Some 720 /\
  medium_quality <> medium_quality_high_bitrate.
Proof.
  apply (exact_resolution_prefers_lower_bitrate Mock.FailedFlavor Mock.set_iter
           successful_clip_flavors).
  apply Permutation_refl.
Defined.

Lemma backend_not_enabled_diagnostic_witness :
  let filters := mkFilters false None None ["other"] in
  exists msg,
    FlavorFilter.apply_backend_filter Mock.FailedFlavor Mock.set_iter
      successful_clip_flavors filters = [Mock.FailedFlavor msg] /\
    FlavorFilter.select_flavor Mock.FailedFlavor Mock.set_iter
      successful_clip_flavors filters = Some (Mock.FailedFlavor msg) /\
    exists names,
      msg = Some ("Required backend not enabled. Try: --backend "
                    ++ String.concat "," names)%string /\
      NoDup names /\
      forall n, In n names <->
                exists s, In s (all_streams successful_clip_flavors) /\
                          is_valid s = true /\ name s = n.
Proof.
  intros filters.
  destruct (proj2 (backend_not_enabled_diagnostic Mock.FailedFlavor Mock.set_iter
                     filters mock_set_iteration) successful_clip_flavors)
    as (msg & Hf & Hs & Hvalid & _).
  - discriminate.
  - intros fl s Hfl Hs Hn. simpl in Hn. destruct Hn as [Hn|[]].
    simpl in Hfl.
    destruct Hfl as [<-|[<-|[<-|[<-|[]]]]]; simpl in Hs;
      destruct Hs as [<-|[]]; discriminate Hn.
  - exists msg. split; [exact Hf|]. split; [exact Hs|].
    apply Hvalid. exists (mock_stream 0). split; [simpl; auto | reflexivity].
Defined.

Section MockRuns.
Import Downloader.

(** Three valid candidates, the first two failing: three attempts, the
    partial file removed after the first and the second. *)
Example test_third_candidate_succeeds :
  let run := try_all_streams Mock.os Mock.save (Mock.clip_of "clip" [])
               [mock_stream 0; mock_stream 1; mock_stream 2]
               download_needs_retry Mock.empty in
  result run = RD_SUCCESS /\
  Mock.files (world_after run) = ["clip.mp4"] /\
  attempts (events run) =
    [(mock_stream 0, RD_FAILED); (mock_stream 1, RD_FAILED);
     (mock_stream 2, RD_SUCCESS)] /\
  filter (fun e => match e with OsRemove _ _ => true | _ => false end) (events run)
    = [OsRemove "clip.mp4" true; OsRemove "clip.mp4" true].
Proof. vm_compute. repeat split. Qed.

(** A partial file that cannot be removed: a warning, and the next
    candidate is tried all the same. *)
Example test_failed_removal_goes_on :
  let run := try_all_streams Mock.os Mock.save (Mock.clip_of "clip" [])
               [mock_stream 0; mock_stream 2]
               download_needs_retry (Mock.mkWorld [] ["clip.mp4"]) in
  result run = RD_SUCCESS /\
  filter (fun e => match e with
                   | OsRemove _ _ | Log WARNING _ => true
                   | _ => false
                   end) (events run)
    = [OsRemove "clip.mp4" false;
       Log WARNING "Failed to remove a partial output file"] /\
  List.length (attempts (events run)) = 2%nat.
Proof. vm_compute. repeat split. Qed.

Lemma try_all_streams_attempts_example :
  let run := try_all_streams Mock.os Mock.save (Mock.clip_of "clip" [])
               [mock_stream 0; mkStream "mock" false (Some "broken") 7;
                mock_stream 2; mock_stream 3]
               download_needs_retry Mock.empty in
  result run = RD_SUCCESS /\
  map fst (attempts (events run)) = [mock_stream 0; mock_stream 2].
Proof. vm_compute. split; reflexivity. Qed.

Lemma try_all_streams_attempts_witness :
  let clip := Mock.clip_of "clip" [] in
  let broken := mkStream "mock" false (Some "broken") 7 in
  let a := Mock.save clip (mock_stream 2) Mock.empty in
  try_all_streams Mock.os Mock.save clip
    [broken; mock_stream 2; mock_stream 3] download_needs_retry Mock.empty
  = (RD_SUCCESS, Mock.mkWorld ["clip.mp4"] [],
     [Log DEBUG "Now trying downloader mock";
      Attempt (mock_stream 2) (events a) RD_SUCCESS (Some "clip.mp4")]).
Proof.
  intros clip broken a.
  apply (proj1 (proj2 (proj2 (proj2 (proj2 (proj2 (proj2
           (try_all_streams_attempts Mock.os Mock.save clip download_needs_retry
              [broken; mock_stream 2; mock_stream 3] Mock.empty))))))
           (mock_stream 2) [mock_stream 3] eq_refl)).
  reflexivity.
Defined.

Lemma cleanup_between_attempts_witness :
  let run := try_all_streams Mock.os Mock.save (Mock.clip_of "clip" [])
               [mock_stream 0; mock_stream 1; mock_stream 2]
               download_needs_retry Mock.empty in
  result run = RD_SUCCESS /\
  attempts (events run) =
    [(mock_stream 0, RD_FAILED); (mock_stream 1, RD_FAILED);
     (mock_stream 2, RD_SUCCESS)].
Proof.
  destruct (proj2 (proj2 (cleanup_between_attempts Mock.os Mock.save
                            (Mock.clip_of "clip" []) download_needs_retry))
              (mock_stream 0) (mock_stream 1) (mock_stream 2) Mock.empty)
    as (Hres & _ & _ & Hatt).
  - reflexivity.
  - reflexivity.
  - reflexivity.
  - vm_compute. reflexivity.
  - vm_compute. reflexivity.
  - vm_compute. reflexivity.
  - split; [exact Hres | exact Hatt].
Defined.

Lemma playlist_status_aggregation_witness :
  playlist_outcomes
    (clip_outcome Mock.abc Mock.geolocation Mock.os Mock.FailedFlavor Mock.set_iter
       Mock.save download_needs_retry Mock.filters)
    ["a"; "b"; "c"] Mock.empty = [RD_SUCCESS; RD_FAILED; RD_SUCCESS] /\
  result (process Mock.abc Mock.geolocation Mock.os (fun r => r)
            Mock.FailedFlavor Mock.set_iter Mock.flavor_str
            ["a"; "b"; "c"] Mock.save download_needs_retry Mock.filters Mock.empty)
    = RD_FAILED.
Proof.
  assert (H : playlist_outcomes
    (clip_outcome Mock.abc Mock.geolocation Mock.os Mock.FailedFlavor Mock.set_iter
       Mock.save download_needs_retry Mock.filters)
    ["a"; "b"; "c"] Mock.empty = [RD_SUCCESS; RD_FAILED; RD_SUCCESS])
    by (vm_compute; reflexivity).
  split; [exact H|].
  apply (proj2 (proj2 (proj2 (proj2 (proj2
           (playlist_status_aggregation Mock.abc Mock.geolocation Mock.os (fun r => r)
              Mock.FailedFlavor Mock.set_iter Mock.flavor_str Mock.save
              download_needs_retry Mock.filters)))))
           ["a"; "b"; "c"] Mock.empty H).
Defined.

Lemma multi_item_guard_witness :
  let io := mkIO (Some "out.mp4") None false None (mkLimits None None) in
  let run := download_clips Mock.abc Mock.geolocation
               (Mock.backends Mock.third_time_lucky) Mock.os (fun r => r)
               Mock.FailedFlavor Mock.set_iter Mock.flavor_str
               "url" io Mock.filters Mock.empty in
  (List.length ["a"; "b"; "c"] > 1)%nat /\
  result run = RD_FAILED /\
  events run =
    [GetPlaylist "url" (Some false);
     Log ERROR ("The source is a playlist with multiple clips, "
                ++ "but only one output file specified")%string] /\
  world_after run = Mock.empty.
Proof.
  intros io run.
  assert (Hlen : (List.length ["a"; "b"; "c"] > 1)%nat) by (simpl; lia).
  split; [exact Hlen|].
  destruct (proj1 (multi_item_guard Mock.abc Mock.geolocation
                     (Mock.backends Mock.third_time_lucky) Mock.os (fun r => r)
                     Mock.FailedFlavor Mock.set_iter Mock.flavor_str
                     "url" io Mock.filters Mock.empty)
              Hlen) as (Hrun & _).
  - discriminate.
  - fold run in Hrun. rewrite Hrun. repeat split.
Defined.

Lemma pipe_first_clip_only_witness :
  let run := pipe (Mock.extractor ["b"; "a"; "c"] Mock.three_clips false)
               Mock.geolocation (Mock.backends Mock.third_time_lucky) Mock.os
               (fun r => r) Mock.FailedFlavor Mock.set_iter Mock.flavor_str
               "url" Mock.io Mock.filters Mock.empty in
  extractions (events run) = ["b"] /\ result run = RD_FAILED.
Proof.
  destruct (pipe_first_clip_only
              (Mock.extractor ["b"; "a"; "c"] Mock.three_clips false)
              Mock.geolocation (Mock.backends Mock.third_time_lucky) Mock.os
              (fun r => r) Mock.FailedFlavor Mock.set_iter Mock.flavor_str
              "url" Mock.io Mock.filters Mock.empty "b" ["a"; "c"])
    as (_ & Hex & Hres & _).
  - reflexivity.
  - split; [exact Hex|]. rewrite Hres. vm_compute. reflexivity.
Defined.
End MockRuns.


(** * Further properties of the flavor filter *)

Section MoreSelection.
Import FlavorFilter FlavorFilterFacts.
Variable FailedFlavor : option string -> StreamFlavor.
Variable set_iter : list string -> list string.

Abbreviation select_flavor := (select_flavor FailedFlavor set_iter).

Lemma max_both_le : forall a b,
  key_le sort_max_resolution_max_bitrate a b ->
  or0 (height a) < or0 (height b) \/
  (or0 (height a) = or0 (height b) /\ or0 (bitrate a) <= or0 (bitrate b)).
Proof. unfold key_le, sort_max_resolution_max_bitrate; simpl; intros; lia. Qed.

Lemma min_bitrate_le : forall a b,
  key_le sort_max_resolution_min_bitrate a b ->
  or0 (height a) < or0 (height b) \/
  (or0 (height a) = or0 (height b) /\ or0 (bitrate b) <= or0 (bitrate a)).
Proof. unfold key_le, sort_max_resolution_min_bitrate; simpl; intros; lia. Qed.

Lemma within_limits_bitrate : forall filters fl B,
  maxheight filters = None -> maxbitrate filters = Some B ->
  within_limits filters fl = (or0 (bitrate fl) <=? B).
Proof.
  intros filters fl B Hh Hb. unfold within_limits. rewrite Hh, Hb.
  apply andb_true_r.
Qed.

Lemma within_limits_both : forall filters fl H B,
  maxheight filters = Some H -> maxbitrate filters = Some B ->
  within_limits filters fl = ((or0 (bitrate fl) <=? B) && (or0 (height fl) <=? H)).
Proof. intros filters fl H B Hh Hb. unfold within_limits. now rewrite Hh, Hb. Qed.

(** X1.  With [maxbitrate = B] and no [maxheight], and at least one
    backend-enabled flavor: when some enabled flavor has bitrate at most
    [B], the selected one has the highest bitrate not above [B]; when all
    of them exceed [B], it has the lowest bitrate of all. *)
Theorem maxbitrate_closest_fit : forall flavors filters B,
  maxheight filters = None ->
  maxbitrate filters = Some B ->
  enabled_flavors flavors filters <> [] ->
  exists sel,
    select_flavor flavors filters = Some sel /\
    In sel (enabled_flavors flavors filters) /\
    ((exists fl, In fl (enabled_flavors flavors filters) /\ or0 (bitrate fl) <= B) ->
     or0 (bitrate sel) <= B /\
     forall fl, In fl (enabled_flavors flavors filters) ->
                or0 (bitrate fl) <= B -> or0 (bitrate fl) <= or0 (bitrate sel)) /\
    ((forall fl, In fl (enabled_flavors flavors filters) -> or0 (bitrate fl) > B) ->
     forall fl, In fl (enabled_flavors flavors filters) ->
                or0 (bitrate sel) <= or0 (bitrate fl)).
Proof.
  intros flavors filters B Hh Hb Hne.
  rewrite (select_flavor_enabled FailedFlavor set_iter) by exact Hne.
  set (en := enabled_flavors flavors filters) in *.
  unfold apply_resolution_filters. rewrite Hh, Hb. simpl.
  destruct (nonempty (filter (within_limits filters) en)) eqn:E.
  - apply nonempty_true in E.
    destruct (pick_ascending _ max_bitrate_trans max_bitrate_lt_le _ E)
      as (sel & Hsel & Hin & Hmax).
    apply filter_In in Hin. destruct Hin as [Hin Hw].
    rewrite (within_limits_bitrate _ _ _ Hh Hb) in Hw.
    exists sel. split; [exact Hsel|]. split; [exact Hin|]. split.
    + intros _. split; [lia|]. intros fl Hfl Hle.
      apply max_bitrate_le_bitrate. apply Hmax. apply filter_In.
      split; [exact Hfl|]. rewrite (within_limits_bitrate _ _ _ Hh Hb). lia.
    + intros Hall. specialize (Hall sel Hin). lia.
  - apply nonempty_false in E.
    destruct (pick_descending _ max_bitrate_trans max_bitrate_lt_le _ Hne)
      as (sel & Hsel & Hin & Hleast).
    exists sel. split; [exact Hsel|]. split; [exact Hin|]. split.
    + intros (fl & Hfl & Hle). exfalso.
      assert (Hf : In fl (filter (within_limits filters) en)).
      { apply filter_In. split; [exact Hfl|].
        rewrite (within_limits_bitrate _ _ _ Hh Hb). lia. }
      rewrite E in Hf. exact Hf.
    + intros _ fl Hfl. apply max_bitrate_le_bitrate. now apply Hleast.
Qed.

(** X2.  With both [maxheight = H] and [maxbitrate = B], and at least one
    backend-enabled flavor: when some enabled flavor is within both
    ceilings, the selected one is within both and is the tallest such
    flavor, the one with the highest bitrate among the tallest; when no
    flavor is within both, the selected one is the lowest of all flavors,
    the one with the lowest bitrate among the lowest, whether or not some
    flavor meets one of the two ceilings. *)
Theorem both_limits_selection : forall flavors filters H B,
  maxheight filters = Some H ->
  maxbitrate filters = Some B ->
  enabled_flavors flavors filters <> [] ->
  exists sel,
    select_flavor flavors filters = Some sel /\
    In sel (enabled_flavors flavors filters) /\
    ((exists fl, In fl (enabled_flavors flavors filters) /\
                 or0 (height fl) <= H /\ or0 (bitrate fl) <= B) ->
     or0 (height sel) <= H /\ or0 (bitrate sel) <= B /\
     forall fl, In fl (enabled_flavors flavors filters) ->
                or0 (height fl) <= H -> or0 (bitrate fl) <= B ->
                or0 (height fl) < or0 (height sel) \/
                (or0 (height fl) = or0 (height sel) /\
                 or0 (bitrate fl) <= or0 (bitrate sel))) /\
    ((forall fl, In fl (enabled_flavors flavors filters) ->
                 or0 (height fl) > H \/ or0 (bitrate fl) > B) ->
     forall fl, In fl (enabled_flavors flavors filters) ->
                or0 (height sel) < or0 (height fl) \/
                (or0 (height sel) = or0 (height fl) /\
                 or0 (bitrate sel) <= or0 (bitrate fl))).
Proof.
  intros flavors filters H B Hh Hb Hne.
  rewrite (select_flavor_enabled FailedFlavor set_iter) by exact Hne.
  set (en := enabled_flavors flavors filters) in *.
  unfold apply_resolution_filters. rewrite Hh, Hb. simpl.
  destruct (nonempty (filter (within_limits filters) en)) eqn:E.
  - apply nonempty_true in E.
    destruct (pick_ascending _ max_both_trans max_both_lt_le _ E)
      as (sel & Hsel & Hin & Hmax).
    apply filter_In in Hin. destruct Hin as [Hin Hw].
    rewrite (within_limits_both _ _ _ _ Hh Hb) in Hw.
    apply andb_true_iff in Hw. destruct Hw as [Hw1 Hw2].
    exists sel. split; [exact Hsel|]. split; [exact Hin|]. split.
    + intros _. split; [lia|]. split; [lia|]. intros fl Hfl Hle1 Hle2.
      apply max_both_le. apply Hmax. apply filter_In.
      split; [exact Hfl|]. rewrite (within_limits_both _ _ _ _ Hh Hb).
      apply andb_true_iff. split; lia.
    + intros Hall. specialize (Hall sel Hin). lia.
  - apply nonempty_false in E.
    destruct (pick_descending _ max_both_trans max_both_lt_le _ Hne)
      as (sel & Hsel & Hin & Hleast).
    exists sel. split; [exact Hsel|]. split; [exact Hin|]. split.
    + intros (fl & Hfl & Hle1 & Hle2). exfalso.
      assert (Hf : In fl (filter (within_limits filters) en)).
      { apply filter_In. split; [exact Hfl|].
        rewrite (within_limits_both _ _ _ _ Hh Hb).
        apply andb_true_iff. split; lia. }
      rewrite E in Hf. exact Hf.
    + intros _ fl Hfl. apply max_both_le. now apply Hleast.
Qed.

(** X3.  With [maxheight = H] and no [maxbitrate], and at least one
    backend-enabled flavor, the selected flavor is one of the
    backend-enabled flavors.  When some enabled flavor has height at most
    [H], the selected one has height at most [H], is the tallest such
    flavor and has the lowest bitrate among the tallest; when all of them
    exceed [H], it exceeds [H] too, is the lowest flavor and has the
    highest bitrate among the lowest. *)
Theorem maxheight_tie_break : forall flavors filters H,
  maxheight filters = Some H ->
  maxbitrate filters = None ->
  enabled_flavors flavors filters <> [] ->
  exists sel,
    select_flavor flavors filters = Some sel /\
    In sel (enabled_flavors flavors filters) /\
    ((exists fl, In fl (enabled_flavors flavors filters) /\ or0 (height fl) <= H) ->
     or0 (height sel) <= H /\
     forall fl, In fl (enabled_flavors flavors filters) ->
                or0 (height fl) <= H ->
                or0 (height fl) < or0 (height sel) \/
                (or0 (height fl) = or0 (height sel) /\
                 or0 (bitrate sel) <= or0 (bitrate fl))) /\
    ((forall fl, In fl (enabled_flavors flavors filters) -> or0 (height fl) > H) ->
     or0 (height sel) > H /\
     forall fl, In fl (enabled_flavors flavors filters) ->
                or0 (height sel) < or0 (height fl) \/
                (or0 (height sel) = or0 (height fl) /\
                 or0 (bitrate fl) <= or0 (bitrate sel))).
Proof.
  intros flavors filters H Hh Hb Hne.
  rewrite (select_flavor_enabled FailedFlavor set_iter) by exact Hne.
  set (en := enabled_flavors flavors filters) in *.
  unfold apply_resolution_filters. rewrite Hh, Hb. simpl.
  destruct (nonempty (filter (within_limits filters) en)) eqn:E.
  - apply nonempty_true in E.
    destruct (pick_ascending _ min_bitrate_trans min_bitrate_lt_le _ E)
      as (sel & Hsel & Hin & Hmax).
    apply filter_In in Hin. destruct Hin as [Hin Hw].
    rewrite (within_limits_height _ _ _ Hh Hb) in Hw.
    exists sel. split; [exact Hsel|]. split; [exact Hin|]. split.
    + intros _. split; [lia|]. intros fl Hfl Hle.
      apply min_bitrate_le. apply Hmax. apply filter_In.
      split; [exact Hfl|]. rewrite (within_limits_height _ _ _ Hh Hb). lia.
    + intros Hall. specialize (Hall sel Hin). lia.
  - apply nonempty_false in E.
    destruct (pick_descending _ min_bitrate_trans min_bitrate_lt_le _ Hne)
      as (sel & Hsel & Hin & Hleast).
    exists sel. split; [exact Hsel|]. split; [exact Hin|]. split.
    + intros (fl & Hfl & Hle). exfalso.
      assert (Hf : In fl (filter (within_limits filters) en)).
      { apply filter_In. split; [exact Hfl|].
        rewrite (within_limits_height _ _ _ Hh Hb). lia. }
      rewrite E in Hf. exact Hf.
    + intros Hall. split; [exact (Hall sel Hin)|].
      intros fl Hfl. apply min_bitrate_le. now apply Hleast.
Qed.
End MoreSelection.

(** ** Ties *)

Lemma last_item_cons {A : Type} : forall (y : A) l,
  l <> [] -> last_item (y :: l) = last_item l.
Proof. intros y [|z l] H; [congruence | reflexivity]. Qed.

Lemma last_item_split {A : Type} : forall (l : list A) x,
  last_item l = Some x -> exists l', l = l' ++ [x].
Proof.
  induction l as [|y l IH]; intros x H; [discriminate|].
  destruct l as [|z l'].
  - simpl in H. injection H as <-. now exists [].
  - destruct (IH x H) as [l'' E]. exists (y :: l''). simpl. now rewrite <- E.
Qed.

Section TieFacts.
Context {A : Type}.
Variable key : A -> Key.

Lemma insert_stable_nonempty : forall x l, insert_stable key x l <> [].
Proof.
  intros x [|y l]; simpl; [discriminate|].
  destruct (key_lt (key y) (key x)); discriminate.
Qed.

Lemma insert_keeps_last : forall a l x,
  key_lt (key x) (key a) = false ->
  last_item (insert_stable key a (l ++ [x])) = Some x.
Proof.
  intros a l x Hle. induction l as [|y l IH]; simpl.
  - now rewrite Hle.
  - destruct (key_lt (key y) (key a)).
    + rewrite last_item_cons by apply insert_stable_nonempty. exact IH.
    + change (last_item (a :: (y :: l) ++ [x]) = Some x).
      rewrite last_item_cons by (simpl; discriminate).
      apply last_item_app.
Qed.

Lemma insert_greatest_at_end : forall x l,
  (forall y, In y l -> key_lt (key y) (key x) = true) ->
  insert_stable key x l = l ++ [x].
Proof.
  intros x l. induction l as [|y l IH]; intros H; [reflexivity|].
  simpl. rewrite (H y (or_introl eq_refl)). f_equal.
  apply IH. intros z Hz. apply H. now right.
Qed.

(** Ascending: of the elements with the greatest key, the one listed
    last is the last. *)
Lemma sort_tie_last : forall l1 x l2,
  (forall y, In y l1 -> key_lt (key x) (key y) = false) ->
  (forall y, In y l2 -> key_lt (key y) (key x) = true) ->
  last_item (sort_stable key (l1 ++ x :: l2)) = Some x.
Proof.
  induction l1 as [|a l1 IH]; intros x l2 H1 H2.
  - change (sort_stable key ([] ++ x :: l2))
      with (insert_stable key x (sort_stable key l2)).
    rewrite insert_greatest_at_end; [apply last_item_app|].
    intros y Hy. apply H2.
    eapply Permutation_in; [apply sort_stable_perm | exact Hy].
  - change (sort_stable key ((a :: l1) ++ x :: l2))
      with (insert_stable key a (sort_stable key (l1 ++ x :: l2))).
    destruct (last_item_split _ _ (IH x l2 (fun y Hy => H1 y (or_intror Hy)) H2))
      as [l' E].
    rewrite E. apply insert_keeps_last. apply H1. now left.
Qed.

(** Sorting in place: of the elements with the least key, the one that
    comes first stays first if all before it are strictly greater. *)
Lemma sort_tie_head : forall l1 x l2,
  (forall y, In y l1 -> key_lt (key x) (key y) = true) ->
  (forall y, In y l2 -> key_lt (key y) (key x) = false) ->
  hd_error (sort_stable key (l1 ++ x :: l2)) = Some x.
Proof.
  induction l1 as [|b l1 IH]; intros x l2 H1 H2.
  - change (sort_stable key ([] ++ x :: l2))
      with (insert_stable key x (sort_stable key l2)).
    destruct (sort_stable key l2) as [|y t] eqn:E; [reflexivity|].
    simpl. rewrite H2; [reflexivity|].
    eapply Permutation_in; [apply sort_stable_perm|].
    rewrite E. now left.
  - change (sort_stable key ((b :: l1) ++ x :: l2))
      with (insert_stable key b (sort_stable key (l1 ++ x :: l2))).
    specialize (IH x l2 (fun y Hy => H1 y (or_intror Hy)) H2).
    destruct (sort_stable key (l1 ++ x :: l2)) as [|h t]; [discriminate|].
    simpl in IH. injection IH as ->. simpl.
    now rewrite (H1 b (or_introl eq_refl)).
Qed.

(** [sorted(l, key)[-1]] and [sorted(l, key, reverse=True)[-1]]: among
    the elements with the best key, the one listed last. *)
Lemma pick_ascending_tie : forall l1 x l2,
  (forall y, In y l1 -> key_lt (key x) (key y) = false) ->
  (forall y, In y l2 -> key_lt (key y) (key x) = true) ->
  last_item (sorted key (l1 ++ x :: l2) false) = Some x.
Proof. intros. unfold sorted. now apply sort_tie_last. Qed.

Lemma pick_descending_tie : forall l1 x l2,
  (forall y, In y l1 -> key_lt (key y) (key x) = false) ->
  (forall y, In y l2 -> key_lt (key x) (key y) = true) ->
  last_item (sorted key (l1 ++ x :: l2) true) = Some x.
Proof.
  intros l1 x l2 H1 H2. unfold sorted. rewrite last_item_rev.
  rewrite rev_app_distr. simpl. rewrite <- app_assoc. simpl.
  apply sort_tie_head.
  - intros y Hy. apply H2. now apply in_rev.
  - intros y Hy. apply H1. now apply in_rev.
Qed.
End TieFacts.

Section BackendFilterFacts.
Import FlavorFilter FlavorFilterFacts.
Variable FailedFlavor : option string -> StreamFlavor.
Variable set_iter : list string -> list string.

(** X4.  With no ceiling at all, when several backend-enabled flavors share
    the highest bitrate, the one listed last among them is selected. *)
Theorem default_tie_goes_to_last_listed : forall flavors filters l1 x l2,
  maxheight filters = None ->
  maxbitrate filters = None ->
  enabled_flavors flavors filters = l1 ++ x :: l2 ->
  (forall y, In y l1 -> or0 (bitrate y) <= or0 (bitrate x)) ->
  (forall y, In y l2 -> or0 (bitrate y) < or0 (bitrate x)) ->
  select_flavor FailedFlavor set_iter flavors filters = Some x.
Proof.
  intros flavors filters l1 x l2 Hh Hb Hen H1 H2.
  assert (Hne : enabled_flavors flavors filters <> []).
  { rewrite Hen. now destruct l1. }
  rewrite (select_flavor_enabled FailedFlavor set_iter) by exact Hne.
  unfold apply_resolution_filters. rewrite Hh, Hb. simpl.
  assert (Hall : filter (within_limits filters) (enabled_flavors flavors filters)
                 = enabled_flavors flavors filters).
  { apply forallb_filter_id. apply forallb_forall. intros y _.
    unfold within_limits. now rewrite Hh, Hb. }
  rewrite Hall. apply nonempty_true in Hne. rewrite Hne, Hen.
  apply pick_ascending_tie.
  - intros y Hy. specialize (H1 y Hy). unfold sort_max_bitrate. simpl. lia.
  - intros y Hy. specialize (H2 y Hy). unfold sort_max_bitrate. simpl. lia.
Qed.

Lemma apply_backend_filter_nonempty : forall flavors filters,
  flavors <> [] -> apply_backend_filter FailedFlavor set_iter flavors filters <> [].
Proof.
  intros flavors filters Hne.
  destruct (enabled_flavors flavors filters) as [|fl l] eqn:E.
  - rewrite apply_backend_filter_failed by assumption. discriminate.
  - rewrite apply_backend_filter_enabled by (rewrite E; discriminate).
    rewrite E. discriminate.
Qed.

(** X5.  [select_flavor] and [select_streams] return [None] for an empty
    flavor list and for no other: whenever there is a flavor, a flavor is
    selected, be it a failure flavor. *)
Theorem nothing_selected_iff_no_flavors : forall flavors filters,
  (select_flavor FailedFlavor set_iter flavors filters = None <-> flavors = []) /\
  (select_streams FailedFlavor set_iter flavors filters = None <-> flavors = []).
Proof.
  intros flavors filters.
  assert (H : select_flavor FailedFlavor set_iter flavors filters = None
              <-> flavors = []).
  { split.
    - intros Hnone. destruct flavors as [|fl l]; [reflexivity|]. exfalso.
      rewrite select_flavor_last in Hnone by discriminate.
      destruct (last_item_nonempty
                  (apply_resolution_filters
                     (apply_backend_filter FailedFlavor set_iter (fl :: l) filters)
                     filters)) as [m Hm].
      + apply apply_resolution_filters_nonempty.
        apply apply_backend_filter_nonempty. discriminate.
      + congruence.
    - intros ->. reflexivity. }
  split; [exact H|].
  unfold FlavorFilter.select_streams.
  destruct (select_flavor FailedFlavor set_iter flavors filters) eqn:E.
  - split; [discriminate|]. intros Hf. apply H in Hf. discriminate.
  - split; [intros _; now apply H | reflexivity].
Qed.

Lemma filtered_stream_spec : forall filters fl s,
  In s (streams (filter_streams_by_backend filters fl)) <->
  In s (streams fl) /\ In (name s) (enabled_backends filters).
Proof.
  intros filters fl s. unfold filter_streams_by_backend. simpl.
  rewrite in_flat_map. split.
  - intros (be & Hbe & Hs). apply filter_In in Hs. destruct Hs as [Hs Hn].
    apply String.eqb_eq in Hn. subst be. auto.
  - intros [Hs Hn]. exists (name s). split; [exact Hn|].
    apply filter_In. split; [exact Hs | apply String.eqb_refl].
Qed.

Lemma select_flavor_in_enabled : forall flavors filters,
  enabled_flavors flavors filters <> [] ->
  exists sel, select_flavor FailedFlavor set_iter flavors filters = Some sel /\
              In sel (enabled_flavors flavors filters).
Proof.
  intros flavors filters Hne.
  rewrite (select_flavor_enabled FailedFlavor set_iter) by exact Hne.
  set (en := enabled_flavors flavors filters) in *.
  destruct (last_item_nonempty (apply_resolution_filters en filters)) as [sel Hsel].
  { now apply apply_resolution_filters_nonempty. }
  exists sel. split; [exact Hsel|].
  apply last_item_In in Hsel.
  apply (Permutation_in _ (apply_resolution_filters_perm en filters)) in Hsel.
  destruct (nonempty (filter (within_limits filters) en)); [|exact Hsel].
  apply filter_In in Hsel. tauto.
Qed.

(** X6.  When some flavor has a stream of an enabled backend,
    [select_streams] returns a non-empty candidate list, all of one
    flavor of the input: every candidate is a stream of that flavor and
    belongs to an enabled backend, and every stream of that flavor that
    belongs to an enabled backend is a candidate. *)
Theorem candidates_are_enabled_streams : forall flavors filters,
  enabled_flavors flavors filters <> [] ->
  exists candidates fl,
    select_streams FailedFlavor set_iter flavors filters = Some candidates /\
    candidates <> [] /\
    In fl flavors /\
    forall s, In s candidates <->
              In s (streams fl) /\ In (name s) (enabled_backends filters).
Proof.
  intros flavors filters Hne.
  destruct (select_flavor_in_enabled flavors filters Hne) as (sel & Hsel & Hin).
  unfold enabled_flavors in Hin. apply filter_In in Hin.
  destruct Hin as [Hin Hstreams]. apply in_map_iff in Hin.
  destruct Hin as (fl & <- & Hfl).
  exists (streams (filter_streams_by_backend filters fl)), fl.
  unfold FlavorFilter.select_streams. rewrite Hsel.
  split; [reflexivity|]. split; [now apply nonempty_true|].
  split; [exact Hfl|]. intros s. apply filtered_stream_spec.
Qed.
End BackendFilterFacts.

Section BackendPreference.
Import FlavorFilter.

Lemma StronglySorted_app {A : Type} (R : A -> A -> Prop) : forall l1 l2,
  StronglySorted R l1 -> StronglySorted R l2 ->
  (forall x y, In x l1 -> In y l2 -> R x y) ->
  StronglySorted R (l1 ++ l2).
Proof.
  intros l1 l2 H1 H2 H12. induction H1 as [|x l1 H1 IH Hx]; [exact H2|].
  simpl. constructor.
  - apply IH. intros a b Ha. apply H12. now right.
  - apply Forall_app. split; [exact Hx|].
    apply Forall_forall. intros y Hy. apply H12; [now left | exact Hy].
Qed.

Lemma StronglySorted_impl_in {A : Type} (R R' : A -> A -> Prop) : forall l,
  (forall x y, In x l -> In y l -> R x y -> R' x y) ->
  StronglySorted R l -> StronglySorted R' l.
Proof.
  intros l Himp Hs. induction Hs as [|x l Hs IH Hx]; [constructor|].
  constructor.
  - apply IH. intros a b Ha Hb. apply Himp; now right.
  - rewrite Forall_forall in *. intros y Hy.
    apply Himp; [now left | now right | now apply Hx].
Qed.

Lemma preference_sorted : forall (ss : list Stream) bes,
  NoDup bes ->
  StronglySorted (fun a b => (index_of (name a) bes <= index_of (name b) bes)%nat)
    (flat_map (fun be => filter (fun d => String.eqb (name d) be) ss) bes).
Proof.
  intros ss bes Hnd. induction Hnd as [|b bs Hnotin Hnd IH]; [constructor|].
  cbn [flat_map]. apply StronglySorted_app.
  - assert (H0 : forall s, In s (filter (fun d => String.eqb (name d) b) ss) ->
                           index_of (name s) (b :: bs) = O).
    { intros s Hs. apply filter_In in Hs. destruct Hs as [_ Hn].
      apply String.eqb_eq in Hn. simpl. rewrite Hn. now rewrite String.eqb_refl. }
    induction (filter (fun d => String.eqb (name d) b) ss) as [|s l IHl];
      [constructor|].
    constructor.
    + apply IHl. intros s' Hs'. apply H0. now right.
    + apply Forall_forall. intros y Hy.
      rewrite (H0 s (or_introl eq_refl)). apply Nat.le_0_l.
  - eapply StronglySorted_impl_in; [|exact IH].
    intros x y Hx Hy Hle.
    assert (Hshift : forall s,
              In s (flat_map (fun be => filter (fun d => String.eqb (name d) be) ss) bs) ->
              index_of (name s) (b :: bs) = S (index_of (name s) bs)).
    { intros s Hs. apply in_flat_map in Hs. destruct Hs as (be & Hbe & Hs).
      apply filter_In in Hs. destruct Hs as [_ Hn]. apply String.eqb_eq in Hn.
      simpl. destruct (String.eqb b (name s)) eqn:E; [|reflexivity].
      apply String.eqb_eq in E. exfalso. apply Hnotin. congruence. }
    rewrite (Hshift x Hx), (Hshift y Hy). now apply le_n_S.
  - intros x y Hx Hy. apply filter_In in Hx. destruct Hx as [_ Hn].
    apply String.eqb_eq in Hn. simpl. rewrite Hn, String.eqb_refl.
    apply Nat.le_0_l.
Qed.

(** X7.  When no backend is listed twice in [enabled_backends], the
    streams the backend filter leaves in a flavor come in the order of
    backend preference: a stream never precedes one of a backend listed
    earlier. *)
Theorem streams_follow_backend_preference : forall filters fl,
  NoDup (enabled_backends filters) ->
  StronglySorted
    (fun a b => (index_of (name a) (enabled_backends filters)
                 <= index_of (name b) (enabled_backends filters))%nat)
    (streams (filter_streams_by_backend filters fl)).
Proof.
  intros filters fl Hnd. unfold filter_streams_by_backend. simpl.
  now apply preference_sorted.
Qed.

Lemma filtered_streams_nonempty : forall filters fl,
  nonempty (streams (filter_streams_by_backend filters fl))
    = has_enabled_stream filters fl.
Proof.
  intros filters fl. apply Bool.eq_iff_eq_true.
  rewrite nonempty_true. unfold has_enabled_stream, filter_streams_by_backend.
  simpl. rewrite existsb_exists. split.
  - intros Hne.
    destruct (flat_map _ (enabled_backends filters)) as [|s l] eqn:E;
      [congruence|].
    assert (Hs : In s (flat_map
                         (fun be => filter (fun d => String.eqb (name d) be)
                                           (streams fl))
                         (enabled_backends filters))) by (rewrite E; now left).
    apply in_flat_map in Hs. destruct Hs as (be & Hbe & Hs).
    apply filter_In in Hs. destruct Hs as [Hs Hn].
    exists s. split; [exact Hs|]. apply existsb_exists. exists be. auto.
  - intros (s & Hs & Hex). apply existsb_exists in Hex.
    destruct Hex as (be & Hbe & Hn). intros Hnil.
    assert (Hin : In s (flat_map
                          (fun be => filter (fun d => String.eqb (name d) be)
                                            (streams fl))
                          (enabled_backends filters))).
    { apply in_flat_map. exists be. split; [exact Hbe|].
      apply filter_In. auto. }
    rewrite Hnil in Hin. exact Hin.
Qed.

(** X8.  The backend filter keeps the flavors that have a stream of an
    enabled backend, in their order, and leaves their media type, height,
    width and bitrate as they are. *)
Theorem backend_filter_keeps_attributes : forall flavors filters,
  map attributes (enabled_flavors flavors filters)
    = map attributes (filter (has_enabled_stream filters) flavors).
Proof.
  intros flavors filters. unfold enabled_flavors.
  induction flavors as [|fl l IH]; [reflexivity|].
  rewrite map_cons. cbn [filter]. rewrite filtered_streams_nonempty.
  destruct (has_enabled_stream filters fl); [|exact IH].
  rewrite !map_cons, IH. reflexivity.
Qed.
End BackendPreference.


(** * Further properties of the retry loop *)

Lemma last_item_removelast {A : Type} : forall (l : list A) a,
  last_item l = Some a -> l = removelast l ++ [a].
Proof.
  induction l as [|x l IH]; intros a H; [discriminate|].
  destruct l as [|y l'].
  - simpl in H. injection H as <-. reflexivity.
  - change (removelast (x :: y :: l')) with (x :: removelast (y :: l')).
    simpl. f_equal. apply IH. exact H.
Qed.

Lemma find_filter_hd {A : Type} (p : A -> bool) : forall l,
  find p l = hd_error (filter p l).
Proof.
  induction l as [|x l IH]; [reflexivity|].
  simpl. destruct (p x); [reflexivity | exact IH].
Qed.

Section MoreRetryFacts.
Import Downloader.
Context {World : Type}.
Variable os : Os World.
Variable streamfunc : @StreamFunc World.
Variable clip : Clip.
Variable needs_retry : ResultCode -> bool.

Abbreviation loop := (try_all_streams_loop os streamfunc clip needs_retry).

(** An attempt whose result is not retryable is the last one, and its
    result is the result of the loop. *)
Lemma terminal_attempt_is_last : forall candidates latest out w s r,
  In (s, r) (attempts (events (loop latest out candidates w))) ->
  needs_retry r = false ->
  result (loop latest out candidates w) = r /\
  exists earlier,
    attempts (events (loop latest out candidates w)) = earlier ++ [(s, r)].
Proof.
  intros candidates latest out w s r Hin Hterm.
  destruct (loop_attempts os streamfunc clip needs_retry candidates latest out w)
    as (Hre & untried & _ & Hlast).
  cbv zeta in Hre, Hlast.
  set (atts := attempts (events (loop latest out candidates w))) in *.
  destruct (last_item atts) as [[s' r']|] eqn:El.
  - pose proof (last_item_removelast _ _ El) as E.
    rewrite E in Hin. apply in_app_or in Hin. destruct Hin as [Hin|Hin].
    + rewrite Forall_forall in Hre. specialize (Hre _ Hin). simpl in Hre.
      congruence.
    + destruct Hin as [Heq|[]]. injection Heq as -> ->.
      split; [tauto|]. exists (removelast atts). exact E.
  - destruct atts as [|a l]; [destruct Hin|].
    destruct (last_item_nonempty (a :: l)) as [m Hm]; [discriminate|].
    congruence.
Qed.

(** The result of the loop is the result of some attempt, or the result
    it started from when nothing was attempted. *)
Lemma loop_result_source : forall candidates latest out w,
  (attempts (events (loop latest out candidates w)) = [] /\
   result (loop latest out candidates w) = latest) \/
  exists s, In (s, result (loop latest out candidates w))
               (attempts (events (loop latest out candidates w))).
Proof.
  intros candidates latest out w.
  destruct (loop_attempts os streamfunc clip needs_retry candidates latest out w)
    as (_ & untried & _ & Hlast).
  cbv zeta in Hlast.
  set (atts := attempts (events (loop latest out candidates w))) in *.
  destruct (last_item atts) as [[s' r']|] eqn:El.
  - right. exists s'. destruct Hlast as [-> _]. now apply last_item_In.
  - left. destruct atts as [|a l]; [tauto|].
    destruct (last_item_nonempty (a :: l)) as [m Hm]; [discriminate|].
    congruence.
Qed.

(** What the loop does ends with an attempt, whose result is returned. *)
Lemma loop_ends_with_attempt : forall candidates latest out w,
  loop latest out candidates w = (latest, w, []) \/
  exists before s inner r o,
    events (loop latest out candidates w) = before ++ [Attempt s inner r o] /\
    result (loop latest out candidates w) = r.
Proof.
  induction candidates as [|s cs IH]; intros latest out w.
  - now left.
  - destruct (is_valid s) eqn:Hv.
    2:{ rewrite loop_invalid by exact Hv. apply IH. }
    right. rewrite loop_valid by exact Hv. cbv zeta.
    set (c := cleanup os out w).
    set (a := streamfunc clip s (world_after c)).
    cbn [events result fst snd].
    destruct (needs_retry (fst (result a))).
    + destruct (IH (fst (result a)) (snd (result a)) (world_after a))
        as [E | (before & s' & inner & r & o & E & Hr)].
      * rewrite E. cbn [events result fst snd].
        exists (events c ++ [Log DEBUG ("Now trying downloader " ++ name s)%string]),
               s, (events a), (fst (result a)), (snd (result a)).
        split; [now rewrite <- app_assoc | reflexivity].
      * rewrite E, Hr.
        exists (events c ++ Log DEBUG ("Now trying downloader " ++ name s)%string
                  :: Attempt s (events a) (fst (result a)) (snd (result a))
                  :: before), s', inner, r, o.
        split; [|reflexivity].
        rewrite <- app_assoc. reflexivity.
    + exists (events c ++ [Log DEBUG ("Now trying downloader " ++ name s)%string]),
             s, (events a), (fst (result a)), (snd (result a)).
      split; [now rewrite <- app_assoc | reflexivity].
Qed.

Lemma loop_no_valid : forall candidates latest out w,
  (forall s, In s candidates -> is_valid s = false) ->
  loop latest out candidates w = (latest, w, []).
Proof.
  induction candidates as [|s cs IH]; intros latest out w H; [reflexivity|].
  rewrite loop_invalid by (apply H; now left).
  apply IH. intros s' Hs'. apply H. now right.
Qed.

Lemma loop_first_attempt : forall candidates latest out w s,
  find is_valid candidates = Some s ->
  exists r later,
    attempts (events (loop latest out candidates w)) = (s, r) :: later.
Proof.
  intros candidates latest out w s Hfind.
  destruct (loop_attempts os streamfunc clip needs_retry candidates latest out w)
    as (_ & untried & Hf & Hlast).
  cbv zeta in Hf, Hlast.
  set (atts := attempts (events (loop latest out candidates w))) in *.
  rewrite find_filter_hd in Hfind.
  destruct atts as [|[s' r] later].
  - simpl in Hlast. destruct Hlast as [-> _]. simpl in Hf.
    rewrite Hf in Hfind. discriminate.
  - exists r, later. simpl in Hf. rewrite Hf in Hfind.
    simpl in Hfind. injection Hfind as ->. reflexivity.
Qed.

(** The first call of the stream function: on the first valid candidate,
    in the world the loop starts in when there is nothing to clean up. *)
Lemma loop_first_call : forall candidates latest w s,
  find is_valid candidates = Some s ->
  exists later,
    attempts (events (loop latest None candidates w))
      = (s, fst (result (streamfunc clip s w))) :: later.
Proof.
  induction candidates as [|c cs IH]; intros latest w s Hfind; [discriminate|].
  cbn [find] in Hfind. destruct (is_valid c) eqn:Hv.
  - injection Hfind as ->. rewrite loop_valid by exact Hv. cbv zeta.
    change (cleanup os None w) with (tt, w, @nil Event).
    cbn [world_after events fst snd app attempts]. eexists. reflexivity.
  - rewrite loop_invalid by exact Hv. now apply IH.
Qed.

(** X9.  A call of [try_all_streams] on candidates none of which is valid
    does nothing and returns failed.  Any other call ends with an attempt,
    whose result it returns: nothing is removed after the last attempt,
    so the partial file of a download that failed on every backend is
    left behind. *)
Theorem try_all_streams_ends_with_attempt : forall candidates w,
  ((forall s, In s candidates -> is_valid s = false) ->
   try_all_streams os streamfunc clip candidates needs_retry w = (RD_FAILED, w, [])) /\
  ((exists s, In s candidates /\ is_valid s = true) ->
   exists before s inner r o,
     events (try_all_streams os streamfunc clip candidates needs_retry w)
       = before ++ [Attempt s inner r o] /\
     result (try_all_streams os streamfunc clip candidates needs_retry w) = r).
Proof.
  intros candidates w. unfold try_all_streams. split.
  - apply loop_no_valid.
  - intros (s & Hs & Hv).
    destruct (loop_ends_with_attempt candidates RD_FAILED None w) as [E|H];
      [|exact H].
    exfalso.
    destruct (find is_valid candidates) as [s0|] eqn:Ef.
    + destruct (loop_first_attempt candidates RD_FAILED None w s0 Ef)
        as (r & later & Ea).
      rewrite E in Ea. discriminate.
    + apply (find_none _ _ Ef) in Hs. congruence.
Qed.
End MoreRetryFacts.

Section RetryPolicies.
Import Downloader.
Context {World : Type}.
Variable os : Os World.
Variable streamfunc : @StreamFunc World.
Variable clip : Clip.

Lemma rd_eqb_eq : forall a b, rd_eqb a b = true <-> a = b.
Proof. intros a b. destruct a, b; simpl; split; congruence. Qed.

(** X10.  Saving to disk: an attempt that returns success or incomplete
    is the last attempt and its result is the result of
    [try_all_streams], so an incomplete download is never retried on
    another backend; and [try_all_streams] returns success, or
    incomplete, only when an attempt has returned it. *)
Theorem download_retry_policy : forall candidates w,
  let run := try_all_streams os streamfunc clip candidates download_needs_retry w in
  let atts := attempts (events run) in
  (forall s r, In (s, r) atts -> r = RD_SUCCESS \/ r = RD_INCOMPLETE ->
     result run = r /\ exists earlier, atts = earlier ++ [(s, r)]) /\
  (result run = RD_SUCCESS -> exists s, In (s, RD_SUCCESS) atts) /\
  (result run = RD_INCOMPLETE -> exists s, In (s, RD_INCOMPLETE) atts).
Proof.
  intros candidates w run atts. unfold run, atts, try_all_streams. split; [|split].
  - intros s r Hin Hr.
    apply (terminal_attempt_is_last os streamfunc clip download_needs_retry
             candidates RD_FAILED None w s r Hin).
    destruct Hr as [-> | ->]; reflexivity.
  - intros Hres.
    destruct (loop_result_source os streamfunc clip download_needs_retry
                candidates RD_FAILED None w) as [[_ E]|[s Hs]].
    + congruence.
    + exists s. now rewrite <- Hres.
  - intros Hres.
    destruct (loop_result_source os streamfunc clip download_needs_retry
                candidates RD_FAILED None w) as [[_ E]|[s Hs]].
    + congruence.
    + exists s. now rewrite <- Hres.
Qed.

(** X11.  Piping: only a failure to launch the subprocess leads to the
    next candidate.  An attempt that returns anything else is the last
    attempt and its result is the result of [try_all_streams]; and when
    [try_all_streams] returns the launch failure, every valid candidate
    has been tried and every attempt has returned it. *)
Theorem pipe_retry_policy : forall candidates w,
  let run := try_all_streams os streamfunc clip candidates pipe_needs_retry w in
  let atts := attempts (events run) in
  (forall s r, In (s, r) atts -> r <> RD_SUBPROCESS_EXECUTE_FAILED ->
     result run = r /\ exists earlier, atts = earlier ++ [(s, r)]) /\
  (result run = RD_SUBPROCESS_EXECUTE_FAILED ->
   map fst atts = filter is_valid candidates /\
   forall s r, In (s, r) atts -> r = RD_SUBPROCESS_EXECUTE_FAILED).
Proof.
  intros candidates w run atts. unfold run, atts, try_all_streams. split.
  - intros s r Hin Hr.
    apply (terminal_attempt_is_last os streamfunc clip pipe_needs_retry
             candidates RD_FAILED None w s r Hin).
    unfold pipe_needs_retry. destruct r; try reflexivity. congruence.
  - intros Hres.
    destruct (loop_attempts os streamfunc clip pipe_needs_retry candidates
                RD_FAILED None w) as (Hre & untried & Hf & Hlast).
    cbv zeta in Hre, Hf, Hlast.
    set (l := attempts (events (try_all_streams_loop os streamfunc clip
                                  pipe_needs_retry RD_FAILED None candidates w))) in *.
    destruct (last_item l) as [[s' r']|] eqn:El.
    + destruct Hlast as [Hr Hun]. rewrite Hres in Hr. subst r'.
      rewrite (Hun eq_refl), app_nil_r in Hf. split; [now symmetry|].
      intros s r Hin. change (In (s, r) l) in Hin.
      rewrite (last_item_removelast _ _ El) in Hin.
      apply in_app_or in Hin. destruct Hin as [Hin|[Heq|[]]].
      * rewrite Forall_forall in Hre. specialize (Hre _ Hin). simpl in Hre.
        now apply rd_eqb_eq in Hre.
      * congruence.
    + destruct Hlast as [_ Hr]. congruence.
Qed.
End RetryPolicies.


(** * Further properties of the playlist loop *)

Lemma last_cons_default {A : Type} : forall (l : list A) x d,
  last (x :: l) d = last l x.
Proof.
  induction l as [|y l IH]; intros x d; [reflexivity|].
  change (last (x :: y :: l) d) with (last (y :: l) d).
  rewrite (IH y d), (IH y x). reflexivity.
Qed.

Lemma fold_aggregate_latest : forall outcomes status,
  status <> RD_FAILED ->
  ~ In RD_FAILED outcomes ->
  fold_left aggregate outcomes status =
    last (filter (fun o => negb (rd_eqb o RD_SUCCESS)) outcomes) status.
Proof.
  induction outcomes as [|o l IH]; intros status Hs Hnf; [reflexivity|].
  cbn [fold_left filter].
  assert (Ho : o <> RD_FAILED) by (intros ->; apply Hnf; now left).
  assert (Hl : ~ In RD_FAILED l) by (intros H; apply Hnf; now right).
  destruct o; try congruence.
  - replace (aggregate status RD_SUCCESS) with status by now destruct status.
    cbn [rd_eqb negb]. now apply IH.
  - replace (aggregate status RD_INCOMPLETE) with RD_INCOMPLETE
      by (destruct status; cbn; congruence).
    cbn [rd_eqb negb]. rewrite last_cons_default. apply IH; [discriminate | exact Hl].
  - replace (aggregate status RD_SUBPROCESS_EXECUTE_FAILED)
      with RD_SUBPROCESS_EXECUTE_FAILED by (destruct status; cbn; congruence).
    cbn [rd_eqb negb]. rewrite last_cons_default. apply IH; [discriminate | exact Hl].
Qed.

Lemma fold_aggregate_not_failed : forall outcomes status,
  status <> RD_FAILED ->
  ~ In RD_FAILED outcomes ->
  fold_left aggregate outcomes status <> RD_FAILED.
Proof.
  induction outcomes as [|o l IH]; intros status Hs Hnf; [exact Hs|].
  cbn [fold_left]. apply IH.
  - assert (Ho : o <> RD_FAILED) by (intros ->; apply Hnf; now left).
    destruct status, o; cbn; congruence.
  - intros H. apply Hnf. now right.
Qed.

Lemma all_success_nothing_left : forall outcomes,
  (forall o, In o outcomes -> o = RD_SUCCESS) ->
  filter (fun o => negb (rd_eqb o RD_SUCCESS)) outcomes = [].
Proof.
  induction outcomes as [|o l IH]; intros Hall; [reflexivity|].
  cbn [filter]. rewrite (Hall o (or_introl eq_refl)). cbn.
  apply IH. intros o' Ho'. apply Hall. now right.
Qed.

Section MoreProcessFacts.
Import Downloader.
Context {World : Type}.
Variable extractor : Extractor World.
Variable geolocation : Geolocation World.
Variable backends : Backends World.
Variable os : Os World.
Variable to_external_rd_code : ResultCode -> ResultCode.
Variable FailedFlavor : option string -> StreamFlavor.
Variable set_iter : list string -> list string.
Variable flavor_str : StreamFlavor -> string.
Variable streamfunc : @StreamFunc World.
Variable needs_retry : ResultCode -> bool.
Variable filters : StreamFilters.

Abbreviation body :=
  (process_clip extractor geolocation os FailedFlavor set_iter flavor_str
     streamfunc needs_retry filters).
Abbreviation ploop :=
  (process_loop extractor geolocation os FailedFlavor set_iter flavor_str
     streamfunc needs_retry filters).
Abbreviation process :=
  (process extractor geolocation os to_external_rd_code FailedFlavor set_iter
     flavor_str).
Abbreviation download_clips :=
  (download_clips extractor geolocation backends os to_external_rd_code
     FailedFlavor set_iter flavor_str).
Abbreviation pipe :=
  (pipe extractor geolocation backends os to_external_rd_code
     FailedFlavor set_iter flavor_str).
Abbreviation outcome :=
  (clip_outcome extractor geolocation os FailedFlavor set_iter
     streamfunc needs_retry filters).

(** X12.  On an empty playlist [process] logs 'No streams found' and
    returns success, without passing the status through
    [to_external_rd_code]; so do [download_clips], whatever the output
    file name and the output template, and [pipe], when the extractor
    returns no clip. *)
Theorem empty_playlist_is_success :
  (forall w,
     process [] streamfunc needs_retry filters w =
       (RD_SUCCESS, w, [Log ERROR "No streams found"])) /\
  (forall base_url io filters' w,
     fst (get_playlist extractor base_url (Some (latest_only filters')) w) = [] ->
     download_clips base_url io filters' w =
       (RD_SUCCESS,
        snd (get_playlist extractor base_url (Some (latest_only filters')) w),
        [GetPlaylist base_url (Some (latest_only filters'));
         Log ERROR "No streams found"])) /\
  (forall base_url io filters' w,
     fst (get_playlist extractor base_url None w) = [] ->
     pipe base_url io filters' w =
       (RD_SUCCESS, snd (get_playlist extractor base_url None w),
        [GetPlaylist base_url None; Log ERROR "No streams found"])).
Proof.
  split; [|split].
  - intros w. unfold Downloader.process. cbn [List.length Z.of_nat Z.eqb].
    run_bind. run_simpl. reflexivity.
  - intros base_url io filters' w.
    unfold Downloader.download_clips. run_bind. unfold call.
    destruct (get_playlist extractor base_url (Some (latest_only filters')) w)
      as [playlist w1].
    cbn [fst snd]. intros ->. run_simpl.
    cbn [List.length Z.of_nat Z.gtb Z.compare andb].
    unfold Downloader.process. cbn [List.length Z.of_nat Z.eqb].
    run_bind. run_simpl. reflexivity.
  - intros base_url io filters' w.
    unfold Downloader.pipe. run_bind. unfold call.
    destruct (get_playlist extractor base_url None w) as [playlist w1].
    cbn [fst snd]. intros ->. run_simpl. cbn [firstn].
    unfold Downloader.process. cbn [List.length Z.of_nat Z.eqb].
    run_bind. run_simpl. reflexivity.
Qed.

Lemma process_loop_extractions : forall playlist overall w,
  extractions (events (ploop overall playlist w)) = playlist.
Proof.
  induction playlist as [|u rest IH]; intros overall w; [reflexivity|].
  cbn [process_loop]. run_bind. cbn [events snd].
  rewrite extractions_app, process_clip_extractions, IH. reflexivity.
Qed.

(** X13.  [process] extracts every clip of the playlist exactly once, in
    the order of the playlist, whatever happens to the clips before it:
    no failure ends the loop early. *)
Theorem every_clip_is_extracted : forall playlist w,
  extractions (events (process playlist streamfunc needs_retry filters w)) = playlist.
Proof.
  intros playlist w. unfold Downloader.process.
  destruct playlist as [|u rest]; [reflexivity|].
  cbn [List.length]. rewrite Nat2Z.inj_succ.
  destruct (Z.succ (Z.of_nat (List.length rest)) =? 0) eqn:E;
    [apply Z.eqb_eq in E; lia|].
  run_bind. cbn [events snd ret]. rewrite app_nil_r.
  apply process_loop_extractions.
Qed.

(** The outcome of a clip, read off the selection of its streams. *)
Lemma clip_outcome_unusable : forall clip_url w,
  let extracted := extract_clip extractor clip_url w in
  unusable (FlavorFilter.select_streams FailedFlavor set_iter
              (flavors (fst extracted)) filters) = true ->
  fst (outcome clip_url w) = RD_FAILED.
Proof.
  intros clip_url w. cbv zeta. unfold clip_outcome, unusable.
  destruct (extract_clip extractor clip_url w) as [clip w1]. cbn [fst snd].
  destruct (FlavorFilter.select_streams FailedFlavor set_iter (flavors clip) filters)
    as [[|s0 ss]|]; intros Hu; try reflexivity.
  rewrite Hu. reflexivity.
Qed.

Lemma clip_outcome_usable : forall clip_url w ss,
  let extracted := extract_clip extractor clip_url w in
  FlavorFilter.select_streams FailedFlavor set_iter
    (flavors (fst extracted)) filters = Some ss ->
  unusable (Some ss) = false ->
  let tried :=
    try_all_streams os streamfunc (fst extracted) ss needs_retry (snd extracted) in
  outcome clip_url w = (result tried, world_after tried).
Proof.
  intros clip_url w ss. cbv zeta. unfold clip_outcome, unusable.
  destruct (extract_clip extractor clip_url w) as [clip w1]. cbn [fst snd].
  intros -> Hu. destruct ss as [|s0 ss]; [discriminate|].
  rewrite Hu. reflexivity.
Qed.

(** X14.  The outcome of a clip is failed when its selection gives no
    stream or only invalid ones, and otherwise it is the result of
    [try_all_streams] on the selected streams, run in the world the
    extraction leaves (stated for the first clip; a playlist of that one
    clip ends with the result of [try_all_streams] as its status).  The
    status the loop of [process] reaches from success is failed exactly
    when the outcome of some clip is failed, and success exactly when the
    outcome of every clip is success; when no clip failed, it is the
    outcome of the last clip that did not succeed. *)
Theorem overall_status_characterised : forall playlist w,
  let outcomes := playlist_outcomes outcome playlist w in
  let status := result (ploop RD_SUCCESS playlist w) in
  (status = RD_FAILED <-> In RD_FAILED outcomes) /\
  (status = RD_SUCCESS <-> forall o, In o outcomes -> o = RD_SUCCESS) /\
  (~ In RD_FAILED outcomes ->
   status = last (filter (fun o => negb (rd_eqb o RD_SUCCESS)) outcomes) RD_SUCCESS) /\
  (forall clip_url rest,
     playlist = clip_url :: rest ->
     let extracted := extract_clip extractor clip_url w in
     let candidates :=
       FlavorFilter.select_streams FailedFlavor set_iter
         (flavors (fst extracted)) filters in
     (unusable candidates = true ->
      hd_error outcomes = Some RD_FAILED /\ status = RD_FAILED) /\
     (forall ss,
        candidates = Some ss ->
        unusable candidates = false ->
        let tried :=
          try_all_streams os streamfunc (fst extracted) ss needs_retry
            (snd extracted) in
        hd_error outcomes = Some (result tried) /\
        (rest = [] -> status = result tried))).
Proof.
  intros playlist w outcomes status.
  assert (Hhead : forall clip_url rest,
     playlist = clip_url :: rest ->
     let extracted := extract_clip extractor clip_url w in
     let candidates :=
       FlavorFilter.select_streams FailedFlavor set_iter
         (flavors (fst extracted)) filters in
     (unusable candidates = true ->
      hd_error outcomes = Some RD_FAILED /\ status = RD_FAILED) /\
     (forall ss,
        candidates = Some ss ->
        unusable candidates = false ->
        let tried :=
          try_all_streams os streamfunc (fst extracted) ss needs_retry
            (snd extracted) in
        hd_error outcomes = Some (result tried) /\
        (rest = [] -> status = result tried))).
  { intros clip_url rest Ep. cbv zeta. unfold status, outcomes.
    rewrite (process_loop_run extractor geolocation os FailedFlavor set_iter
               flavor_str streamfunc needs_retry filters playlist RD_SUCCESS w).
    rewrite Ep. cbn [playlist_outcomes hd_error result fst fold_left].
    split.
    - intros Hu. rewrite (clip_outcome_unusable clip_url w Hu).
      split; [reflexivity|].
      rewrite aggregate_failed. apply fold_aggregate_failed.
    - intros ss Ec Hu. rewrite Ec in Hu.
      rewrite (clip_outcome_usable clip_url w ss Ec Hu). cbn [fst snd].
      split; [reflexivity|].
      intros ->. cbn [playlist_outcomes fold_left].
      apply aggregate_success. }
  refine ((fun H3 => match H3 with
                     | conj a (conj b c) => conj a (conj b (conj c Hhead))
                     end) _).
  clear Hhead.
  assert (Hs : status = fold_left aggregate outcomes RD_SUCCESS).
  { unfold status.
    rewrite (process_loop_run extractor geolocation os FailedFlavor set_iter
               flavor_str streamfunc needs_retry filters playlist RD_SUCCESS w).
    reflexivity. }
  rewrite Hs. clear Hs status. generalize outcomes. clear outcomes.
  intros outcomes.
  assert (Hdec : In RD_FAILED outcomes \/ ~ In RD_FAILED outcomes).
  { induction outcomes as [|o l IH]; [now right|].
    destruct o; try (now left; left);
      (destruct IH as [IH|IH]; [left; now right|]; right;
       intros [E|E]; [discriminate | contradiction]). }
  split; [|split].
  - split.
    + intros Hf. destruct Hdec as [H|H]; [exact H|]. exfalso.
      now apply (fold_aggregate_not_failed outcomes RD_SUCCESS).
    + apply fold_aggregate_dominated.
  - split.
    + intros Hsucc o Ho.
      destruct Hdec as [H|H].
      * rewrite fold_aggregate_dominated in Hsucc by exact H. discriminate.
      * rewrite fold_aggregate_latest in Hsucc by (auto; discriminate).
        destruct (rd_eqb o RD_SUCCESS) eqn:E; [now apply rd_eqb_eq|]. exfalso.
        assert (Hin : In o (filter (fun o => negb (rd_eqb o RD_SUCCESS)) outcomes)).
        { apply filter_In. split; [exact Ho | now rewrite E]. }
        destruct (filter (fun o => negb (rd_eqb o RD_SUCCESS)) outcomes)
          as [|x l] eqn:Ef; [exact Hin|].
        assert (Hl : In (last (x :: l) RD_SUCCESS)
                        (filter (fun o => negb (rd_eqb o RD_SUCCESS)) outcomes)).
        { rewrite Ef. destruct (exists_last (l := x :: l)) as (l' & a & El);
            [discriminate|].
          rewrite El, last_last. apply in_or_app. right. now left. }
        rewrite Hsucc in Hl. apply filter_In in Hl. destruct Hl as [_ Hl].
        discriminate.
    + intros Hall. rewrite fold_aggregate_latest.
      * now rewrite all_success_nothing_left.
      * discriminate.
      * intros Hf. specialize (Hall _ Hf). discriminate.
  - intros Hnf. apply fold_aggregate_latest; [discriminate | exact Hnf].
Qed.
End MoreProcessFacts.

Section ItemFacts.
Import Downloader.
Context {World : Type}.
Variable extractor : Extractor World.
Variable geolocation : Geolocation World.
Variable os : Os World.
Variable FailedFlavor : option string -> StreamFlavor.
Variable set_iter : list string -> list string.
Variable flavor_str : StreamFlavor -> string.
Variable streamfunc : @StreamFunc World.
Variable needs_retry : ResultCode -> bool.
Variable filters : StreamFilters.

Abbreviation body :=
  (process_clip extractor geolocation os FailedFlavor set_iter flavor_str
     streamfunc needs_retry filters).

Lemma print_geo_warning_run : forall clip w,
  let run := print_geo_warning geolocation clip w in
  attempts (events run) = [] /\
  (errors (events run) = [] \/
   errors (events run) =
     ["This clip is only available in Finland "
      ++ "and according to Yle you are located abroad"]%string).
Proof.
  intros clip w. cbv zeta. unfold print_geo_warning.
  destruct (match region clip with Some r => String.eqb r "Finland" | None => true end).
  - run_bind. unfold call.
    destruct (located_in_finland geolocation (webpage clip) w) as [inside w'].
    run_simpl. destruct inside; cbn; auto.
  - cbn. auto.
Qed.

Lemma errors_app : forall e1 e2, errors (e1 ++ e2) = errors e1 ++ errors e2.
Proof.
  induction e1 as [|e e1 IH]; intros e2; [reflexivity|].
  destruct e as [[| | |] msg| | | | | | | | | | | | |]; simpl; rewrite IH; reflexivity.
Qed.

(** X15.  A clip without flavors costs one extraction and the line 'No
    stream found', and nothing else.  A clip whose selection has no
    streams costs the extraction, the debug lines of the selection and
    that line, which is its only error; a clip whose candidates are all
    invalid costs the extraction, the debug lines of the selection, the
    error message of the first candidate and the geolocation warning; in
    both cases the stream function is not called and the status becomes
    failed.  For any other clip the first call of the stream function is
    on the first valid candidate, in the world the extraction leaves, and
    the result recorded is the result of that call. *)
Theorem unusable_items_are_not_attempted : forall overall clip_url w,
  let extracted := extract_clip extractor clip_url w in
  let candidates :=
    FlavorFilter.select_streams FailedFlavor set_iter
      (flavors (fst extracted)) filters in
  let debug_lines :=
    selection_log flavor_str filters (flavors (fst extracted))
      (FlavorFilter.select_flavor FailedFlavor set_iter
         (flavors (fst extracted)) filters) in
  let run := body overall clip_url w in
  (flavors (fst extracted) = [] ->
   run = (RD_FAILED, snd extracted,
          [ExtractClip clip_url; Log ERROR "No stream found"])) /\
  (candidates = None \/ candidates = Some [] ->
   run = (RD_FAILED, snd extracted,
          ExtractClip clip_url :: debug_lines ++ [Log ERROR "No stream found"]) /\
   attempts (events run) = [] /\
   errors (events run) = ["No stream found"]) /\
  (forall s0 ss,
     candidates = Some (s0 :: ss) ->
     (forall s, In s (s0 :: ss) -> is_valid s = false) ->
     let warned := print_geo_warning geolocation (fst extracted) (snd extracted) in
     run = (RD_FAILED, world_after warned,
            ExtractClip clip_url :: debug_lines
              ++ Log ERROR ("Unsupported stream: " ++ py_str (error_message s0))%string
              :: events warned) /\
     attempts (events run) = [] /\
     hd_error (errors (events run))
       = Some ("Unsupported stream: " ++ py_str (error_message s0))%string) /\
  (forall ss s,
     candidates = Some ss ->
     find is_valid ss = Some s ->
     exists later,
       attempts (events run)
         = (s, fst (result (streamfunc (fst extracted) s (snd extracted))))
             :: later).
Proof.
  intros overall clip_url w. cbv zeta.
  rewrite (process_clip_eq extractor geolocation os FailedFlavor set_iter
             flavor_str streamfunc needs_retry filters overall clip_url w).
  cbv zeta.
  destruct (extract_clip extractor clip_url w) as [clip w1]. cbn [fst snd].
  pose proof (selection_log_quiet flavor_str (flavors clip) filters
                (FlavorFilter.select_flavor FailedFlavor set_iter
                   (flavors clip) filters)) as (Hqa & _ & Hqe).
  split.
  { intros Hnone. rewrite Hnone. reflexivity. }
  destruct (FlavorFilter.select_streams FailedFlavor set_iter (flavors clip) filters)
    as [[|s0 ss]|] eqn:Ec.
  - split; [|split].
    + intros _. cbn [result world_after events fst snd app attempts errors].
      rewrite attempts_app, errors_app, Hqa, Hqe. auto.
    + intros s0 ss E. discriminate.
    + intros ss s E Hfind. injection E as <-. discriminate.
  - split; [|split].
    + intros [E|E]; discriminate.
    + intros s0' ss' E Hinv. injection E as <- <-.
      assert (Hall : forallb (fun stream => negb (is_valid stream)) (s0 :: ss) = true).
      { apply forallb_forall. intros s Hs. now rewrite (Hinv s Hs). }
      rewrite Hall. cbv zeta.
      cbn [result world_after events fst snd app attempts errors].
      rewrite attempts_app, errors_app, Hqa, Hqe.
      cbn [app attempts errors hd_error].
      split; [reflexivity|]. split; [|reflexivity].
      apply print_geo_warning_run.
    + intros ss' s E Hfind. injection E as <-.
      assert (Hall : forallb (fun stream => negb (is_valid stream)) (s0 :: ss) = false).
      { apply not_true_is_false. intros Hall.
        rewrite forallb_forall in Hall.
        apply find_some in Hfind. destruct Hfind as [Hin Hv].
        specialize (Hall s Hin). rewrite Hv in Hall. discriminate. }
      rewrite Hall. cbn [events snd app attempts].
      rewrite attempts_app, Hqa. cbn [app].
      unfold try_all_streams.
      destruct (loop_first_call os streamfunc clip needs_retry (s0 :: ss)
                  RD_FAILED w1 s Hfind) as (later & Ea).
      rewrite Ea. now exists later.
  - split; [|split].
    + intros _. cbn [result world_after events fst snd app attempts errors].
      rewrite attempts_app, errors_app, Hqa, Hqe. auto.
    + intros s0 ss E. discriminate.
    + intros ss s E. discriminate.
Qed.
End ItemFacts.


(** * Properties of the [download] closure *)

Lemma saves_app : forall e1 e2, saves (e1 ++ e2) = saves e1 ++ saves e2.
Proof.
  induction e1 as [|e e1 IH]; intros e2; [reflexivity|].
  destruct e; simpl; rewrite IH; reflexivity.
Qed.

Lemma executes_app : forall e1 e2, executes (e1 ++ e2) = executes e1 ++ executes e2.
Proof.
  induction e1 as [|e e1 IH]; intros e2; [reflexivity|].
  destruct e; simpl; rewrite IH; reflexivity.
Qed.

Section DownloadFacts.
Import Downloader.
Context {World : Type}.
Variable backends : Backends World.
Variable os : Os World.
Variable io : IOContext.
Variable clip : Clip.
Variable downloader : Stream.

Abbreviation download := (download backends os io clip downloader).
Abbreviation should_skip := (should_skip_downloading backends os).

Abbreviation name_of := (named backends os io clip downloader).
Abbreviation first_events := (naming_events backends io clip downloader).

Lemma download_unnamed : forall w,
  fst (name_of w) = None \/ fst (name_of w) = Some ""%string ->
  download w = (RD_FAILED, None, snd (name_of w), first_events).
Proof.
  intros w H. unfold Downloader.download, generate_output_name.
  run_bind. run_simpl. run_bind. unfold call.
  unfold named in H |- *.
  destruct (output_filename os (title clip)
              (file_extension backends downloader (preferred_format io)) io
              (warn_on_unsupported_feature backends downloader io w))
    as [o w2].
  cbn [fst snd] in H |- *. run_simpl.
  destruct H as [-> | ->]; reflexivity.
Qed.

Lemma log_output_file_world : forall f b (w : World),
  world_after (log_output_file f b w) = w.
Proof.
  intros f b w. unfold log_output_file.
  destruct (negb (f =? "")%string && negb (f =? "-")%string); [|reflexivity].
  now destruct b.
Qed.

Lemma download_named : forall w f,
  fst (name_of w) = Some f -> f <> ""%string ->
  let skip := should_skip f downloader clip io (snd (name_of w)) in
  let saved := save_stream backends downloader f clip io (world_after skip) in
  let post :=
    (if rd_eqb (fst saved) RD_SUCCESS
     then log_output_file f true ;;
          postprocess os (postprocess_command io) f []
     else ret tt) (snd saved) in
  download w =
    if result skip then
      (RD_SUCCESS, Some f, world_after skip,
       first_events ++ events skip
         ++ [Log INFO (f ++ " has already been downloaded.")%string])
    else
      (fst saved, Some f, world_after post,
       first_events ++ events skip
         ++ events (log_output_file f false (world_after skip))
         ++ SaveStream downloader f (fst saved) :: events post).
Proof.
  intros w f Hn Hf. cbv zeta. unfold Downloader.download, generate_output_name.
  run_bind. run_simpl. run_bind. unfold call.
  unfold named in Hn |- *.
  destruct (output_filename os (title clip)
              (file_extension backends downloader (preferred_format io)) io
              (warn_on_unsupported_feature backends downloader io w))
    as [o w2].
  cbn [fst snd] in Hn |- *. subst o. run_simpl.
  apply String.eqb_neq in Hf. rewrite Hf.
  run_bind.
  destruct (result (should_skip_downloading backends os f downloader clip io w2)).
  - run_bind. run_simpl. reflexivity.
  - run_bind. run_bind. rewrite log_output_file_world.
    destruct (save_stream backends downloader f clip io
                (world_after
                   (should_skip_downloading backends os f downloader clip io w2)))
      as [r w3].
    run_simpl. run_bind. run_simpl. rewrite app_nil_r. reflexivity.
Qed.

Lemma should_skip_run : forall f w,
  should_skip f downloader clip io w =
    if negb (overwrite io) && path_exists os f w
    then (true, w, [PathExists f true])
    else
      let looked := if negb (overwrite io) then [PathExists f false] else [] in
      if slicing io then (false, w, looked)
      else
        let asked := full_stream_already_downloaded backends downloader f clip io w in
        (fst asked, snd asked, looked ++ [AlreadyDownloaded downloader f (fst asked)]).
Proof.
  intros f w. unfold should_skip_downloading, slicing. run_bind.
  assert (Hgt : (0 >? 0) = false) by reflexivity. rewrite Hgt, orb_false_r.
  destruct (overwrite io); cbn [negb andb]; run_simpl.
  - destruct (truthyZ (start_position (download_limits io))
              || truthyZ (duration (download_limits io))); cbn [negb].
    + reflexivity.
    + unfold call.
      destruct (full_stream_already_downloaded backends downloader f clip io w).
      reflexivity.
  - destruct (path_exists os f w); [reflexivity|].
    destruct (truthyZ (start_position (download_limits io))
              || truthyZ (duration (download_limits io))); cbn [negb].
    + reflexivity.
    + unfold call.
      destruct (full_stream_already_downloaded backends downloader f clip io w).
      reflexivity.
Qed.

Lemma should_skip_quiet : forall f w,
  saves (events (should_skip f downloader clip io w)) = [] /\
  executes (events (should_skip f downloader clip io w)) = [].
Proof.
  intros f w. rewrite should_skip_run.
  destruct (negb (overwrite io) && path_exists os f w); [split; reflexivity|].
  cbv zeta. destruct (slicing io), (negb (overwrite io)); split; reflexivity.
Qed.

Lemma log_output_file_quiet : forall f b (w : World),
  saves (events (log_output_file f b w)) = [] /\
  executes (events (log_output_file f b w)) = [].
Proof.
  intros f b w. unfold log_output_file.
  destruct (negb (f =? "")%string && negb (f =? "-")%string);
    [destruct b|]; split; reflexivity.
Qed.

(** What follows a transfer: nothing unless it succeeded, and then the
    postprocessing command, if there is one, on the file. *)
Lemma after_save : forall f r (w : World),
  let post :=
    (if rd_eqb r RD_SUCCESS
     then log_output_file f true ;;
          postprocess os (postprocess_command io) f []
     else ret tt) w in
  saves (events post) = [] /\
  executes (events post) =
    if rd_eqb r RD_SUCCESS && truthy (postprocess_command io)
    then [[py_str (postprocess_command io); f]] else [].
Proof.
  intros f r w. cbv zeta.
  destruct (rd_eqb r RD_SUCCESS); [|split; reflexivity].
  run_bind. cbn [events snd andb]. rewrite saves_app, executes_app.
  destruct (log_output_file_quiet f true w) as [-> ->]. cbn [app].
  unfold postprocess, truthy.
  destruct (postprocess_command io) as [cmd|]; [|split; reflexivity].
  destruct (negb (cmd =? "")%string); split; reflexivity.
Qed.

(** X16.  [download] never writes over an existing file unless
    [overwrite] is set: when the generated output file exists and
    [overwrite] is off, it returns success with that file name, having
    only looked the file up and logged that it has already been
    downloaded; the backend is neither asked nor used. *)
Theorem download_never_overwrites : forall w f,
  fst (name_of w) = Some f -> f <> ""%string ->
  overwrite io = false ->
  path_exists os f (snd (name_of w)) = true ->
  download w =
    (RD_SUCCESS, Some f, snd (name_of w),
     first_events
       ++ [PathExists f true;
           Log INFO (f ++ " has already been downloaded.")%string]).
Proof.
  intros w f Hn Hf Ho He.
  rewrite (download_named w f Hn Hf). cbv zeta.
  rewrite should_skip_run, Ho, He. reflexivity.
Qed.

(** X17.  When the output file is not there, or [overwrite] is set: if
    neither a start position nor a duration is requested and the backend
    reports the full stream as already downloaded, [download] returns
    success without a transfer; if a start position or a duration is
    requested, the backend is not asked and the stream is transferred,
    the result of the transfer being the result of [download]. *)
Theorem download_skips_complete_stream_unless_slicing : forall w f,
  fst (name_of w) = Some f -> f <> ""%string ->
  overwrite io = true \/ path_exists os f (snd (name_of w)) = false ->
  (slicing io = false ->
   fst (full_stream_already_downloaded backends downloader f clip io
          (snd (name_of w))) = true ->
   result (download w) = (RD_SUCCESS, Some f) /\
   saves (events (download w)) = []) /\
  (slicing io = true ->
   let saved := save_stream backends downloader f clip io (snd (name_of w)) in
   result (download w) = (fst saved, Some f) /\
   saves (events (download w)) = [(downloader, f, fst saved)]).
Proof.
  intros w f Hn Hf Hfree.
  assert (Hnot : negb (overwrite io) && path_exists os f (snd (name_of w)) = false).
  { destruct Hfree as [-> | ->]; [reflexivity | apply andb_false_r]. }
  rewrite (download_named w f Hn Hf). cbv zeta.
  rewrite should_skip_run, Hnot. cbv zeta. split.
  - intros Hs Hfull. rewrite Hs.
    cbn [result world_after events fst snd]. rewrite Hfull.
    split; [reflexivity|]. cbn [events snd].
    rewrite !saves_app. destruct (negb (overwrite io)); reflexivity.
  - intros Hs. rewrite Hs. cbn [result world_after events fst snd].
    split; [reflexivity|].
    rewrite !saves_app.
    destruct (log_output_file_quiet f false (snd (name_of w))) as [-> _].
    cbn [saves].
    destruct (after_save f
                (fst (save_stream backends downloader f clip io (snd (name_of w))))
                (snd (save_stream backends downloader f clip io (snd (name_of w)))))
      as [-> _].
    destruct (negb (overwrite io)); reflexivity.
Qed.

Lemma download_saves : forall w,
  saves (events (download w)) = [] /\ executes (events (download w)) = [] \/
  exists f r,
    fst (name_of w) = Some f /\
    result (download w) = (r, Some f) /\
    saves (events (download w)) = [(downloader, f, r)] /\
    executes (events (download w)) =
      if rd_eqb r RD_SUCCESS && truthy (postprocess_command io)
      then [[py_str (postprocess_command io); f]] else [].
Proof.
  intros w.
  destruct (fst (name_of w)) as [f|] eqn:Hn.
  2:{ left. rewrite download_unnamed by now left. split; reflexivity. }
  destruct (String.eqb_spec f "") as [->|Hf].
  { left. rewrite download_unnamed by now right. split; reflexivity. }
  rewrite (download_named w f Hn Hf). cbv zeta.
  set (skip := should_skip f downloader clip io (snd (name_of w))).
  destruct (should_skip_quiet f (snd (name_of w))) as [Hs He]. fold skip in Hs, He.
  destruct (result skip).
  - left. cbn [events snd]. rewrite !saves_app, !executes_app, Hs, He.
    split; reflexivity.
  - right.
    set (saved := save_stream backends downloader f clip io (world_after skip)).
    exists f, (fst saved). split; [reflexivity|].
    cbn [result events fst snd]. split; [reflexivity|].
    rewrite !saves_app, !executes_app, Hs, He.
    destruct (log_output_file_quiet f false (world_after skip)) as [-> ->].
    cbn [saves executes app].
    destruct (after_save f (fst saved) (snd saved)) as [-> ->].
    split; reflexivity.
Qed.

(** X18.  [download] transfers at most once, with the given stream, and
    then returns the result of the transfer together with the file
    written to.  The postprocessing command is run only after a transfer
    that returned success, at most once, on that file. *)
Theorem download_postprocess_only_after_success : forall w,
  (forall s f r, In (s, f, r) (saves (events (download w))) ->
     s = downloader /\ result (download w) = (r, Some f) /\
     saves (events (download w)) = [(s, f, r)]) /\
  (forall args, In args (executes (events (download w))) ->
     exists cmd f,
       postprocess_command io = Some cmd /\ args = [cmd; f] /\
       saves (events (download w)) = [(downloader, f, RD_SUCCESS)] /\
       result (download w) = (RD_SUCCESS, Some f) /\
       executes (events (download w)) = [args]).
Proof.
  intros w.
  destruct (download_saves w) as [[Hs He]|(f & r & Hn & Hres & Hs & He)].
  - rewrite Hs, He. split; intros; contradiction.
  - rewrite Hs, He, Hres. split.
    + intros s f' r' [E|[]]. injection E as <- <- <-. auto.
    + intros args Hin.
      destruct (rd_eqb r RD_SUCCESS) eqn:Er; [|destruct Hin].
      apply rd_eqb_eq in Er. subst r. cbn [andb] in Hin |- *.
      unfold truthy in Hin |- *.
      destruct (postprocess_command io) as [cmd|]; [|destruct Hin].
      destruct (negb (cmd =? "")%string); [|destruct Hin].
      destruct Hin as [<-|[]]. exists cmd, f. auto.
Qed.

(** X19.  [download] returns no output file exactly when the file name
    generator returns nothing or an empty name; it then returns failed
    without a transfer, so that [try_all_streams] has nothing to remove
    before the next candidate. *)
Theorem download_without_name_fails : forall w,
  (snd (result (download w)) = None <->
   fst (name_of w) = None \/ fst (name_of w) = Some ""%string) /\
  (snd (result (download w)) = None ->
   download w = (RD_FAILED, None, snd (name_of w), first_events) /\
   cleanup os (snd (result (download w))) (world_after (download w))
     = (tt, snd (name_of w), [])).
Proof.
  intros w.
  assert (H : snd (result (download w)) = None ->
              fst (name_of w) = None \/ fst (name_of w) = Some ""%string).
  { intros Hnone.
    destruct (fst (name_of w)) as [f|] eqn:Hn; [|now left].
    destruct (String.eqb_spec f "") as [->|Hf]; [now right|].
    rewrite (download_named w f Hn Hf) in Hnone. cbv zeta in Hnone.
    destruct (result (should_skip f downloader clip io (snd (name_of w))));
      discriminate Hnone. }
  split; [split; [exact H|]|].
  - intros Hu. now rewrite (download_unnamed w Hu).
  - intros Hnone. rewrite (download_unnamed w (H Hnone)).
    split; reflexivity.
Qed.
End DownloadFacts.


(** * Properties of the cleanup *)

Lemma removals_app : forall e1 e2, removals (e1 ++ e2) = removals e1 ++ removals e2.
Proof.
  induction e1 as [|e e1 IH]; intros e2; [reflexivity|].
  destruct e; simpl; rewrite IH; reflexivity.
Qed.

Section CleanupFacts.
Import Downloader.
Context {World : Type}.
Variable os : Os World.

(** X20.  [remove_retry_file] calls [os.remove] at most once, only on the
    file it is given, and only when that name is not empty and names an
    existing regular file; and it leaves the world as it is unless the
    removal succeeded. *)
Theorem remove_retry_file_only_removes_its_file : forall o w,
  let run := remove_retry_file os o w in
  (forall g, In g (removals (events run)) ->
     o = Some g /\ g <> ""%string /\ path_isfile os g w = true /\
     removals (events run) = [g]) /\
  (world_after run = w \/
   exists f, o = Some f /\ path_isfile os f w = true /\
             remove os f w = Some (world_after run)).
Proof.
  intros o w. cbv zeta. unfold remove_retry_file.
  destruct o as [f|]; [|split; [intros g []|now left]].
  destruct (String.eqb_spec f "") as [->|Hf]; cbn [negb];
    [split; [intros g []|now left]|].
  run_bind. run_simpl.
  destruct (path_isfile os f w) eqn:Hfile;
    [|split; [intros g []|now left]].
  run_bind. run_simpl.
  destruct (remove os f w) as [w'|] eqn:Hrm; cbn [result world_after events fst snd].
  - split.
    + intros g [<-|[]]. auto.
    + right. exists f. auto.
  - split.
    + intros g [<-|[]]. auto.
    + now left.
Qed.

Lemma loop_without_artifacts :
  forall (streamfunc : @StreamFunc World) clip needs_retry,
  (forall c s w, truthy (snd (result (streamfunc c s w))) = false) ->
  forall candidates latest out w,
    truthy out = false ->
    removals (events (try_all_streams_loop os streamfunc clip needs_retry
                        latest out candidates w)) = [].
Proof.
  intros streamfunc clip needs_retry Hnone.
  induction candidates as [|s cs IH]; intros latest out w Hout; [reflexivity|].
  destruct (is_valid s) eqn:Hv.
  2:{ rewrite loop_invalid by exact Hv. now apply IH. }
  rewrite loop_valid by exact Hv. cbv zeta.
  assert (Hc : cleanup os out w = (tt, w, [])).
  { unfold cleanup. now rewrite Hout. }
  rewrite Hc. cbn [world_after events fst snd app removals].
  destruct (needs_retry _); [|reflexivity].
  apply IH. apply Hnone.
Qed.

(** X21.  Piping removes no file: [pipe_clip] never returns an output
    file, so [try_all_streams] has nothing to clean up between the
    candidates it pipes. *)
Theorem piping_removes_nothing :
  forall (backends : Backends World) io clip candidates needs_retry w,
    (forall s w', snd (result (pipe_clip backends io clip s w')) = None) /\
    removals (events (try_all_streams os (pipe_clip backends io) clip candidates
                        needs_retry w)) = [].
Proof.
  intros backends io clip candidates needs_retry w.
  assert (H : forall c s w', snd (result (pipe_clip backends io c s w')) = None).
  { intros c s w'. unfold pipe_clip. run_bind. run_simpl. run_bind.
    unfold call. now destruct (pipe_stream backends s io _). }
  split; [apply H|].
  unfold try_all_streams. apply loop_without_artifacts; [|reflexivity].
  intros c s w'. now rewrite H.
Qed.
End CleanupFacts.


(** * Properties of [get_urls] and [error_flavor] *)

Section QueryFacts.
Import Downloader Queries.
Context {World : Type}.
Variable extract : string -> bool -> World -> list Clip * World.
Variable stream_url : Stream -> string.
Variable FailedFlavor : option string -> StreamFlavor.
Variable set_iter : list string -> list string.

Abbreviation clip_urls := (clip_urls stream_url FailedFlavor set_iter).
Abbreviation get_urls := (get_urls extract stream_url FailedFlavor set_iter).
Abbreviation candidates_of filters clip :=
  (FlavorFilter.select_streams FailedFlavor set_iter (flavors clip) filters).

Lemma unusable_find : forall o,
  unusable o = true <->
  o = None \/ exists ss, o = Some ss /\ find is_valid ss = None.
Proof.
  intros [ss|]; simpl; [|split; auto].
  split.
  - intros H. right. exists ss. split; [reflexivity|].
    destruct (find is_valid ss) as [s|] eqn:Ef; [|reflexivity].
    apply find_some in Ef. destruct Ef as [Hin Hv].
    rewrite forallb_forall in H. specialize (H s Hin).
    rewrite Hv in H. discriminate.
  - intros [H|(ss' & E & Hf)]; [discriminate|]. injection E as <-.
    apply forallb_forall. intros s Hs.
    rewrite (find_none _ _ Hf s Hs). reflexivity.
Qed.

Lemma clip_urls_find : forall filters clip,
  clip_urls filters clip =
    match candidates_of filters clip with
    | Some ss =>
        match find is_valid ss with
        | Some s => [stream_url s]
        | None => []
        end
    | None => []
    end.
Proof.
  intros filters clip. unfold Queries.clip_urls.
  destruct (FlavorFilter.select_streams FailedFlavor set_iter (flavors clip) filters)
    as [ss|]; [|reflexivity].
  destruct (find is_valid ss) as [s|] eqn:Ef.
  - apply find_some in Ef. destruct Ef as [Hin Hv].
    assert (Hne : nonempty ss = true) by (destruct ss; [destruct Hin | reflexivity]).
    assert (Hex : existsb is_valid ss = true)
      by (apply existsb_exists; exists s; auto).
    now rewrite Hne, Hex.
  - now destruct (nonempty ss && existsb is_valid ss).
Qed.

(** X22.  [get_urls] yields a URL for exactly the clips that [process]
    would hand to [try_all_streams], namely those with a valid candidate,
    at most one per clip and in the order of the clips; and the URL of a
    clip is the URL of the stream that [try_all_streams] tries first. *)
Theorem get_urls_agrees_with_process :
  forall (os : Os World) (streamfunc : @StreamFunc World) needs_retry
         base_url filters w,
  let clips := fst (extract base_url (latest_only filters) w) in
  snd (get_urls base_url filters w) = snd (extract base_url (latest_only filters) w) /\
  fst (get_urls base_url filters w) = flat_map (clip_urls filters) clips /\
  List.length (fst (get_urls base_url filters w))
    = List.length
        (filter (fun clip => negb (unusable (candidates_of filters clip))) clips) /\
  forall clip,
    (clip_urls filters clip = [] <-> unusable (candidates_of filters clip) = true) /\
    (forall ss s w',
       candidates_of filters clip = Some ss ->
       find is_valid ss = Some s ->
       clip_urls filters clip = [stream_url s] /\
       exists r later,
         attempts (events (try_all_streams os streamfunc clip ss needs_retry w'))
           = (s, r) :: later).
Proof.
  intros os streamfunc needs_retry base_url filters w. cbv zeta.
  assert (Hclip : forall clip,
    (clip_urls filters clip = [] <-> unusable (candidates_of filters clip) = true) /\
    (forall ss s w',
       candidates_of filters clip = Some ss ->
       find is_valid ss = Some s ->
       clip_urls filters clip = [stream_url s] /\
       exists r later,
         attempts (events (try_all_streams os streamfunc clip ss needs_retry w'))
           = (s, r) :: later)).
  { intros clip. rewrite clip_urls_find. split.
    - rewrite unusable_find.
      destruct (FlavorFilter.select_streams FailedFlavor set_iter (flavors clip) filters)
        as [ss|]; [|split; auto].
      destruct (find is_valid ss) as [s|] eqn:Ef.
      + split; [discriminate|].
        intros [H|(ss' & E & Hf)]; [discriminate|].
        injection E as <-. congruence.
      + split; [|reflexivity]. intros _. right. now exists ss.
    - intros ss s w' Hc Hf. rewrite Hc, Hf.
      split; [reflexivity|].
      unfold try_all_streams. now apply loop_first_attempt. }
  unfold Queries.get_urls.
  destruct (extract base_url (latest_only filters) w) as [clips w1].
  cbn [fst snd]. split; [reflexivity|]. split; [reflexivity|split; [|exact Hclip]].
  induction clips as [|clip l IH]; [reflexivity|].
  cbn [flat_map filter]. rewrite length_app, IH.
  destruct (Hclip clip) as [Hu _].
  destruct (unusable (candidates_of filters clip)) eqn:Eu.
  - rewrite (proj2 Hu eq_refl). reflexivity.
  - cbn [negb List.length].
    rewrite clip_urls_find in Hu |- *.
    destruct (candidates_of filters clip) as [ss|]; [|discriminate Eu].
    destruct (find is_valid ss); [reflexivity|].
    destruct Hu as [Hu _]. specialize (Hu eq_refl). discriminate.
Qed.

Lemma error_flavor_find : forall fls,
  error_flavor FailedFlavor fls =
    match find (fun s => negb (is_valid s)) (all_streams fls) with
    | Some s => Some (FailedFlavor (error_message s))
    | None => None
    end.
Proof.
  induction fls as [|fl l IH]; [reflexivity|].
  cbn [error_flavor]. unfold all_streams. cbn [flat_map].
  fold (all_streams l).
  assert (Happ : forall (p : Stream -> bool) l1 l2,
            find p (l1 ++ l2) =
              match find p l1 with Some x => Some x | None => find p l2 end).
  { intros p l1 l2. induction l1 as [|x l1 IH1]; [reflexivity|].
    simpl. destruct (p x); [reflexivity | exact IH1]. }
  rewrite Happ.
  destruct (find (fun s => negb (is_valid s)) (streams fl)); [reflexivity | exact IH].
Qed.

(** X23.  [error_flavor] returns nothing exactly when every stream of
    every flavor is valid, and otherwise the failure flavor of the first
    invalid stream.  When the flavors have streams and none of them is
    valid, it returns the flavor that [backend_not_enabled_flavor]
    returns. *)
Theorem error_flavor_first_invalid : forall flavors,
  (error_flavor FailedFlavor flavors = None <->
   forall s, In s (all_streams flavors) -> is_valid s = true) /\
  (forall s,
     find (fun s => negb (is_valid s)) (all_streams flavors) = Some s ->
     error_flavor FailedFlavor flavors = Some (FailedFlavor (error_message s))) /\
  (all_streams flavors <> [] ->
   (forall s, In s (all_streams flavors) -> is_valid s = false) ->
   error_flavor FailedFlavor flavors =
     Some (FlavorFilter.backend_not_enabled_flavor FailedFlavor set_iter flavors)).
Proof.
  intros flavors. rewrite error_flavor_find. split; [|split].
  - destruct (find (fun s => negb (is_valid s)) (all_streams flavors)) as [s|] eqn:Ef.
    + split; [discriminate|]. intros Hall.
      apply find_some in Ef. destruct Ef as [Hin Hv].
      rewrite (Hall s Hin) in Hv. discriminate.
    + split; [|reflexivity]. intros _ s Hs.
      pose proof (find_none _ _ Ef s Hs) as H. now apply negb_false_iff in H.
  - intros s ->. reflexivity.
  - intros Hne Hinv.
    unfold FlavorFilter.backend_not_enabled_flavor.
    assert (E : FlavorFilter.supported_backend_names flavors = []).
    { unfold FlavorFilter.supported_backend_names.
      rewrite flat_map_map_filter.
      assert (Hnil : forall l, (forall s, In s l -> is_valid s = false) ->
                               filter is_valid l = []).
      { induction l as [|s l IH]; intros Hl; [reflexivity|].
        simpl. rewrite (Hl s (or_introl eq_refl)).
        apply IH. intros s' Hs'. apply Hl. now right. }
      now rewrite (Hnil _ Hinv). }
    rewrite E. cbn [nonempty]. cbv iota.
    unfold FlavorFilter.error_messages.
    rewrite flat_map_map_filter, first_error_message.
    destruct (find (fun s => negb (is_valid s)) (all_streams flavors)) as [s|] eqn:Ef;
      [reflexivity|].
    exfalso. destruct (all_streams flavors) as [|s l]; [congruence|].
    pose proof (find_none _ _ Ef s (or_introl eq_refl)) as H. cbv beta in H.
    rewrite (Hinv s (or_introl eq_refl)) in H. discriminate.
Qed.
End QueryFacts.


(** * Instances of the further properties *)

Lemma maxbitrate_closest_fit_witness :
  exists sel,
    FlavorFilter.select_flavor Mock.FailedFlavor Mock.set_iter
      successful_clip_flavors (mkFilters false None (Some 1500) ["mock"]) = Some sel /\
    or0 (bitrate sel) <= 1500 /\
    or0 (bitrate medium_quality) <= or0 (bitrate sel).
Proof.
  destruct (maxbitrate_closest_fit Mock.FailedFlavor Mock.set_iter
              successful_clip_flavors (mkFilters false None (Some 1500) ["mock"]) 1500)
    as (sel & Hsel & _ & Hfit & _).
  - reflexivity.
  - reflexivity.
  - vm_compute. discriminate.
  - exists sel. split; [exact Hsel|].
    destruct Hfit as [Hle Hmax].
    + exists low_quality. split; [vm_compute; auto | vm_compute; discriminate].
    + split; [exact Hle|]. apply Hmax; [vm_compute; auto | vm_compute; discriminate].
Defined.

Lemma both_limits_selection_witness :
  exists sel,
    FlavorFilter.select_flavor Mock.FailedFlavor Mock.set_iter
      successful_clip_flavors (mkFilters false (Some 720) (Some 1000) ["mock"])
      = Some sel /\
    or0 (height sel) <= 720 /\ or0 (bitrate sel) <= 1000.
Proof.
  destruct (both_limits_selection Mock.FailedFlavor Mock.set_iter
              successful_clip_flavors
              (mkFilters false (Some 720) (Some 1000) ["mock"]) 720 1000)
    as (sel & Hsel & _ & Hfit & _).
  - reflexivity.
  - reflexivity.
  - vm_compute. discriminate.
  - exists sel. split; [exact Hsel|].
    destruct Hfit as (Hh & Hb & _); [|auto].
    exists low_quality.
    split; [vm_compute; auto|]. split; vm_compute; discriminate.
Defined.

Lemma maxheight_tie_break_witness :
  exists sel,
    FlavorFilter.select_flavor Mock.FailedFlavor Mock.set_iter
      successful_clip_flavors filters_maxheight_720 = Some sel /\
    In sel (FlavorFilter.enabled_flavors successful_clip_flavors
              filters_maxheight_720) /\
    or0 (height sel) <= 720 /\
    forall fl,
      In fl (FlavorFilter.enabled_flavors successful_clip_flavors
               filters_maxheight_720) ->
      or0 (height fl) <= 720 ->
      or0 (height fl) < or0 (height sel) \/
      (or0 (height fl) = or0 (height sel) /\
       or0 (bitrate sel) <= or0 (bitrate fl)).
Proof.
  destruct (maxheight_tie_break Mock.FailedFlavor Mock.set_iter
              successful_clip_flavors filters_maxheight_720 720)
    as (sel & Hsel & Hin & Hfit & _).
  - reflexivity.
  - reflexivity.
  - vm_compute. discriminate.
  - exists sel. split; [exact Hsel|]. split; [exact Hin|]. apply Hfit.
    exists low_quality. split; [vm_compute; auto | vm_compute; discriminate].
Defined.

Lemma default_tie_goes_to_last_listed_witness :
  let first := mkFlavor "video" (Some 1080) None (Some 1000) [mock_stream 0] in
  let second := mkFlavor "video" (Some 720) None (Some 1000) [mock_stream 1] in
  FlavorFilter.select_flavor Mock.FailedFlavor Mock.set_iter
    [low_quality; first; second] Mock.filters = Some second.
Proof.
  intros first second.
  apply (default_tie_goes_to_last_listed Mock.FailedFlavor Mock.set_iter
           [low_quality; first; second] Mock.filters [low_quality; first] second []).
  - reflexivity.
  - reflexivity.
  - reflexivity.
  - intros y [<-|[<-|[]]]; vm_compute; discriminate.
  - intros y [].
Defined.

Lemma candidates_are_enabled_streams_witness :
  exists candidates fl,
    FlavorFilter.select_streams Mock.FailedFlavor Mock.set_iter
      successful_clip_flavors Mock.filters = Some candidates /\
    candidates <> [] /\
    In fl successful_clip_flavors /\
    forall s, In s candidates <->
              In s (streams fl) /\ In (name s) (enabled_backends Mock.filters).
Proof.
  apply (candidates_are_enabled_streams Mock.FailedFlavor Mock.set_iter
           successful_clip_flavors Mock.filters).
  vm_compute. discriminate.
Defined.

Lemma streams_follow_backend_preference_witness :
  let filters := mkFilters false None None ["a"; "b"] in
  let fl := mkFlavor "video" None None None
              [mkStream "b" true None 0; mkStream "a" true None 1;
               mkStream "c" true None 2; mkStream "b" true None 3] in
  streams (FlavorFilter.filter_streams_by_backend filters fl)
    = [mkStream "a" true None 1; mkStream "b" true None 0; mkStream "b" true None 3] /\
  StronglySorted
    (fun a b => (index_of (name a) ["a"; "b"] <= index_of (name b) ["a"; "b"])%nat)
    (streams (FlavorFilter.filter_streams_by_backend filters fl)).
Proof.
  intros filters fl. split; [reflexivity|].
  apply (streams_follow_backend_preference filters fl).
  repeat constructor; simpl; intuition discriminate.
Defined.

Lemma try_all_streams_ends_with_attempt_witness :
  let run := Downloader.try_all_streams Mock.os Mock.save (Mock.clip_of "clip" [])
               [mock_stream 0; mock_stream 1] Downloader.download_needs_retry
               Mock.empty in
  (exists before s inner r o,
     events run = before ++ [Attempt s inner r o] /\ result run = r) /\
  Mock.files (world_after run) = ["clip.mp4"].
Proof.
  intros run. split; [|reflexivity].
  apply (proj2 (try_all_streams_ends_with_attempt Mock.os Mock.save
                  (Mock.clip_of "clip" []) Downloader.download_needs_retry
                  [mock_stream 0; mock_stream 1] Mock.empty)).
  exists (mock_stream 0). split; [simpl; auto | reflexivity].
Defined.

Lemma download_retry_policy_witness :
  let run := Downloader.try_all_streams Mock.os Mock.save (Mock.clip_of "clip" [])
               [mock_stream 2; mock_stream 3] Downloader.download_needs_retry
               Mock.empty in
  result run = RD_SUCCESS /\
  exists earlier, attempts (events run) = earlier ++ [(mock_stream 2, RD_SUCCESS)].
Proof.
  intros run.
  apply (proj1 (download_retry_policy Mock.os Mock.save (Mock.clip_of "clip" [])
                  [mock_stream 2; mock_stream 3] Mock.empty)
           (mock_stream 2) RD_SUCCESS).
  - vm_compute. auto.
  - now left.
Defined.

Lemma pipe_retry_policy_witness :
  let run := Downloader.try_all_streams Mock.os
               (Downloader.pipe_clip (Mock.backends Mock.third_time_lucky) Mock.io)
               (Mock.clip_of "clip" []) [mock_stream 0; mock_stream 2]
               Downloader.pipe_needs_retry Mock.empty in
  result run = RD_FAILED /\
  exists earlier, attempts (events run) = earlier ++ [(mock_stream 0, RD_FAILED)].
Proof.
  intros run.
  apply (proj1 (pipe_retry_policy Mock.os
                  (Downloader.pipe_clip (Mock.backends Mock.third_time_lucky) Mock.io)
                  (Mock.clip_of "clip" []) [mock_stream 0; mock_stream 2] Mock.empty)
           (mock_stream 0) RD_FAILED).
  - vm_compute. auto.
  - discriminate.
Defined.

Lemma empty_playlist_is_success_witness :
  let io := mkIO (Some "out.mp4") None false None (mkLimits None None) in
  Downloader.download_clips (Mock.extractor [] Mock.three_clips true)
    Mock.geolocation (Mock.backends Mock.third_time_lucky) Mock.os (fun r => r)
    Mock.FailedFlavor Mock.set_iter Mock.flavor_str "url" io Mock.filters Mock.empty
  = (RD_SUCCESS, Mock.empty,
     [GetPlaylist "url" (Some false); Log ERROR "No streams found"]).
Proof.
  intros io.
  apply (proj1 (proj2 (empty_playlist_is_success
                         (Mock.extractor [] Mock.three_clips true)
                         Mock.geolocation (Mock.backends Mock.third_time_lucky)
                         Mock.os (fun r => r) Mock.FailedFlavor Mock.set_iter
                         Mock.flavor_str
                         Mock.save Downloader.download_needs_retry Mock.filters))
           "url" io Mock.filters Mock.empty).
  reflexivity.
Defined.

Lemma overall_status_characterised_witness :
  let status playlist :=
    result (Downloader.process_loop Mock.abc Mock.geolocation Mock.os
              Mock.FailedFlavor Mock.set_iter Mock.flavor_str Mock.save
              Downloader.download_needs_retry Mock.filters
              RD_SUCCESS playlist Mock.empty) in
  let tried :=
    Downloader.try_all_streams Mock.os Mock.save (Mock.three_clips "b")
      [mock_stream 0] Downloader.download_needs_retry Mock.empty in
  status ["a"; "b"; "c"] = RD_FAILED /\
  status ["b"] = result tried /\
  attempts (events tried) = [(mock_stream 0, RD_FAILED)].
Proof.
  intros status tried. split; [|split; [|reflexivity]].
  - apply (proj2 (proj1 (overall_status_characterised Mock.abc Mock.geolocation
                           Mock.os Mock.FailedFlavor Mock.set_iter
                           Mock.flavor_str Mock.save
                           Downloader.download_needs_retry Mock.filters
                           ["a"; "b"; "c"] Mock.empty))).
    vm_compute. auto.
  - apply (proj2 (proj2 (proj2 (proj2 (proj2
             (overall_status_characterised Mock.abc Mock.geolocation
                Mock.os Mock.FailedFlavor Mock.set_iter
                Mock.flavor_str Mock.save
                Downloader.download_needs_retry Mock.filters
                ["b"] Mock.empty))) "b" [] eq_refl)
             [mock_stream 0] eq_refl eq_refl) eq_refl).
Defined.

Lemma unusable_items_are_not_attempted_witness :
  let broken := mkStream "mock" false (Some "expired") 0 in
  let clips := fun u : string =>
    if String.eqb u "dead" then Mock.clip_of "dead" [broken]
    else Mock.clip_of u [broken; mock_stream 2] in
  let run := fun u : string =>
    Downloader.process_clip (Mock.extractor ["dead"; "live"] clips false)
      Mock.geolocation Mock.os Mock.FailedFlavor Mock.set_iter Mock.flavor_str
      Mock.save Downloader.download_needs_retry Mock.filters
      RD_SUCCESS u Mock.empty in
  (run "dead" =
     (RD_FAILED, Mock.empty,
      [ExtractClip "dead"; Log DEBUG "Available flavors:";
       Log DEBUG "bitrate: 1412, height: 720, width: 1280";
       Log DEBUG "max_height: None, max_bitrate: None";
       Log DEBUG "Selected flavor: 720p@1412";
       Log ERROR "Unsupported stream: expired";
       LocatedInFinland "https://areena.yle.fi/1-1234567"]) /\
   attempts (events (run "dead")) = [] /\
   hd_error (errors (events (run "dead"))) = Some "Unsupported stream: expired") /\
  (exists later,
     attempts (events (run "live")) = (mock_stream 2, RD_SUCCESS) :: later).
Proof.
  intros broken clips run. split.
  - apply (proj1 (proj2 (proj2 (unusable_items_are_not_attempted
                    (Mock.extractor ["dead"; "live"] clips false)
                    Mock.geolocation Mock.os Mock.FailedFlavor Mock.set_iter
                    Mock.flavor_str Mock.save Downloader.download_needs_retry
                    Mock.filters RD_SUCCESS "dead" Mock.empty)))
             broken [] eq_refl).
    intros s [<-|[]]. reflexivity.
  - apply (proj2 (proj2 (proj2 (unusable_items_are_not_attempted
                    (Mock.extractor ["dead"; "live"] clips false)
                    Mock.geolocation Mock.os Mock.FailedFlavor Mock.set_iter
                    Mock.flavor_str Mock.save Downloader.download_needs_retry
                    Mock.filters RD_SUCCESS "live" Mock.empty)))
             [broken; mock_stream 2] (mock_stream 2) eq_refl eq_refl).
Defined.

Lemma download_never_overwrites_witness :
  let there := Mock.mkWorld ["clip.mp4"] [] in
  Downloader.download (Mock.backends Mock.third_time_lucky) Mock.os Mock.io
    (Mock.clip_of "clip" []) (mock_stream 2) there
  = (RD_SUCCESS, Some "clip.mp4", there,
     [WarnUnsupported (mock_stream 2); OutputName (Some "clip") ".mp4";
      PathExists "clip.mp4" true;
      Log INFO "clip.mp4 has already been downloaded."]).
Proof.
  intros there.
  apply (download_never_overwrites (Mock.backends Mock.third_time_lucky) Mock.os
           Mock.io (Mock.clip_of "clip" []) (mock_stream 2) there "clip.mp4").
  - reflexivity.
  - discriminate.
  - reflexivity.
  - reflexivity.
Defined.

Lemma download_skips_complete_stream_unless_slicing_witness :
  let io := mkIO None None true None (mkLimits (Some 30) None) in
  let there := Mock.mkWorld ["clip.mp4"] [] in
  let run := Downloader.download (Mock.backends Mock.third_time_lucky) Mock.os io
               (Mock.clip_of "clip" []) (mock_stream 2) there in
  result run = (RD_SUCCESS, Some "clip.mp4") /\
  saves (events run) = [(mock_stream 2, "clip.mp4", RD_SUCCESS)].
Proof.
  intros io there run.
  apply (proj2 (download_skips_complete_stream_unless_slicing
                  (Mock.backends Mock.third_time_lucky) Mock.os io
                  (Mock.clip_of "clip" []) (mock_stream 2) there "clip.mp4"
                  eq_refl ltac:(discriminate) (or_introl eq_refl))).
  reflexivity.
Defined.

Lemma download_postprocess_only_after_success_witness :
  let io := mkIO None None false (Some "echo") (mkLimits None None) in
  let run := Downloader.download (Mock.backends Mock.third_time_lucky) Mock.os io
               (Mock.clip_of "clip" []) (mock_stream 2) Mock.empty in
  exists cmd f,
    postprocess_command io = Some cmd /\ ["echo"; "clip.mp4"] = [cmd; f] /\
    saves (events run) = [(mock_stream 2, f, RD_SUCCESS)] /\
    result run = (RD_SUCCESS, Some f) /\
    executes (events run) = [["echo"; "clip.mp4"]].
Proof.
  intros io run.
  apply (proj2 (download_postprocess_only_after_success
                  (Mock.backends Mock.third_time_lucky) Mock.os io
                  (Mock.clip_of "clip" []) (mock_stream 2) Mock.empty)
           ["echo"; "clip.mp4"]).
  vm_compute. auto.
Defined.

Lemma download_without_name_fails_witness :
  let io := mkIO (Some "") None false None (mkLimits None None) in
  Downloader.download (Mock.backends Mock.third_time_lucky) Mock.os io
    (Mock.clip_of "clip" []) (mock_stream 2) Mock.empty
  = (RD_FAILED, None, Mock.empty,
     [WarnUnsupported (mock_stream 2); OutputName (Some "clip") ".mp4"]).
Proof.
  intros io.
  pose proof (download_without_name_fails
                (Mock.backends Mock.third_time_lucky) Mock.os io
                (Mock.clip_of "clip" []) (mock_stream 2) Mock.empty) as [Hiff Hnone].
  apply Hnone. apply Hiff. right. reflexivity.
Defined.

Lemma remove_retry_file_only_removes_its_file_witness :
  let there := Mock.mkWorld ["clip.mp4"; "other.mp4"] [] in
  let run := Downloader.remove_retry_file Mock.os (Some "clip.mp4") there in
  removals (events run) = ["clip.mp4"] /\
  Mock.files (world_after run) = ["other.mp4"].
Proof.
  intros there run. split; [|reflexivity].
  apply (proj1 (remove_retry_file_only_removes_its_file Mock.os
                  (Some "clip.mp4") there) "clip.mp4").
  vm_compute. auto.
Defined.

Lemma get_urls_agrees_with_process_witness :
  let clip := Mock.clip_of "clip"
                [mkStream "mock" false (Some "broken") 0; mock_stream 2] in
  let extract := fun (_ : string) (_ : bool) (w : Mock.World) => ([clip], w) in
  fst (Queries.get_urls extract name Mock.FailedFlavor Mock.set_iter
         "url" Mock.filters Mock.empty) = ["mock"] /\
  exists r later,
    attempts (events (Downloader.try_all_streams Mock.os Mock.save clip
                        [mkStream "mock" false (Some "broken") 0; mock_stream 2]
                        Downloader.download_needs_retry Mock.empty))
      = (mock_stream 2, r) :: later.
Proof.
  intros clip extract. split; [reflexivity|].
  destruct (get_urls_agrees_with_process extract name Mock.FailedFlavor Mock.set_iter
              Mock.os Mock.save Downloader.download_needs_retry
              "url" Mock.filters Mock.empty) as (_ & _ & _ & Hclip).
  apply (proj2 (Hclip clip)
           [mkStream "mock" false (Some "broken") 0; mock_stream 2]
           (mock_stream 2) Mock.empty).
  - reflexivity.
  - reflexivity.
Defined.

Lemma error_flavor_first_invalid_witness :
  let fls := [mkFlavor "video" None None None [mkStream "hls" false (Some "expired") 0];
              mkFlavor "video" None None None [mkStream "hls" false (Some "geo") 1]] in
  Queries.error_flavor Mock.FailedFlavor fls
    = Some (FlavorFilter.backend_not_enabled_flavor Mock.FailedFlavor Mock.set_iter fls) /\
  Queries.error_flavor Mock.FailedFlavor fls
    = Some (Mock.FailedFlavor (Some "expired")).
Proof.
  intros fls. split; [|reflexivity].
  apply (proj2 (proj2 (error_flavor_first_invalid Mock.FailedFlavor Mock.set_iter fls))).
  - discriminate.
  - intros s [<-|[<-|[]]]; reflexivity.
Defined.
